(** * Process simulator of the BPMN analysis agent (agent3.ts)

    A shallow embedding of the discrete-event simulator and of the metrics
    aggregator of [ProcessSimulationAgent]:

    - [applyScenarioModifications], [simulateCase], [simulateProcess],
    - [calculatePerformanceMetrics], [calculateWaitingTimes], [median],

    and of what surrounds them in the same file: [parsePercentage], the
    exported [simulateProcess] that runs the scenarios one after the other,
    and the retry wrapper [withRetry] with [generateContent] on top of it.

    JavaScript numbers are IEEE 754 binary64 values; they are modelled by
    Rocq's primitive [float], which is the same format with the same
    rounding, so that not-a-number and infinite results are those of the
    program.  A [Date] is modelled by its time value (milliseconds since the
    epoch, or NaN for an invalid date).  [Math.random] is modelled by a
    stream of draws [nat -> float] and a counter of the draws consumed.
    Objects used as dictionaries are finite maps over their own properties.
    What a plain object answers for a name that it inherits from
    [Object.prototype] ([Js.inherited]) is modelled where the program
    depends on it: assigning to [__proto__] creates no property
    ([initResources]), and [push] on an inherited name throws
    ([Call.calculateWaitingTimes]).  Case ids are integers, as the loop of
    [simulateProcess] produces them.  The [async] functions contain
    no suspension point that matters: they are modelled as plain calls. *)

From Stdlib Require Import ZArith List String Bool Lia Floats.
From stdpp Require Import base gmap sets list strings.

Local Open Scope string_scope.
Local Open Scope list_scope.
Local Open Scope Z_scope.

(** ** JavaScript numbers *)

Module Js.

  (** ToBoolean on a number: [0], [-0] and [NaN] are falsy. *)
Definition truthy (x : float) : bool :=
    negb (PrimFloat.is_zero x || PrimFloat.is_nan x).

  (** [a || b] on numbers. *)
Definition or_num (a b : float) : float := if truthy a then a else b.

  (** ToBoolean on [string | null]: [null] and the empty string are falsy. *)
Definition truthy_str (s : option string) : bool :=
    match s with
    | None => false
    | Some s => negb (String.eqb s "")
    end.

  (** The number of a non-negative integer below [2^53] (an array length). *)
Definition of_nat (n : nat) : float :=
    PrimFloat.of_uint63 (Uint63.of_Z (Z.of_nat n)).

Definition of_Z (z : Z) : float :=
    if z <? 0 then (- PrimFloat.of_uint63 (Uint63.of_Z (- z)))%float
    else PrimFloat.of_uint63 (Uint63.of_Z z).

  (** Truncation toward zero of a finite number (ToIntegerOrInfinity): a
      number [m * 2^e] with [e >= 0] is an integer already; otherwise the
      mantissa is shifted right, which leaves an integer below [2^53]. *)
Definition trunc (x : float) : float :=
    match Prim2SF x with
    | S754_finite s m e =>
        if 0 <=? e then x
        else
          let q := PrimFloat.of_uint63 (Uint63.of_Z (Z.shiftr (Z.pos m) (- e))) in
          if s then (- q)%float else q
    | _ => x
    end.

  (** TimeClip: the time value kept by [new Date(v)]. *)
Definition TimeClip (v : float) : float :=
    if negb (PrimFloat.is_finite v) then PrimFloat.nan
    else if (8.64e15 <? PrimFloat.abs v)%float then PrimFloat.nan
    else (trunc v + 0)%float.

  (** [new Date(v)] for a number or a [Date] [v]. *)
Definition new_Date (v : float) : float := TimeClip v.

  (** [Math.min(...xs)] and [Math.max(...xs)]: NaN is contagious, [-0] is
      below [+0], and the empty spread gives [+Infinity] / [-Infinity]. *)
Definition min2 (a b : float) : float :=
    if PrimFloat.is_nan a || PrimFloat.is_nan b then PrimFloat.nan
    else if (a <? b)%float then a
    else if (b <? a)%float then b
    else if PrimFloat.get_sign a then a else b.

Definition max2 (a b : float) : float :=
    if PrimFloat.is_nan a || PrimFloat.is_nan b then PrimFloat.nan
    else if (a <? b)%float then b
    else if (b <? a)%float then a
    else if PrimFloat.get_sign a then b else a.

Definition Math_min (xs : list float) : float :=
    fold_left min2 xs PrimFloat.infinity.

Definition Math_max (xs : list float) : float :=
    fold_left max2 xs PrimFloat.neg_infinity.

  (** [xs.reduce((a, b) => a + b, 0)]. *)
Definition sum (xs : list float) : float :=
    fold_left PrimFloat.add xs 0%float.

  (** [Array.prototype.sort(cmp)]: a stable sort.  [after x y] says that the
      comparator puts [x] after [y] ([cmp(x, y) > 0]); a NaN comparison
      counts as [+0].  For a consistent comparator the result is the one
      stable ordering, whatever the engine's algorithm.  Where NaN
      comparisons make the comparator inconsistent on the array, the
      language leaves the order to the engine: [sort] then gives one
      permutation of the array, which need not be the engine's.  What is
      stated below of a sorted array either holds of every permutation or
      is stated of an array on which the comparator is consistent. *)
Section Sort.
Context {A : Type} (after : A -> A -> bool).

Fixpoint insert_sorted (x : A) (l : list A) : list A :=
      match l with
      | [] => [x]
      | y :: l' => if after x y then y :: insert_sorted x l' else x :: y :: l'
      end.

Fixpoint sort (l : list A) : list A :=
      match l with
      | [] => []
      | x :: l' => insert_sorted x (sort l')
      end.
End Sort.

  (** The property names that every plain object inherits from
      [Object.prototype]: for them [o[name]] is a function or, for
      [__proto__], the prototype itself, although [o] has no such property
      of its own. *)
Definition inherited (name : string) : bool :=
    existsb (String.eqb name)
      ["constructor"; "__defineGetter__"; "__defineSetter__"; "hasOwnProperty";
       "__lookupGetter__"; "__lookupSetter__"; "isPrototypeOf";
       "propertyIsEnumerable"; "toString"; "valueOf"; "__proto__";
       "toLocaleString"].

  End Js.

(** ** Data model (the interfaces of agent3.ts) *)

Module ActivityDuration.
Record t := mk { min : float; max : float; unit : string }.
End ActivityDuration.

Inductive ActivityType := task | decision | parallel | approval.

Module ProcessActivity.
Record t := mk {
    id : string;
    name : string;
    type : ActivityType;
    performer : string;
    duration : ActivityDuration.t;
    cost : float;
    resources : float;
    probability : float
  }.
End ProcessActivity.

Module ProcessFlow.
Record t := mk {
    from : string;
    to : string;
    condition : option string;
    probability : float
  }.
End ProcessFlow.

Module ProcessResource.
Record t := mk { role : string; capacity : float; costPerHour : float }.
End ProcessResource.

Module ProcessStructure.
Record t := mk {
    processName : string;
    activities : list ProcessActivity.t;
    flows : list ProcessFlow.t;
    resources : list ProcessResource.t
  }.
End ProcessStructure.

Module ScenarioModification.
Record t := mk {
    id : string;
    duration : option ActivityDuration.t;
    cost : option float;
    resources : option float
  }.
End ScenarioModification.

Module Modifications.
Record t := mk {
    activities : option (list ScenarioModification.t);
    resources : option (list ProcessResource.t)
  }.
End Modifications.

Module Scenario.
Record t := mk {
    scenarioName : string;
    description : option string;
    modifications : option Modifications.t
  }.
End Scenario.

Inductive EventKind := start | complete.

Definition EventKind_eqb (a b : EventKind) : bool :=
  match a, b with
  | start, start | complete, complete => true
  | _, _ => false
  end.

Module SimulationEvent.
Record t := mk {
    caseId : Z;
    activity : string;
    activityId : string;
    event : EventKind;
    timestamp : float;
    resource : string;
    cost : float;
    duration : option float
  }.
End SimulationEvent.

Module ThroughputMetrics.
Record t := mk { avg : float; min : float; max : float; median : float }.
End ThroughputMetrics.

Module CostMetrics.
Record t := mk { avg : float; total : float }.
End CostMetrics.

Module PerformanceMetrics.
Record t := mk {
    throughput : ThroughputMetrics.t;
    cost : CostMetrics.t;
    waitingTime : gmap string float;
    utilization : gmap string float;
    casesCompleted : nat
  }.
End PerformanceMetrics.

(** The entries of [resourceUtilization]: [{ busy, total, waiting }]. *)
Module ResourceUsage.
Record t := mk { busy : float; total : float; waiting : list float }.
Definition add_total (d : float) (u : t) : t :=
    mk (busy u) (total u + d)%float (waiting u).
End ResourceUsage.

(** ** Scenario modifier *)

(** [modifications.activities?.find(m => m.id === activity.id)]. *)
Definition findModification (mods : Modifications.t) (activity : ProcessActivity.t)
    : option ScenarioModification.t :=
  match Modifications.activities mods with
  | None => None
  | Some ms =>
      find (fun m => String.eqb (ScenarioModification.id m)
                                (ProcessActivity.id activity)) ms
  end.

(** The callback of [activities.map]: the fields of the override are
    combined with those of the activity by [||], so that an override is
    taken when it is truthy. *)
Definition modifyActivity (mods : Modifications.t) (activity : ProcessActivity.t)
    : ProcessActivity.t :=
  match findModification mods activity with
  | Some m =>
      ProcessActivity.mk
        (ProcessActivity.id activity)
        (ProcessActivity.name activity)
        (ProcessActivity.type activity)
        (ProcessActivity.performer activity)
        (match ScenarioModification.duration m with
         | Some d => d
         | None => ProcessActivity.duration activity
         end)
        (match ScenarioModification.cost m with
         | Some c => Js.or_num c (ProcessActivity.cost activity)
         | None => ProcessActivity.cost activity
         end)
        (match ScenarioModification.resources m with
         | Some r => Js.or_num r (ProcessActivity.resources activity)
         | None => ProcessActivity.resources activity
         end)
        (ProcessActivity.probability activity)
  | None => activity
  end.

(** [applyScenarioModifications(activities, modifications)]. *)
Definition applyScenarioModifications
    (activities : list ProcessActivity.t)
    (modifications : option Modifications.t) : list ProcessActivity.t :=
  match modifications with
  | None => activities
  | Some mods => map (modifyActivity mods) activities
  end.

(** ** Case simulator *)

(** A thrown JavaScript error: its class name and its message. *)
Module JsError.
Record t := mk { name : string; message : string }.
End JsError.

(** How a call ends: normally, or by throwing; in both cases [a] is the state
    of the mutable objects the call works on at that point. *)
Inductive Completion (A : Type) : Type :=
| Normal (a : A)
| Throw (e : JsError.t) (a : A).
Arguments Normal {A} a.
Arguments Throw {A} e a.

(** Reading [.id] of [activities[0]] when the array is empty. *)
Definition undefined_id_error : JsError.t :=
  JsError.mk "TypeError" "Cannot read properties of undefined (reading 'id')".

(** The mutable state a case works on: its local [queue], and the objects it
    was handed ([visited], [events], [resourceUtil]); [draws] counts the
    calls of [Math.random] so far. *)
Module CaseState.
Record t := mk {
  queue : list (string * float);
  visited : gset string;
  events : list SimulationEvent.t;
  resourceUtil : gmap string ResourceUsage.t;
  draws : nat
}.
End CaseState.

(** What [simulateProcess] returns, and the draws consumed. *)
Module Run.
Record t := mk {
  events : list SimulationEvent.t;
  resourceUtilization : gmap string ResourceUsage.t;
  draws : nat
}.
End Run.

Section Simulator.

(** The stream of results of [Math.random()]. *)
Variable random : nat -> float.

(** [randomBetween(min, max)], with the draw counter threaded. *)
Definition randomBetween (min max : float) (n : nat) : float * nat :=
  ((min + random n * (max - min))%float, S n).

(** The [for (const flow of nextFlows)] loop: a flow without a condition is
    enqueued without a draw; otherwise one draw is compared with
    [flow.probability || 1.0]. *)
Fixpoint enqueueFlows (nextFlows : list ProcessFlow.t) (endTime : float)
    (queue : list (string * float)) (n : nat) : list (string * float) * nat :=
  match nextFlows with
  | [] => (queue, n)
  | flow :: rest =>
      if negb (Js.truthy_str (ProcessFlow.condition flow)) then
        enqueueFlows rest endTime (queue ++ [(ProcessFlow.to flow, endTime)]) n
      else if (random n <? Js.or_num (ProcessFlow.probability flow) 1)%float then
        enqueueFlows rest endTime (queue ++ [(ProcessFlow.to flow, endTime)]) (S n)
      else
        enqueueFlows rest endTime queue (S n)
  end.

Definition findActivity (activities : list ProcessActivity.t) (activityId : string)
    : option ProcessActivity.t :=
  find (fun a => String.eqb (ProcessActivity.id a) activityId) activities.

Definition outgoing (flows : list ProcessFlow.t) (activityId : string)
    : list ProcessFlow.t :=
  List.filter (fun f => String.eqb (ProcessFlow.from f) activityId) flows.

(** One turn of the [while (queue.length > 0)] loop of [simulateCase]. *)
Definition iteration (caseId : Z) (activities : list ProcessActivity.t)
    (flows : list ProcessFlow.t) (st : CaseState.t) : CaseState.t :=
  match CaseState.queue st with
  | [] => st
  | (activityId, time) :: queue =>
      let skip :=
        CaseState.mk queue (CaseState.visited st) (CaseState.events st)
          (CaseState.resourceUtil st) (CaseState.draws st) in
      if bool_decide (activityId ∈ CaseState.visited st) then skip
      else
        match findActivity activities activityId with
        | None => skip
        | Some activity =>
            let startEvent :=
              SimulationEvent.mk caseId (ProcessActivity.name activity)
                (ProcessActivity.id activity) start (Js.new_Date time)
                (ProcessActivity.performer activity) 0%float None in
            let '(duration, n1) :=
              randomBetween
                (ActivityDuration.min (ProcessActivity.duration activity))
                (ActivityDuration.max (ProcessActivity.duration activity))
                (CaseState.draws st) in
            let endTime := Js.new_Date (time + duration * 60000)%float in
            let endEvent :=
              SimulationEvent.mk caseId (ProcessActivity.name activity)
                (ProcessActivity.id activity) complete endTime
                (ProcessActivity.performer activity)
                (Js.or_num (ProcessActivity.cost activity) 0%float)
                (Some duration) in
            let resourceUtil :=
              alter (ResourceUsage.add_total duration)
                (ProcessActivity.performer activity) (CaseState.resourceUtil st) in
            let '(queue', n2) :=
              enqueueFlows (outgoing flows activityId) endTime queue n1 in
            CaseState.mk queue' ({[activityId]} ∪ CaseState.visited st)
              (CaseState.events st ++ [startEvent; endEvent]) resourceUtil n2
        end
  end.

(** The [while] loop, bounded by [fuel]: [None] when the queue is not empty
    after [fuel] turns. *)
Fixpoint whileQueue (fuel : nat) (caseId : Z) (activities : list ProcessActivity.t)
    (flows : list ProcessFlow.t) (st : CaseState.t) : option CaseState.t :=
  match CaseState.queue st with
  | [] => Some st
  | _ :: _ =>
      match fuel with
      | O => None
      | S fuel' =>
          whileQueue fuel' caseId activities flows
            (iteration caseId activities flows st)
      end
  end.

(** [simulateCase(caseId, activities, flows, startTime, events, resourceUtil,
    visited)] with at most [fuel] turns of its loop. *)
Definition simulateCaseFuel (fuel : nat) (caseId : Z)
    (activities : list ProcessActivity.t) (flows : list ProcessFlow.t)
    (startTime : float) (events : list SimulationEvent.t)
    (resourceUtil : gmap string ResourceUsage.t) (visited : gset string)
    (draws : nat) : option (Completion CaseState.t) :=
  match activities with
  | [] =>
      Some (Throw undefined_id_error
              (CaseState.mk [] visited events resourceUtil draws))
  | first :: _ =>
      match whileQueue fuel caseId activities flows
              (CaseState.mk [(ProcessActivity.id first, startTime)] visited
                 events resourceUtil draws) with
      | Some st => Some (Normal st)
      | None => None
      end
  end.

(** A number of turns that always suffices (see [whileQueue_enough]). *)
Definition caseFuel (activities : list ProcessActivity.t)
    (flows : list ProcessFlow.t) : nat :=
  S (length activities * S (length flows)).

Definition simulateCase (caseId : Z) (activities : list ProcessActivity.t)
    (flows : list ProcessFlow.t) (startTime : float)
    (events : list SimulationEvent.t)
    (resourceUtil : gmap string ResourceUsage.t) (visited : gset string)
    (draws : nat) : option (Completion CaseState.t) :=
  simulateCaseFuel (caseFuel activities flows) caseId activities flows
    startTime events resourceUtil visited draws.

(** ** Simulation run *)

(** The number of milliseconds that [new Date(2024, 0, 1, 8, 0, 0)] computes
    from its fields.  They are fields of the local time, so the number
    depends on the time zone of the host. *)
Variable caseStart : float.

(** [processStructure.resources.forEach(r => resourceUtilization[r.role] =
    { busy: 0, total: 0, waiting: [] })].  On a plain object an assignment
    to [__proto__] sets the prototype and creates no property: a role of
    that name gets no entry.  (The object that it installs as the prototype
    is not followed any further.) *)
Definition initResources (resources : list ProcessResource.t)
    : gmap string ResourceUsage.t :=
  fold_left
    (fun acc r =>
       if String.eqb (ProcessResource.role r) "__proto__" then acc
       else <[ProcessResource.role r := ResourceUsage.mk 0 0 []]> acc)
    resources ∅.

(** The [for (let caseId = 1; caseId <= numInstances; caseId++)] loop, with
    [n] cases left to run from [caseId] on. *)
Fixpoint caseLoop (n : nat) (caseId : Z) (activities : list ProcessActivity.t)
    (flows : list ProcessFlow.t) (run : Run.t) : option (Completion Run.t) :=
  match n with
  | O => Some (Normal run)
  | S n' =>
      match simulateCase caseId activities flows (Js.new_Date caseStart)
              (Run.events run) (Run.resourceUtilization run) ∅
              (Run.draws run) with
      | None => None
      | Some (Throw e st) =>
          Some (Throw e
                  (Run.mk (CaseState.events st) (CaseState.resourceUtil st)
                     (CaseState.draws st)))
      | Some (Normal st) =>
          caseLoop n' (caseId + 1) activities flows
            (Run.mk (CaseState.events st) (CaseState.resourceUtil st)
               (CaseState.draws st))
      end
  end.

(** [simulateProcess(processStructure, scenario, numInstances)], started
    after [draws] calls of [Math.random]. *)
Definition simulateProcess (processStructure : ProcessStructure.t)
    (scenario : Scenario.t) (numInstances : Z) (draws : nat)
    : option (Completion Run.t) :=
  let resourceUtilization :=
    initResources (ProcessStructure.resources processStructure) in
  let modifiedActivities :=
    applyScenarioModifications (ProcessStructure.activities processStructure)
      (Scenario.modifications scenario) in
  caseLoop (Z.to_nat numInstances) 1 modifiedActivities
    (ProcessStructure.flows processStructure)
    (Run.mk [] resourceUtilization draws).

End Simulator.

(** ** Metrics aggregator *)

(** An object whose property names are integers ([cases]), as the list of
    its own properties in enumeration order: the names that are array
    indices come first, ascending, then the others in insertion order. *)
Module JsObject.

Definition is_index (k : Z) : bool := (0 <=? k) && (k <? 2 ^ 32 - 1).

Fixpoint get {V : Type} (o : list (Z * V)) (k : Z) : option V :=
  match o with
  | [] => None
  | (k', v) :: o' => if k' =? k then Some v else get o' k
  end.

Fixpoint insert_new {V : Type} (o : list (Z * V)) (k : Z) (v : V) : list (Z * V) :=
  match o with
  | [] => [(k, v)]
  | (k', v') :: o' =>
      if is_index k && (negb (is_index k') || (k <? k'))
      then (k, v) :: (k', v') :: o'
      else (k', v') :: insert_new o' k v
  end.

Fixpoint replace {V : Type} (o : list (Z * V)) (k : Z) (v : V) : list (Z * V) :=
  match o with
  | [] => []
  | (k', v') :: o' =>
      if k' =? k then (k, v) :: o' else (k', v') :: replace o' k v
  end.

Definition set {V : Type} (o : list (Z * V)) (k : Z) (v : V) : list (Z * V) :=
  match get o k with
  | Some _ => replace o k v
  | None => insert_new o k v
  end.

Definition keys {V : Type} (o : list (Z * V)) : list Z := map fst o.
Definition values {V : Type} (o : list (Z * V)) : list V := map snd o.

End JsObject.

(** The entries of [cases]: [{ start, end, cost, activities }]. *)
Module CaseRecord.
Record t := mk {
  start : option float;
  end_ : option float;
  cost : float;
  activities : list (string * option float)
}.
End CaseRecord.

(** The body of [events.forEach(event => ...)] that rebuilds the cases. *)
Definition recordEvent (cases : list (Z * CaseRecord.t))
    (event : SimulationEvent.t) : list (Z * CaseRecord.t) :=
  let id := SimulationEvent.caseId event in
  let c0 :=
    match JsObject.get cases id with
    | Some c => c
    | None => CaseRecord.mk None None 0%float []
    end in
  let c1 :=
    match SimulationEvent.event event, CaseRecord.start c0 with
    | start, None =>
        CaseRecord.mk (Some (SimulationEvent.timestamp event))
          (CaseRecord.end_ c0) (CaseRecord.cost c0) (CaseRecord.activities c0)
    | _, _ => c0
    end in
  let c2 :=
    match SimulationEvent.event event with
    | complete =>
        CaseRecord.mk (CaseRecord.start c1)
          (Some (SimulationEvent.timestamp event))
          (CaseRecord.cost c1 + SimulationEvent.cost event)%float
          (CaseRecord.activities c1 ++
             [(SimulationEvent.activity event, SimulationEvent.duration event)])
    | start => c1
    end in
  JsObject.set cases id c2.

Definition buildCases (events : list SimulationEvent.t) : list (Z * CaseRecord.t) :=
  fold_left recordEvent events [].

(** The cases with [c.start && c.end]: their throughput time in hours and
    their cost. *)
Definition completedCases (cases : list (Z * CaseRecord.t)) : list (float * float) :=
  flat_map (fun c =>
    match CaseRecord.start c, CaseRecord.end_ c with
    | Some s, Some e => [(((e - s) / (1000 * 60 * 60))%float, CaseRecord.cost c)]
    | _, _ => []
    end) (JsObject.values cases).

(** [arr[i]] used as a number: an absent element is [undefined], whose
    number is NaN. *)
Definition numberAt (arr : list float) (i : Z) : float :=
  if i <? 0 then PrimFloat.nan else nth (Z.to_nat i) arr PrimFloat.nan.

(** [median(arr)]. *)
Definition median (arr : list float) : float :=
  let sorted := Js.sort (fun a b => (0 <? a - b)%float) arr in
  let mid := Z.of_nat (length sorted) / 2 in
  if Z.of_nat (length sorted) mod 2 =? 0
  then ((numberAt sorted (mid - 1) + numberAt sorted mid) / 2)%float
  else numberAt sorted mid.

(** The body of [sorted.forEach(event => ...)] in [calculateWaitingTimes],
    where [push] succeeds: [waiting] as the map of its own properties.
    [Call.waitingStep] below adds the case in which it fails. *)
Definition waitingStep (st : gmap string (list float) * gmap Z float)
    (event : SimulationEvent.t) : gmap string (list float) * gmap Z float :=
  let '(waiting, lastEnd) := st in
  let waiting' :=
    match SimulationEvent.event event, lastEnd !! SimulationEvent.caseId event with
    | start, Some last =>
        let wait := ((SimulationEvent.timestamp event - last) / (1000 * 60))%float in
        <[SimulationEvent.activity event :=
            (default [] (waiting !! SimulationEvent.activity event) ++ [wait])%list]>
          waiting
    | _, _ => waiting
    end in
  let lastEnd' :=
    match SimulationEvent.event event with
    | complete =>
        <[SimulationEvent.caseId event := SimulationEvent.timestamp event]> lastEnd
    | start => lastEnd
    end in
  (waiting', lastEnd').

(** [events.sort((a, b) => a.timestamp - b.timestamp)]: the array itself is
    sorted, and the result is that same array. *)
Definition sortByTimestamp (events : list SimulationEvent.t) : list SimulationEvent.t :=
  Js.sort
    (fun a b => (0 <? SimulationEvent.timestamp a - SimulationEvent.timestamp b)%float)
    events.

(** [calculateWaitingTimes(events)]: the averages, and the contents of the
    array [events] when the call returns. *)
Definition calculateWaitingTimes (events : list SimulationEvent.t)
    : gmap string float * list SimulationEvent.t :=
  let sorted := sortByTimestamp events in
  let waiting := fst (fold_left waitingStep sorted (∅, ∅)) in
  let avgWaiting :=
    (fun times => (Js.sum times / Js.of_nat (length times))%float) <$> waiting in
  (avgWaiting, sorted).

(** [resource ? resource.capacity : 1] for the first resource of that role. *)
Definition capacityOf (resources : list ProcessResource.t) (role : string) : float :=
  match find (fun r => String.eqb (ProcessResource.role r) role) resources with
  | Some resource => ProcessResource.capacity resource
  | None => 1%float
  end.

(** The utilization entry of one role. *)
Definition utilizationOf (resources : list ProcessResource.t) (totalSimTime : float)
    (role : string) (data : ResourceUsage.t) : float :=
  ((ResourceUsage.total data / (totalSimTime * capacityOf resources role)) * 100)%float.

(** [calculatePerformanceMetrics(events, resourceUtil, processStructure)]:
    the metrics record, and the contents of the caller's array [events] when
    the call returns. *)
Definition calculatePerformanceMetrics (events : list SimulationEvent.t)
    (resourceUtil : gmap string ResourceUsage.t)
    (processStructure : ProcessStructure.t)
    : PerformanceMetrics.t * list SimulationEvent.t :=
  let cases := buildCases events in
  let completed := completedCases cases in
  let throughputTimes := map fst completed in
  let costs := map snd completed in
  let avgThroughput :=
    (Js.sum throughputTimes / Js.of_nat (length throughputTimes))%float in
  let avgCost := (Js.sum costs / Js.of_nat (length costs))%float in
  let '(waitingTimes, events') := calculateWaitingTimes events in
  let totalSimTime :=
    (8 * 60 * Js.of_nat (length (JsObject.keys cases)) / 5)%float in
  let utilization :=
    map_imap (fun role data =>
      Some (utilizationOf (ProcessStructure.resources processStructure)
              totalSimTime role data)) resourceUtil in
  (PerformanceMetrics.mk
     (ThroughputMetrics.mk avgThroughput (Js.Math_min throughputTimes)
        (Js.Math_max throughputTimes) (median throughputTimes))
     (CostMetrics.mk avgCost (Js.sum costs))
     waitingTimes utilization (length (JsObject.keys cases)),
   events').

(** *** The calls with their error path *)

(** Calling [push] on [waiting[event.activity]] when [waiting] has no array
    of its own under that name, but inherits a value from
    [Object.prototype]. *)
Definition push_error : JsError.t :=
  JsError.mk "TypeError" "waiting[event.activity].push is not a function".

(** [calculateWaitingTimes] and [calculatePerformanceMetrics] as calls that
    return or throw.  The first component of the result is the error thrown
    or the value returned, the second is the contents of the caller's array
    [events] at that point. *)
Module Call.

(** The body of [sorted.forEach(event => ...)].  For a start event that
    follows a complete event of its case, [waiting[event.activity]] is read:
    a name inherited from [Object.prototype] gives a value that is truthy
    and has no [push], so that no array is created and the call of [push]
    throws.  A name of this kind is never a property of [waiting] itself,
    since only a falsy [waiting[event.activity]] is assigned to. *)
Definition waitingStep
    (st : JsError.t + (gmap string (list float) * gmap Z float))
    (event : SimulationEvent.t)
    : JsError.t + (gmap string (list float) * gmap Z float) :=
  match st with
  | inl e => inl e
  | inr (waiting, lastEnd) =>
      match SimulationEvent.event event, lastEnd !! SimulationEvent.caseId event with
      | start, Some last =>
          if Js.inherited (SimulationEvent.activity event) then inl push_error
          else
            let wait := ((SimulationEvent.timestamp event - last) / (1000 * 60))%float in
            inr (<[SimulationEvent.activity event :=
                     (default [] (waiting !! SimulationEvent.activity event)
                      ++ [wait])%list]> waiting,
                 lastEnd)
      | start, None => inr (waiting, lastEnd)
      | complete, _ =>
          inr (waiting,
               <[SimulationEvent.caseId event := SimulationEvent.timestamp event]>
                 lastEnd)
      end
  end.

(** [calculateWaitingTimes(events)]: the array is sorted before the loop
    starts, so that it is sorted also when the loop throws. *)
Definition calculateWaitingTimes (events : list SimulationEvent.t)
    : (JsError.t + gmap string float) * list SimulationEvent.t :=
  let sorted := sortByTimestamp events in
  (match fold_left waitingStep sorted (inr (∅, ∅)) with
   | inl e => inl e
   | inr (waiting, _) =>
       inr ((fun times => (Js.sum times / Js.of_nat (length times))%float)
              <$> waiting)
   end,
   sorted).

(** [calculatePerformanceMetrics(events, resourceUtil, processStructure)]:
    the cases and their figures are computed first, from the array as it
    was handed over; then [calculateWaitingTimes] is called, and what it
    throws is thrown. *)
Definition calculatePerformanceMetrics (events : list SimulationEvent.t)
    (resourceUtil : gmap string ResourceUsage.t)
    (processStructure : ProcessStructure.t)
    : (JsError.t + PerformanceMetrics.t) * list SimulationEvent.t :=
  let cases := buildCases events in
  let completed := completedCases cases in
  let throughputTimes := map fst completed in
  let costs := map snd completed in
  let avgThroughput :=
    (Js.sum throughputTimes / Js.of_nat (length throughputTimes))%float in
  let avgCost := (Js.sum costs / Js.of_nat (length costs))%float in
  match calculateWaitingTimes events with
  | (inl e, events') => (inl e, events')
  | (inr waitingTimes, events') =>
      let totalSimTime :=
        (8 * 60 * Js.of_nat (length (JsObject.keys cases)) / 5)%float in
      let utilization :=
        map_imap (fun role data =>
          Some (utilizationOf (ProcessStructure.resources processStructure)
                  totalSimTime role data)) resourceUtil in
      (inr (PerformanceMetrics.mk
              (ThroughputMetrics.mk avgThroughput (Js.Math_min throughputTimes)
                 (Js.Math_max throughputTimes) (median throughputTimes))
              (CostMetrics.mk avgCost (Js.sum costs))
              waitingTimes utilization (length (JsObject.keys cases))),
       events')
  end.

End Call.

(** ** Definitions used by the statements *)

Local Open Scope nat_scope.

(** The state carried by a completion. *)
Definition stateOf {A : Type} (c : Completion A) : A :=
  match c with
  | Normal a => a
  | Throw _ a => a
  end.

(** The events of a run, when it ended. *)
Definition eventsOf (r : option (Completion Run.t)) : option (list SimulationEvent.t) :=
  match r with
  | Some c => Some (Run.events (stateOf c))
  | None => None
  end.

(** *** Termination *)

(** The activities of the list whose id has not been visited yet. *)
Definition pending (activities : list ProcessActivity.t) (visited : gset string) : nat :=
  length (List.filter
            (fun a => negb (bool_decide (ProcessActivity.id a ∈ visited)))
            activities).

(** The quantity that every turn of the loop of [simulateCase] decreases. *)
Definition work (activities : list ProcessActivity.t) (flows : list ProcessFlow.t)
    (st : CaseState.t) : nat :=
  pending activities (CaseState.visited st) * S (length flows)
  + length (CaseState.queue st).

(** *** Start events *)

(** [e] is a start event of activity [activityId] in case [caseId]. *)
Definition isStartOf (caseId : Z) (activityId : string) (e : SimulationEvent.t) : bool :=
  EventKind_eqb (SimulationEvent.event e) start
  && (SimulationEvent.caseId e =? caseId)%Z
  && String.eqb (SimulationEvent.activityId e) activityId.

(** The number of start events of an activity in a case. *)
Definition startCount (caseId : Z) (activityId : string)
    (events : list SimulationEvent.t) : nat :=
  length (List.filter (isStartOf caseId activityId) events).

(** What one case may assume and must keep: no activity has two start events
    in the case, one that has a start event is marked visited, and the events
    of the other cases stay as they are. *)
Definition caseInv (caseId : Z) (events0 : list SimulationEvent.t)
    (st : CaseState.t) : Prop :=
  (forall a, startCount caseId a (CaseState.events st) ≤ 1) /\
  (forall a, a ∉ CaseState.visited st ->
     startCount caseId a (CaseState.events st) = 0) /\
  (forall c a, c <> caseId ->
     startCount c a (CaseState.events st) = startCount c a events0).

(** *** Conditions of flows *)

(** Two flows that are equal except, possibly, for their condition. *)
Definition sameButCondition (f g : ProcessFlow.t) : Prop :=
  ProcessFlow.from f = ProcessFlow.from g /\
  ProcessFlow.to f = ProcessFlow.to g /\
  ProcessFlow.probability f = ProcessFlow.probability g.

(** Two flows that are equal except for the text of their condition: both
    have one, or neither has ([null] and the empty string count as none). *)
Definition sameGate (f g : ProcessFlow.t) : Prop :=
  sameButCondition f g /\
  Js.truthy_str (ProcessFlow.condition f) = Js.truthy_str (ProcessFlow.condition g).

(** Two process structures that are equal except for the conditions of their
    flows. *)
Definition sameButConditions (p q : ProcessStructure.t) : Prop :=
  ProcessStructure.processName p = ProcessStructure.processName q /\
  ProcessStructure.activities p = ProcessStructure.activities q /\
  ProcessStructure.resources p = ProcessStructure.resources q /\
  Forall2 sameButCondition (ProcessStructure.flows p) (ProcessStructure.flows q).

(** The same, with conditions at the same flows. *)
Definition sameGates (p q : ProcessStructure.t) : Prop :=
  ProcessStructure.processName p = ProcessStructure.processName q /\
  ProcessStructure.activities p = ProcessStructure.activities q /\
  ProcessStructure.resources p = ProcessStructure.resources q /\
  Forall2 sameGate (ProcessStructure.flows p) (ProcessStructure.flows q).

(** The flows of the list that have a condition. *)
Definition gated (nextFlows : list ProcessFlow.t) : list ProcessFlow.t :=
  List.filter (fun f => Js.truthy_str (ProcessFlow.condition f)) nextFlows.

(** The probability of every flow with a condition is a number other than
    zero. *)
Definition properChances (flows : list ProcessFlow.t) : bool :=
  forallb (fun f => Js.truthy (ProcessFlow.probability f)) (gated flows).

(** The flows of [nextFlows] that are followed, in the words of the
    specification once its claim on conditions is corrected: a flow without
    a condition always, and without a draw;
    a flow with a condition when the draw made for it is below its
    probability.  [n] is the number of draws made before. *)
Fixpoint followed (random : nat -> float) (nextFlows : list ProcessFlow.t)
    (n : nat) : list ProcessFlow.t :=
  match nextFlows with
  | [] => []
  | flow :: rest =>
      if Js.truthy_str (ProcessFlow.condition flow)
      then
        (if (random n <? ProcessFlow.probability flow)%float then [flow] else [])
        ++ followed random rest (S n)
      else flow :: followed random rest n
  end.

(** *** Utilization *)

(** The sampled durations of the completed activities of a performer, in the
    order of the log. *)
Definition busyMinutes (role : string) (events : list SimulationEvent.t) : list float :=
  flat_map (fun e =>
    match SimulationEvent.event e, SimulationEvent.duration e with
    | complete, Some d =>
        if String.eqb (SimulationEvent.resource e) role then [d] else []
    | _, _ => []
    end) events.

(** The roles of the declared resources. *)
Definition declaredRoles (processStructure : ProcessStructure.t) : gset string :=
  list_to_set (map ProcessResource.role (ProcessStructure.resources processStructure)).

(** What a run keeps true of [resourceUtilization]: its keys are the roles
    in [roles], and each total is the sum of the busy minutes of that role. *)
Definition usageInv (roles : gset string) (events : list SimulationEvent.t)
    (resourceUtil : gmap string ResourceUsage.t) : Prop :=
  dom resourceUtil = roles /\
  forall role u, resourceUtil !! role = Some u ->
    ResourceUsage.total u = Js.sum (busyMinutes role events).

(** *** Completed cases *)

(** Some event of the case has this phase. *)
Definition hasEvent (kind : EventKind) (caseId : Z)
    (events : list SimulationEvent.t) : bool :=
  existsb (fun e =>
    EventKind_eqb (SimulationEvent.event e) kind
    && (SimulationEvent.caseId e =? caseId)%Z) events.

(** The completed-case count in the words of the specification: the number
    of distinct case ids that have both a start and an end, that is at
    least one start event and at least one complete event. *)
Definition completedCaseCount (events : list SimulationEvent.t) : nat :=
  size (list_to_set
          (List.filter
             (fun c => hasEvent start c events && hasEvent complete c events)
             (map SimulationEvent.caseId events)) : gset Z).

(** The number of distinct case ids of the log. *)
Definition caseCount (events : list SimulationEvent.t) : nat :=
  size (list_to_set (map SimulationEvent.caseId events) : gset Z).

(** *** Random draws and the clock *)

(** A result of [Math.random()]: a number in [0, 1). *)
Definition unitInterval (r : float) : bool := (0 <=? r)%float && (r <? 1)%float.

(** The time value of [new Date(2024, 0, 1, 8, 0, 0)] on a host whose local
    time is [offset] minutes ahead of UTC. *)
Definition localStart (offset : Z) : float :=
  Js.of_Z (1704096000000 - offset * 60000).

(** The clock arithmetic of a case that runs for 10 and then 5 minutes from
    [t0]: the three instants are time values, and the case lasts a quarter
    of an hour. *)
Definition clockCheck (t0 : float) : bool :=
  PrimFloat.Leibniz.eqb (Js.TimeClip t0) t0
  && PrimFloat.Leibniz.eqb (Js.TimeClip (t0 + 600000)) (t0 + 600000)%float
  && PrimFloat.Leibniz.eqb (Js.TimeClip (t0 + 600000 + 300000)) (t0 + 900000)%float
  && PrimFloat.Leibniz.eqb ((t0 + 900000 - t0) / (1000 * 60 * 60))%float 0.25%float.

(** The offsets of up to one day, in minutes. *)
Definition offsets : list Z := map (fun k => (Z.of_nat k - 1440)%Z) (seq 0 2881).

(** *** Sample data *)

(** A stream whose draws are all one half, and the time value of
    2024-01-01 08:00 in UTC. *)
Definition halves (n : nat) : float := 0.5.
Definition utcStart : float := 1704096000000.

Definition baseline : Scenario.t := Scenario.mk "Baseline" None None.

(** A small process: [Review] followed by [Pay] over one flow of probability
    one quarter, with or without a condition. *)
Definition reviewActivity : ProcessActivity.t :=
  ProcessActivity.mk "A" "Review" task "clerk"
    (ActivityDuration.mk 10 10 "minutes") 5 1 1.

Definition payActivity : ProcessActivity.t :=
  ProcessActivity.mk "B" "Pay" task "cashier"
    (ActivityDuration.mk 5 5 "minutes") 3 1 1.

Definition reviewThenPay (condition : option string)
    (resources : list ProcessResource.t) : ProcessStructure.t :=
  ProcessStructure.mk "Claims" [reviewActivity; payActivity]
    [ProcessFlow.mk "A" "B" condition 0.25] resources.

Definition clerk : ProcessResource.t := ProcessResource.mk "clerk" 1 20.

(** A role that performs no activity. *)
Definition manager : ProcessResource.t := ProcessResource.mk "manager" 2 50.

(** A role that performs no activity and has no capacity. *)
Definition auditor : ProcessResource.t := ProcessResource.mk "auditor" 0 30.

(** The same two activities in a cycle, with a second flow into [Pay] and a
    flow to an activity that does not exist. *)
Definition reviewPayCycle : ProcessStructure.t :=
  ProcessStructure.mk "Cycle" [reviewActivity; payActivity]
    [ProcessFlow.mk "A" "B" None 1; ProcessFlow.mk "A" "B" None 1;
     ProcessFlow.mk "B" "A" None 1; ProcessFlow.mk "B" "missing" None 1]
    [clerk].

(** A process without activities. *)
Definition emptyProcess : ProcessStructure.t := ProcessStructure.mk "Empty" [] [] [].

(** A log that holds one event: case 1 started [Review] and never
    completed it. *)
Definition startedOnly : list SimulationEvent.t :=
  [SimulationEvent.mk 1 "Review" "A" start utcStart "clerk" 0 None].

(** An override that sets the cost and the resource units of [Review] to
    zero, and the modifications that hold it. *)
Definition freeReview : ScenarioModification.t :=
  ScenarioModification.mk "A" None (Some 0%float) (Some 0%float).

Definition automation : Modifications.t := Modifications.mk (Some [freeReview]) None.

(** The process of the scenario example: [A1] (10 minutes, cost 5) followed
    by [A2] (5 minutes, cost 3) over one flow of probability 1. *)
Definition exampleA1 (name : string) (type : ActivityType) (performer unit : string)
    (resources probability : float) : ProcessActivity.t :=
  ProcessActivity.mk "A1" name type performer (ActivityDuration.mk 10 10 unit) 5
    resources probability.

Definition exampleA2 (name : string) (type : ActivityType) (performer unit : string)
    (resources probability : float) : ProcessActivity.t :=
  ProcessActivity.mk "A2" name type performer (ActivityDuration.mk 5 5 unit) 3
    resources probability.

Definition exampleFlow (condition : option string) : ProcessFlow.t :=
  ProcessFlow.mk "A1" "A2" condition 1.

(** ** Retry and provider dispatch (the AI provider part of agent3.ts) *)

Definition MAX_RETRIES : Z := 5.
Definition RETRY_DELAY_MS : float := 1000.

(** A value that was thrown: an [Error] object, or any other value, given by
    its [String(value)]. *)
Inductive Thrown :=
| ThrownError (e : JsError.t)
| ThrownValue (text : string).

(** [error instanceof Error ? error : new Error(String(error))]. *)
Definition asError (t : Thrown) : JsError.t :=
  match t with
  | ThrownError e => e
  | ThrownValue text => JsError.mk "Error" text
  end.

(** How one call of an asynchronous function ends. *)
Inductive Attempt (T : Type) : Type :=
| Resolved (v : T)
| Rejected (t : Thrown).
Arguments Resolved {T} v.
Arguments Rejected {T} t.

(** How [withRetry] ends: it returns a value, or throws [lastError], which
    is an [Error] or still [null] ([None]). *)
Inductive RetryOutcome (T : Type) : Type :=
| Returned (v : T)
| Threw (lastError : option JsError.t).
Arguments Returned {T} v.
Arguments Threw {T} lastError.

(** What a call of [withRetry] did: its outcome, the number of calls of
    [fn], and the delays it slept, in order. *)
Module Retry.
Record t (T : Type) := mk {
  outcome : RetryOutcome T;
  calls : nat;
  sleeps : list float
}.
Arguments mk {T} outcome calls sleeps.
Arguments outcome {T} t.
Arguments calls {T} t.
Arguments sleeps {T} t.
End Retry.

(** [Math.pow(2, n)] for a natural number [n]: the power of two, which
    doubling computes exactly (with [Infinity] from [2^1024] on). *)
Fixpoint pow2 (n : nat) : float :=
  match n with
  | O => 1%float
  | S k => (2 * pow2 k)%float
  end.

(** [RETRY_DELAY_MS * Math.pow(2, attempt - 1)]. *)
Definition retryDelay (attempt : Z) : float :=
  (RETRY_DELAY_MS * pow2 (Z.to_nat (attempt - 1)))%float.

(** The [for (let attempt = 1; attempt <= maxRetries; attempt++)] loop of
    [withRetry] with [turns] turns left; [fn k] is how the call number [k]
    (from 0) of the callback ends. *)
Fixpoint retryLoop {T : Type} (fn : nat -> Attempt T) (maxRetries : Z)
    (turns : nat) (attempt : Z) (lastError : option JsError.t)
    (calls : nat) (sleeps : list float) : Retry.t T :=
  match turns with
  | O => Retry.mk (Threw lastError) calls sleeps
  | S turns' =>
      match fn calls with
      | Resolved v => Retry.mk (Returned v) (S calls) sleeps
      | Rejected t =>
          let lastError := Some (asError t) in
          if (attempt <? maxRetries)%Z
          then retryLoop fn maxRetries turns' (attempt + 1) lastError (S calls)
                 (sleeps ++ [retryDelay attempt])
          else retryLoop fn maxRetries turns' (attempt + 1) lastError (S calls)
                 sleeps
      end
  end.

(** [withRetry(fn, context, maxRetries)]; the context only appears in the
    console messages, which are not modelled. *)
Definition withRetry {T : Type} (fn : nat -> Attempt T) (maxRetries : Z) : Retry.t T :=
  retryLoop fn maxRetries (Z.to_nat maxRetries) 1 None 0 [].

(** [AIProviderConfig]; the model is whatever string the header held. *)
Module AIProviderConfig.
Record t := mk { model : string; apiKey : string }.
End AIProviderConfig.

(** [a || b] on strings: the empty string is falsy. *)
Definition or_str (a b : string) : string := if String.eqb a "" then b else a.

Inductive Provider := Gemini | OpenAI | Claude.

Section Providers.

(** [process.env.GOOGLE_API_KEY || '...']: the key used for Gemini when the
    request brings none. *)
Variable DEFAULT_GEMINI_KEY : string.

(** The generation options; the providers alone look into them. *)
Variable GenerationOptions : Type.

(** The providers: how the call number [k] of [generateWith...](apiKey,
    prompt, options) within one [generateContent] ends. *)
Variable provider :
  Provider -> string -> string -> GenerationOptions -> nat -> Attempt string.

(** The callback that [generateContent] hands to [withRetry]. *)
Definition dispatch (config : AIProviderConfig.t) (prompt : string)
    (options : GenerationOptions) (k : nat) : Attempt string :=
  if String.eqb (AIProviderConfig.model config) "gemini" then
    provider Gemini (or_str (AIProviderConfig.apiKey config) DEFAULT_GEMINI_KEY)
      prompt options k
  else if String.eqb (AIProviderConfig.model config) "openai" then
    provider OpenAI (AIProviderConfig.apiKey config) prompt options k
  else if String.eqb (AIProviderConfig.model config) "claude" then
    provider Claude (AIProviderConfig.apiKey config) prompt options k
  else
    Rejected (ThrownError
                (JsError.mk "Error"
                   ("Unsupported AI model: " ++ AIProviderConfig.model config)%string)).

(** [generateContent(config, prompt, options)]. *)
Definition generateContent (config : AIProviderConfig.t) (prompt : string)
    (options : GenerationOptions) : Retry.t string :=
  withRetry (dispatch config prompt options) MAX_RETRIES.

End Providers.

(** ** Percentages (performTradeoffAnalysis) *)

(** The number nearest to an integer (round to nearest, ties to even). *)
Definition number_of_Z (z : Z) : float :=
  SF2Prim (binary_normalize prec emax z 0 false).

(** [\d]: an ASCII digit. *)
Definition isDigit (c : Ascii.ascii) : bool :=
  (48 <=? Ascii.nat_of_ascii c)%nat && (Ascii.nat_of_ascii c <=? 57)%nat.

(** The character [-] (code 45). *)
Definition isMinus (c : Ascii.ascii) : bool :=
  (Ascii.nat_of_ascii c =? 45)%nat.

(** The longest prefix of digits ([\d+] is greedy). *)
Fixpoint takeDigits (s : string) : string :=
  match s with
  | String c rest => if isDigit c then String c (takeDigits rest) else EmptyString
  | EmptyString => EmptyString
  end.

Definition startsWithDigit (s : string) : bool :=
  match s with
  | String c _ => isDigit c
  | EmptyString => false
  end.

(** [percentStr.match(/-?\d+/)]: the leftmost match, as its sign and its
    digits; [None] when the string has no digit.  A position matches when it
    holds a digit, or a minus sign followed by a digit. *)
Fixpoint firstInteger (s : string) : option (bool * string) :=
  match s with
  | EmptyString => None
  | String c rest =>
      if isDigit c then Some (false, takeDigits s)
      else if isMinus c && startsWithDigit rest then Some (true, takeDigits rest)
      else firstInteger rest
  end.

(** The integer that a string of digits denotes. *)
Fixpoint digitsValue (acc : Z) (digits : string) : Z :=
  match digits with
  | EmptyString => acc
  | String c rest =>
      digitsValue (acc * 10 + (Z.of_nat (Ascii.nat_of_ascii c) - 48)) rest
  end.

(** [parseInt(match[0])] for a match of [-?\d+] (exact up to 20 digits, as
    the language requires). *)
Definition parseIntOf (negative : bool) (digits : string) : float :=
  let n := number_of_Z (digitsValue 0 digits) in
  if negative then (- n)%float else n.

(** [parsePercentage(percentStr, baseValue)]. *)
Definition parsePercentage (percentStr : string) (baseValue : float) : float :=
  match firstInteger percentStr with
  | None => baseValue
  | Some (negative, digits) =>
      let percent := parseIntOf negative digits in
      (baseValue * (1 + percent / 100))%float
  end.

(** ** The exported simulation entry point *)

Module SimulationResult.
Record t := mk {
  scenario : string;
  metrics : PerformanceMetrics.t;
  events : list SimulationEvent.t
}.
End SimulationResult.

(** The exported function [simulateProcess(processStructure, scenarios,
    numInstances)]: its [simulationResults] and the draws consumed (the
    [decision] and [explanation] texts are not modelled).  What a
    simulation or the metrics of a scenario throw is thrown, and the
    results gathered so far are lost with it. *)
Module Api.

(** The [for (const scenario of scenarios)] loop. *)
Fixpoint scenarioLoop (random : nat -> float) (caseStart : float)
    (processStructure : ProcessStructure.t) (scenarios : list Scenario.t)
    (numInstances : Z) (simulationResults : list SimulationResult.t)
    (draws : nat) : option (Completion (list SimulationResult.t * nat)) :=
  match scenarios with
  | [] => Some (Normal (simulationResults, draws))
  | scenario :: rest =>
      match simulateProcess random caseStart processStructure scenario
              numInstances draws with
      | None => None
      | Some (Throw e run) => Some (Throw e (simulationResults, Run.draws run))
      | Some (Normal run) =>
          match fst (Call.calculatePerformanceMetrics (Run.events run)
                       (Run.resourceUtilization run) processStructure) with
          | inl e => Some (Throw e (simulationResults, Run.draws run))
          | inr metrics =>
              scenarioLoop random caseStart processStructure rest numInstances
                (simulationResults
                 ++ [SimulationResult.mk (Scenario.scenarioName scenario)
                       metrics []])
                (Run.draws run)
          end
      end
  end.

Definition simulateProcess (random : nat -> float) (caseStart : float)
    (processStructure : ProcessStructure.t) (scenarios : list Scenario.t)
    (numInstances : Z) (draws : nat)
    : option (Completion (list SimulationResult.t * nat)) :=
  scenarioLoop random caseStart processStructure scenarios numInstances [] draws.

End Api.

(** ** More definitions used by the statements *)

(** *** Executions *)

(** One execution of an activity in a case: the activity found for the
    queue item, the arrival time of the item and the sampled duration. *)
Module Execution.
Record t := mk {
  caseId : Z;
  activity : ProcessActivity.t;
  time : float;
  duration : float
}.
End Execution.

(** The two events that [simulateCase] pushes for an execution. *)
Definition startEventOf (x : Execution.t) : SimulationEvent.t :=
  SimulationEvent.mk (Execution.caseId x)
    (ProcessActivity.name (Execution.activity x))
    (ProcessActivity.id (Execution.activity x)) start
    (Js.new_Date (Execution.time x))
    (ProcessActivity.performer (Execution.activity x)) 0%float None.

Definition completeEventOf (x : Execution.t) : SimulationEvent.t :=
  SimulationEvent.mk (Execution.caseId x)
    (ProcessActivity.name (Execution.activity x))
    (ProcessActivity.id (Execution.activity x)) complete
    (Js.new_Date (Execution.time x + Execution.duration x * 60000)%float)
    (ProcessActivity.performer (Execution.activity x))
    (Js.or_num (ProcessActivity.cost (Execution.activity x)) 0%float)
    (Some (Execution.duration x)).

Definition eventsOfExecution (x : Execution.t) : list SimulationEvent.t :=
  [startEventOf x; completeEventOf x].

(** The log of a sequence of executions. *)
Definition logOf (xs : list Execution.t) : list SimulationEvent.t :=
  flat_map eventsOfExecution xs.

(** The flow has a condition, so that following it takes a draw. *)
Definition conditional (f : ProcessFlow.t) : bool :=
  Js.truthy_str (ProcessFlow.condition f).

(** The draws that an execution consumes: one for the duration and one for
    each outgoing flow that has a condition. *)
Definition drawsOfExecution (flows : list ProcessFlow.t) (x : Execution.t) : nat :=
  S (length (List.filter conditional
               (outgoing flows (ProcessActivity.id (Execution.activity x))))).

Definition drawsOf (flows : list ProcessFlow.t) (xs : list Execution.t) : nat :=
  list_sum (map (drawsOfExecution flows) xs).

(** An execution of case [caseId] as the loop makes them: of an activity of
    the list, with a duration sampled from its range by some draw. *)
Definition executionOf (random : nat -> float) (caseId : Z)
    (activities : list ProcessActivity.t) (x : Execution.t) : Prop :=
  Execution.caseId x = caseId /\
  In (Execution.activity x) activities /\
  exists n,
    Execution.duration x
    = fst (randomBetween random
             (ActivityDuration.min (ProcessActivity.duration (Execution.activity x)))
             (ActivityDuration.max (ProcessActivity.duration (Execution.activity x)))
             n).

(** The queue item of a flow that is followed at [endTime]. *)
Definition itemOf (endTime : float) (f : ProcessFlow.t) : string * float :=
  (ProcessFlow.to f, endTime).

(** The id of the activity of an execution. *)
Definition executedId (x : Execution.t) : string :=
  ProcessActivity.id (Execution.activity x).

(** The activity ids that can be reached from [firstId] along flows. *)
Inductive reachable (flows : list ProcessFlow.t) (firstId : string) : string -> Prop :=
| reachable_first : reachable flows firstId firstId
| reachable_step f :
    reachable flows firstId (ProcessFlow.from f) ->
    In f flows ->
    reachable flows firstId (ProcessFlow.to f).

(** What holds of the executions [xs] of one case, where [sure] picks flows
    that are followed whatever the draw: they are executions of the case,
    of distinct activities, the first one is the first activity of the list
    at the start time, every one is reachable from it, and the target of a
    sure flow that leaves an executed activity is executed too, if there is
    such an activity. *)
Definition caseTrace (random : nat -> float) (sure : ProcessFlow.t -> bool)
    (activities : list ProcessActivity.t) (flows : list ProcessFlow.t)
    (startTime : float) (first : ProcessActivity.t) (caseId : Z)
    (xs : list Execution.t) : Prop :=
  Forall (executionOf random caseId activities) xs /\
  NoDup (map executedId xs) /\
  (exists x rest,
     xs = x :: rest /\ Execution.activity x = first /\ Execution.time x = startTime) /\
  (forall a, In a (map executedId xs) -> reachable flows (ProcessActivity.id first) a) /\
  (forall f, In f flows -> sure f = true ->
     In (ProcessFlow.from f) (map executedId xs) ->
     findActivity activities (ProcessFlow.to f) <> None ->
     In (ProcessFlow.to f) (map executedId xs)).

(** What the loop of a case keeps true, from the state it starts in. *)
Definition traceInv (random : nat -> float) (sure : ProcessFlow.t -> bool)
    (activities : list ProcessActivity.t) (flows : list ProcessFlow.t)
    (startTime : float) (first : ProcessActivity.t) (caseId : Z)
    (events0 : list SimulationEvent.t) (draws0 : nat) (st : CaseState.t) : Prop :=
  exists xs,
    CaseState.events st = events0 ++ logOf xs /\
    Forall (executionOf random caseId activities) xs /\
    (forall a, a ∈ CaseState.visited st <-> In a (map executedId xs)) /\
    NoDup (map executedId xs) /\
    CaseState.draws st = draws0 + drawsOf flows xs /\
    match xs with
    | [] => CaseState.queue st = [(ProcessActivity.id first, startTime)]
    | x :: _ => Execution.activity x = first /\ Execution.time x = startTime
    end /\
    (forall a, In a (map executedId xs) ->
       reachable flows (ProcessActivity.id first) a) /\
    (forall a t, In (a, t) (CaseState.queue st) ->
       reachable flows (ProcessActivity.id first) a) /\
    (forall f, In f flows -> sure f = true ->
       In (ProcessFlow.from f) (map executedId xs) ->
       In (ProcessFlow.to f) (map executedId xs)
       \/ (exists t, In (ProcessFlow.to f, t) (CaseState.queue st))
       \/ findActivity activities (ProcessFlow.to f) = None).

(** [e] is a complete event of activity [activityId] in case [caseId]. *)
Definition isCompleteOf (caseId : Z) (activityId : string) (e : SimulationEvent.t) : bool :=
  EventKind_eqb (SimulationEvent.event e) complete
  && (SimulationEvent.caseId e =? caseId)%Z
  && String.eqb (SimulationEvent.activityId e) activityId.

(** The number of complete events of an activity in a case. *)
Definition completeCount (caseId : Z) (activityId : string)
    (events : list SimulationEvent.t) : nat :=
  length (List.filter (isCompleteOf caseId activityId) events).


(** A flow that is followed whatever the draw in [0, 1): it has no condition,
    or [flow.probability || 1.0] is 1 (the probability is 1, or it is falsy:
    0 or NaN). *)
Definition certain (f : ProcessFlow.t) : bool :=
  negb (conditional f)
  || PrimFloat.Leibniz.eqb (Js.or_num (ProcessFlow.probability f) 1) 1.

(** The activities that a scenario gives to the simulation. *)
Definition scenarioActivities (processStructure : ProcessStructure.t)
    (scenario : Scenario.t) : list ProcessActivity.t :=
  applyScenarioModifications (ProcessStructure.activities processStructure)
    (Scenario.modifications scenario).

(** A finite number other than -0. *)
Definition plainNumber (d : float) : bool :=
  match Prim2SF d with
  | S754_finite _ _ _ => true
  | S754_zero s => negb s
  | _ => false
  end.

(** *** Figures of a case *)

(** The events of a case that have this phase, in the order of the log. *)
Definition caseEvents (kind : EventKind) (caseId : Z)
    (events : list SimulationEvent.t) : list SimulationEvent.t :=
  List.filter (fun e =>
    EventKind_eqb (SimulationEvent.event e) kind
    && (SimulationEvent.caseId e =? caseId)%Z) events.

(** The time of the first start event of the case, if it has one. *)
Definition firstStart (caseId : Z) (events : list SimulationEvent.t) : option float :=
  head (map SimulationEvent.timestamp (caseEvents start caseId events)).

(** The time of the last complete event of the case, if it has one. *)
Definition lastComplete (caseId : Z) (events : list SimulationEvent.t) : option float :=
  last (map SimulationEvent.timestamp (caseEvents complete caseId events)).

(** The costs of the complete events of the case, added up in the order of
    the log. *)
Definition caseCost (caseId : Z) (events : list SimulationEvent.t) : float :=
  Js.sum (map SimulationEvent.cost (caseEvents complete caseId events)).

(** The throughput time in hours and the cost of the case, if it has a start
    event and a complete event; nothing otherwise. *)
Definition caseFigures (events : list SimulationEvent.t) (caseId : Z)
    : list (float * float) :=
  match firstStart caseId events, lastComplete caseId events with
  | Some s, Some e => [(((e - s) / (1000 * 60 * 60))%float, caseCost caseId events)]
  | _, _ => []
  end.

(** The entry of [cases] for the case, read off the log. *)
Definition recordOf (caseId : Z) (events : list SimulationEvent.t) : CaseRecord.t :=
  CaseRecord.mk (firstStart caseId events) (lastComplete caseId events)
    (caseCost caseId events)
    (map (fun e => (SimulationEvent.activity e, SimulationEvent.duration e))
       (caseEvents complete caseId events)).

(** *** Plain names *)

(** No event of the log is of an activity whose name a plain object
    inherits from [Object.prototype]. *)
Definition plainLog (events : list SimulationEvent.t) : bool :=
  forallb (fun e => negb (Js.inherited (SimulationEvent.activity e))) events.

(** The names of the process are plain: no activity has a name that a plain
    object inherits from [Object.prototype], so that [push] succeeds for
    every activity; and no role is called [__proto__], so that
    [resourceUtilization] keeps the prototype of a plain object. *)
Definition plainNames (processStructure : ProcessStructure.t) : bool :=
  forallb (fun a => negb (Js.inherited (ProcessActivity.name a)))
    (ProcessStructure.activities processStructure)
  && forallb (fun r => negb (String.eqb (ProcessResource.role r) "__proto__"))
       (ProcessStructure.resources processStructure).

(** *** Waits *)

(** The waits of the activity [name], read off a log in its order: for each
    start event of the activity whose case has completed something before,
    the minutes since the last complete event of the case.  [prefix] holds
    the events that precede [events]. *)
Fixpoint waitsOf (name : string) (prefix events : list SimulationEvent.t)
    : list float :=
  match events with
  | [] => []
  | e :: rest =>
      match SimulationEvent.event e,
            lastComplete (SimulationEvent.caseId e) prefix with
      | start, Some last =>
          if String.eqb (SimulationEvent.activity e) name
          then [((SimulationEvent.timestamp e - last) / (1000 * 60))%float]
          else []
      | _, _ => []
      end ++ waitsOf name (prefix ++ [e]) rest
  end.

(** The average of the waits, if there is one. *)
Definition averageWait (waits : list float) : option float :=
  match waits with
  | [] => None
  | _ :: _ => Some (Js.sum waits / Js.of_nat (length waits))%float
  end.

(** *** Scenarios *)

(** The activity overrides of a scenario: those of
    [scenario.modifications.activities], none if a part is absent. *)
Definition overrides (scenario : Scenario.t) : list ScenarioModification.t :=
  match Scenario.modifications scenario with
  | Some mods => default [] (Modifications.activities mods)
  | None => []
  end.

(** What a modification may change in an activity: its duration, cost and
    resource count. *)
Definition sameButOverridden (a b : ProcessActivity.t) : Prop :=
  ProcessActivity.id b = ProcessActivity.id a /\
  ProcessActivity.name b = ProcessActivity.name a /\
  ProcessActivity.type b = ProcessActivity.type a /\
  ProcessActivity.performer b = ProcessActivity.performer a /\
  ProcessActivity.probability b = ProcessActivity.probability a.

(** The id of the modification is the id of one of the activities. *)
Definition knownId (activities : list ProcessActivity.t)
    (m : ScenarioModification.t) : bool :=
  existsb (fun a => String.eqb (ScenarioModification.id m) (ProcessActivity.id a))
    activities.

(** *** Order of the log *)

(** The comparator of [calculateWaitingTimes] puts [a] after [b]:
    [a.timestamp - b.timestamp > 0]. *)
Definition laterThan (a b : SimulationEvent.t) : bool :=
  (0 <? SimulationEvent.timestamp a - SimulationEvent.timestamp b)%float.

(** No event of the log is later than one that follows it. *)
Definition timeOrdered (events : list SimulationEvent.t) : Prop :=
  ForallOrdPairs (fun a b => laterThan a b = false) events.

(** *** Strings with a number *)

(** Every character of the string satisfies [p]. *)
Fixpoint allChars (p : Ascii.ascii -> bool) (s : string) : bool :=
  match s with
  | EmptyString => true
  | String c rest => p c && allChars p rest
  end.

(** The last character of the string is a minus sign. *)
Fixpoint endsWithMinus (s : string) : bool :=
  match s with
  | EmptyString => false
  | String c EmptyString => isMinus c
  | String _ rest => endsWithMinus rest
  end.

(** *** More sample data *)


(** A scenario that only adds a manager, and one that makes the review
    free. *)
Definition moreStaff : Scenario.t :=
  Scenario.mk "More staff" (Some "A second manager")
    (Some (Modifications.mk None (Some [manager]))).

Definition automated : Scenario.t :=
  Scenario.mk "Automation" None (Some automation).

(** The log of a case in which [Review] took ten minutes and [Pay] started
    five minutes after it had ended. *)
Definition reviewedThenPaid : list SimulationEvent.t :=
  [SimulationEvent.mk 1 "Review" "A" start utcStart "clerk" 0 None;
   SimulationEvent.mk 1 "Review" "A" complete (utcStart + 600000) "clerk" 5
     (Some 10%float);
   SimulationEvent.mk 1 "Pay" "B" start (utcStart + 900000) "cashier" 0 None].

(** [Review] followed by an activity whose name is the name of a method of
    every object. *)
Definition reviewThenToString : ProcessStructure.t :=
  ProcessStructure.mk "Claims"
    [reviewActivity;
     ProcessActivity.mk "B" "toString" task "cashier"
       (ActivityDuration.mk 5 5 "minutes") 3 1 1]
    [ProcessFlow.mk "A" "B" None 1] [clerk].

(** A call that fails twice and then resolves, and one that always fails. *)
Definition flaky (k : nat) : Attempt string :=
  if k <? 2 then Rejected (ThrownValue "timeout") else Resolved "ok".

Definition failing (k : nat) : Attempt string := Rejected (ThrownValue "503").

(** A provider that answers at once. *)
Definition echo (p : Provider) (apiKey prompt : string) (options : unit) (k : nat)
    : Attempt string :=
  Resolved prompt.

(** * Properties *)

(** ** Numbers *)

Example trunc_samples :
  Js.trunc 2.5 = 2%float /\ Js.trunc (-2.5) = (-2)%float /\
  Js.trunc 0.75 = 0%float /\ Js.trunc 1704096000000.5 = 1704096000000%float /\
  Js.trunc 9007199254740992 = 9007199254740992%float.
Proof. repeat split. Qed.

Example TimeClip_samples :
  Js.TimeClip 1704096000000.5 = 1704096000000%float /\
  Js.TimeClip (-0.5) = 0%float /\
  Js.TimeClip 8640000000000000 = 8640000000000000%float /\
  Js.TimeClip 8640000000000001 = PrimFloat.nan /\
  Js.TimeClip PrimFloat.infinity = PrimFloat.nan /\
  Js.TimeClip PrimFloat.nan = PrimFloat.nan.
Proof. repeat split. Qed.

Example Math_min_max_samples :
  Js.Math_min [3; 1; 2]%float = 1%float /\ Js.Math_max [3; 1; 2]%float = 3%float /\
  Js.Math_min [] = PrimFloat.infinity /\ Js.Math_max [] = PrimFloat.neg_infinity /\
  Js.Math_min [1; PrimFloat.nan]%float = PrimFloat.nan.
Proof. repeat split. Qed.

Example sort_is_stable :
  Js.sort (fun a b => (0 <? fst a - fst b)%float)
    [(2, "a"); (1, "b"); (2, "c"); (1, "d")]%float
  = [(1, "b"); (1, "d"); (2, "a"); (2, "c")]%float.
Proof. reflexivity. Qed.

Lemma float_eq_by_spec (x y : float) : Prim2SF x = Prim2SF y -> x = y.
Proof.
  intros H. rewrite <- (SF2Prim_Prim2SF x), <- (SF2Prim_Prim2SF y). now f_equal.
Qed.

(** Zero divided by a number that is neither zero nor NaN, as a percentage,
    is zero. *)
Lemma zero_share (x : float) :
  PrimFloat.is_nan x = false -> PrimFloat.is_zero x = false ->
  PrimFloat.is_zero (0 / x * 100)%float = true.
Proof.
  unfold PrimFloat.is_nan, PrimFloat.is_zero. rewrite negb_false_iff.
  rewrite !FloatAxioms.eqb_spec, FloatAxioms.mul_spec, FloatAxioms.div_spec.
  change (Prim2SF 0) with (S754_zero false).
  destruct (Prim2SF x) as [s|s| |s m e]; simpl; try discriminate; intros _ _;
    destruct s; reflexivity.
Qed.

(** The product of a draw and zero is a zero. *)
Lemma unit_draw_times_zero (r : float) :
  unitInterval r = true -> exists s, Prim2SF (r * 0)%float = S754_zero s.
Proof.
  unfold unitInterval.
  rewrite andb_true_iff, FloatAxioms.leb_spec, FloatAxioms.ltb_spec. intros [H0 H1].
  rewrite FloatAxioms.mul_spec.
  destruct (Prim2SF r) as [s|s| |s m e].
  - exists (xorb s false). reflexivity.
  - destruct s; discriminate.
  - discriminate.
  - exists (xorb s false). reflexivity.
Qed.

Lemma clockCheck_facts t0 :
  clockCheck t0 = true ->
  Js.TimeClip t0 = t0 /\
  Js.TimeClip (t0 + 600000) = (t0 + 600000)%float /\
  Js.TimeClip (t0 + 600000 + 300000) = (t0 + 900000)%float /\
  ((t0 + 900000 - t0) / (1000 * 60 * 60))%float = 0.25%float.
Proof.
  unfold clockCheck. rewrite !andb_true_iff, !FloatAxioms.Leibniz.eqb_spec. tauto.
Qed.

Lemma offsets_clock : forallb (fun o => clockCheck (localStart o)) offsets = true.
Proof. vm_compute. reflexivity. Qed.

(** On every host the start of the cases passes the clock check. *)
Lemma localStart_clock offset :
  (-1440 <= offset <= 1440)%Z -> clockCheck (localStart offset) = true.
Proof.
  intros H. apply (proj1 (forallb_forall _ _) offsets_clock).
  unfold offsets. apply in_map_iff. exists (Z.to_nat (offset + 1440)).
  split; [lia|apply in_seq; lia].
Qed.

(** ** Termination of the work list *)

Section Termination.
Variable random : nat -> float.

Lemma enqueueFlows_length nextFlows endTime queue n :
  length (fst (enqueueFlows random nextFlows endTime queue n))
  ≤ length queue + length nextFlows.
Proof.
  revert queue n.
  induction nextFlows as [|flow rest IH]; intros queue n; simpl; [lia|].
  destruct (negb _).
  - etransitivity; [apply IH|]. rewrite length_app. simpl. lia.
  - destruct (PrimFloat.ltb _ _).
    + etransitivity; [apply IH|]. rewrite length_app. simpl. lia.
    + etransitivity; [apply IH|]. lia.
Qed.

Lemma outgoing_length flows activityId :
  length (outgoing flows activityId) ≤ length flows.
Proof.
  unfold outgoing. induction flows as [|f flows IH]; simpl; [lia|].
  destruct (String.eqb _ _); simpl; lia.
Qed.

Lemma findActivity_Some activities activityId activity :
  findActivity activities activityId = Some activity ->
  In activity activities /\ ProcessActivity.id activity = activityId.
Proof.
  unfold findActivity. intros H. apply find_some in H as [Hin Heq].
  split; [exact Hin|]. now apply String.eqb_eq.
Qed.

Lemma pending_le activities visited a :
  pending activities ({[a]} ∪ visited) ≤ pending activities visited.
Proof.
  unfold pending. induction activities as [|x l IH]; simpl; [lia|].
  destruct (bool_decide (ProcessActivity.id x ∈ visited)) eqn:E1;
    destruct (bool_decide (ProcessActivity.id x ∈ {[a]} ∪ visited)) eqn:E2;
    simpl; try lia.
  apply bool_decide_eq_true in E1. apply bool_decide_eq_false in E2.
  exfalso. apply E2. set_solver.
Qed.

Lemma pending_visit activities visited activity :
  In activity activities ->
  ProcessActivity.id activity ∉ visited ->
  pending activities ({[ProcessActivity.id activity]} ∪ visited)
  < pending activities visited.
Proof.
  unfold pending. induction activities as [|x l IH]; simpl; [tauto|].
  intros [-> | Hin] Hnot.
  - rewrite (bool_decide_eq_false_2 _ Hnot).
    rewrite bool_decide_eq_true_2 by set_solver. simpl.
    pose proof (pending_le l visited (ProcessActivity.id activity)) as Hle.
    unfold pending in Hle. lia.
  - specialize (IH Hin Hnot).
    destruct (bool_decide (ProcessActivity.id x ∈ visited)) eqn:E1;
      destruct (bool_decide
                  (ProcessActivity.id x ∈ {[ProcessActivity.id activity]} ∪ visited))
        eqn:E2; simpl; try lia.
    apply bool_decide_eq_true in E1. apply bool_decide_eq_false in E2.
    exfalso. apply E2. set_solver.
Qed.

Lemma iteration_work caseId activities flows st :
  CaseState.queue st <> [] ->
  work activities flows (iteration random caseId activities flows st)
  < work activities flows st.
Proof.
  unfold iteration, work. destruct st as [queue visited events ru n]. simpl.
  destruct queue as [|[activityId time] queue]; [congruence|]. intros _.
  destruct (bool_decide (activityId ∈ visited)) eqn:Ev; [simpl; lia|].
  destruct (findActivity activities activityId) as [activity|] eqn:Ef; [|simpl; lia].
  apply bool_decide_eq_false in Ev.
  apply findActivity_Some in Ef as [Hin Hid]. subst activityId.
  unfold randomBetween.
  destruct (enqueueFlows _ _ _ _ _) as [queue' n2] eqn:Eq. simpl.
  pose proof (enqueueFlows_length
                (outgoing flows (ProcessActivity.id activity))
                (Js.new_Date
                   (time + (ActivityDuration.min (ProcessActivity.duration activity)
                            + random n * (ActivityDuration.max (ProcessActivity.duration activity)
                                          - ActivityDuration.min (ProcessActivity.duration activity)))
                           * 60000)%float)
                queue (S n)) as Hq.
  rewrite Eq in Hq. simpl in Hq.
  pose proof (outgoing_length flows (ProcessActivity.id activity)) as Ho.
  pose proof (pending_visit activities visited activity Hin Ev) as Hp.
  nia.
Qed.

Lemma whileQueue_enough caseId activities flows fuel st :
  work activities flows st ≤ fuel ->
  exists st', whileQueue random fuel caseId activities flows st = Some st'.
Proof.
  revert st. induction fuel as [|fuel IH]; intros st Hw.
  - destruct st as [queue visited events ru n]. unfold work in Hw. simpl in *.
    destruct queue; [eauto|simpl in Hw; lia].
  - simpl. destruct (CaseState.queue st) eqn:Eq; [eauto|].
    apply IH.
    assert (CaseState.queue st <> []) as Hne by (rewrite Eq; discriminate).
    pose proof (iteration_work caseId activities flows st Hne). lia.
Qed.

Lemma whileQueue_more caseId activities flows fuel fuel' st st' :
  whileQueue random fuel caseId activities flows st = Some st' ->
  fuel ≤ fuel' ->
  whileQueue random fuel' caseId activities flows st = Some st'.
Proof.
  revert fuel' st. induction fuel as [|fuel IH]; intros fuel' st H Hle.
  - simpl in H. destruct (CaseState.queue st) eqn:Eq; [|discriminate].
    destruct fuel'; simpl; rewrite Eq; exact H.
  - destruct fuel' as [|fuel']; [lia|]. simpl in *.
    destruct (CaseState.queue st); [exact H|]. apply IH; [exact H|lia].
Qed.

Lemma whileQueue_empty caseId activities flows fuel st st' :
  whileQueue random fuel caseId activities flows st = Some st' ->
  CaseState.queue st' = [].
Proof.
  revert st. induction fuel as [|fuel IH]; intros st H; simpl in H.
  - destruct (CaseState.queue st) eqn:Eq; [|discriminate]. congruence.
  - destruct (CaseState.queue st) eqn:Eq; [congruence|]. eapply IH, H.
Qed.

(** A property that every turn keeps holds when the loop ends. *)
Lemma whileQueue_invariant (P : CaseState.t -> Prop) caseId activities flows :
  (forall st, P st -> P (iteration random caseId activities flows st)) ->
  forall fuel st st',
    P st ->
    whileQueue random fuel caseId activities flows st = Some st' ->
    P st'.
Proof.
  intros Hstep fuel. induction fuel as [|fuel IH]; intros st st' HP H; simpl in H.
  - destruct (CaseState.queue st); [|discriminate]. congruence.
  - destruct (CaseState.queue st); [congruence|].
    eapply IH; [|exact H]. now apply Hstep.
Qed.

Lemma pending_bound activities visited : pending activities visited ≤ length activities.
Proof.
  unfold pending. induction activities; simpl; [lia|]. destruct (negb _); simpl; lia.
Qed.

(** C7.  For every non-empty activity list, every flow list (cyclic and
    dangling flows included), every random stream and every initial state of
    the objects handed to it, the loop of [simulateCase] ends: within
    [caseFuel activities flows] turns the queue is empty and the call
    returns, and more turns do not change the result.  The bound holds
    because a turn either drops an item, or visits an activity that was
    not visited before and pushes at most one item per flow. *)
Theorem simulateCase_terminates caseId activities flows startTime events resourceUtil visited draws :
  activities <> [] ->
  exists st,
    CaseState.queue st = [] /\
    simulateCase random caseId activities flows startTime events resourceUtil visited draws
    = Some (Normal st) /\
    forall fuel, caseFuel activities flows ≤ fuel ->
      simulateCaseFuel random fuel caseId activities flows startTime events
        resourceUtil visited draws = Some (Normal st).
Proof.
  intros Hne. unfold simulateCase, simulateCaseFuel.
  destruct activities as [|first rest]; [congruence|].
  set (st0 := CaseState.mk [(ProcessActivity.id first, startTime)] visited events resourceUtil draws).
  assert (work (first :: rest) flows st0 ≤ caseFuel (first :: rest) flows) as Hw.
  { unfold work, caseFuel. simpl CaseState.visited. simpl CaseState.queue.
    pose proof (pending_bound (first :: rest) visited). simpl length in *. nia. }
  destruct (whileQueue_enough caseId (first :: rest) flows _ st0 Hw) as [st' Hst'].
  exists st'. split; [eapply whileQueue_empty, Hst'|]. split.
  - now rewrite Hst'.
  - intros fuel Hle. now rewrite (whileQueue_more _ _ _ _ fuel _ _ Hst' Hle).
Qed.

(** [simulateCase] returns or throws; it never runs out of turns. *)
Lemma simulateCase_returns caseId activities flows startTime events resourceUtil
    visited draws :
  exists c,
    simulateCase random caseId activities flows startTime events resourceUtil
      visited draws = Some c.
Proof.
  destruct activities as [|first rest].
  - eexists. reflexivity.
  - destruct (whileQueue_enough caseId (first :: rest) flows
                (caseFuel (first :: rest) flows)
                (CaseState.mk [(ProcessActivity.id first, startTime)] visited
                   events resourceUtil draws)) as [st Hst].
    + unfold work, caseFuel. simpl CaseState.visited. simpl CaseState.queue.
      pose proof (pending_bound (first :: rest) visited). simpl length in *. nia.
    + exists (Normal st). unfold simulateCase, simulateCaseFuel. now rewrite Hst.
Qed.

Lemma caseLoop_returns caseStart n caseId activities flows run :
  exists c, caseLoop random caseStart n caseId activities flows run = Some c.
Proof.
  revert caseId run. induction n as [|n IH]; intros caseId run; simpl; [eauto|].
  destruct (simulateCase_returns caseId activities flows (Js.new_Date caseStart)
              (Run.events run) (Run.resourceUtilization run) ∅ (Run.draws run))
    as [[st|e st] ->]; [apply IH|eauto].
Qed.

(** [simulateProcess] returns or throws, for every input. *)
Lemma simulateProcess_returns caseStart processStructure scenario numInstances draws :
  exists c,
    simulateProcess random caseStart processStructure scenario numInstances draws
    = Some c.
Proof. apply caseLoop_returns. Qed.

End Termination.

Lemma simulateCase_terminates_witness :
  [reviewActivity; payActivity] <> [] /\
  exists st,
    CaseState.queue st = [] /\
    simulateCase halves 1 [reviewActivity; payActivity]
      (ProcessStructure.flows reviewPayCycle) utcStart [] ∅ ∅ 0
    = Some (Normal st).
Proof.
  assert ([reviewActivity; payActivity] <> []) as H by discriminate.
  split; [exact H|].
  destruct (simulateCase_terminates halves 1 [reviewActivity; payActivity]
              (ProcessStructure.flows reviewPayCycle) utcStart [] ∅ ∅ 0 H)
    as (st & Hq & Hs & _).
  exists st. split; [exact Hq|exact Hs].
Defined.

(** ** At most one start event per activity and case *)

Section SingleVisit.
Variable random : nat -> float.

Lemma startCount_app caseId activityId l1 l2 :
  startCount caseId activityId (l1 ++ l2)
  = startCount caseId activityId l1 + startCount caseId activityId l2.
Proof. unfold startCount. now rewrite List.filter_app, length_app. Qed.

Lemma iteration_caseInv caseId activities flows events0 st :
  caseInv caseId events0 st ->
  caseInv caseId events0 (iteration random caseId activities flows st).
Proof.
  intros (H1 & H2 & H3). unfold iteration.
  destruct st as [queue visited events ru n]. simpl in *.
  destruct queue as [|[activityId time] queue]; [now repeat split|].
  destruct (bool_decide (activityId ∈ visited)) eqn:Ev; [now repeat split|].
  destruct (findActivity activities activityId) as [activity|] eqn:Ef;
    [|now repeat split].
  apply bool_decide_eq_false in Ev.
  apply findActivity_Some in Ef as [_ Hid].
  unfold randomBetween. destruct (enqueueFlows _ _ _ _ _) as [queue' n2].
  unfold caseInv. simpl.
  assert (forall c a,
    startCount c a
      [SimulationEvent.mk caseId (ProcessActivity.name activity)
         (ProcessActivity.id activity) start (Js.new_Date time)
         (ProcessActivity.performer activity) 0%float None;
       SimulationEvent.mk caseId (ProcessActivity.name activity)
         (ProcessActivity.id activity) complete
         (Js.new_Date
            (time + (ActivityDuration.min (ProcessActivity.duration activity)
                     + random n * (ActivityDuration.max (ProcessActivity.duration activity)
                                   - ActivityDuration.min (ProcessActivity.duration activity)))
                    * 60000)%float)
         (ProcessActivity.performer activity)
         (Js.or_num (ProcessActivity.cost activity) 0%float)
         (Some (ActivityDuration.min (ProcessActivity.duration activity)
                + random n * (ActivityDuration.max (ProcessActivity.duration activity)
                              - ActivityDuration.min (ProcessActivity.duration activity)))%float)]
    = if (caseId =? c)%Z && String.eqb activityId a then 1 else 0) as Hnew.
  { intros c a. unfold startCount, isStartOf. simpl. rewrite Hid.
    destruct ((caseId =? c)%Z && String.eqb activityId a); reflexivity. }
  repeat split.
  - intros a. rewrite startCount_app, Hnew, Z.eqb_refl. simpl.
    destruct (String.eqb activityId a) eqn:Ea.
    + apply String.eqb_eq in Ea. subst a. rewrite (H2 _ Ev). lia.
    + specialize (H1 a). lia.
  - intros a Ha. rewrite startCount_app, Hnew, Z.eqb_refl. simpl.
    destruct (String.eqb activityId a) eqn:Ea.
    + apply String.eqb_eq in Ea. subst a. exfalso. apply Ha. set_solver.
    + rewrite H2; [lia|]. set_solver.
  - intros c a Hc. rewrite startCount_app, Hnew, H3 by exact Hc.
    destruct (Z.eqb_spec caseId c); [congruence|]. simpl. lia.
Qed.

Lemma whileQueue_caseInv caseId activities flows events0 fuel st st' :
  caseInv caseId events0 st ->
  whileQueue random fuel caseId activities flows st = Some st' ->
  caseInv caseId events0 st'.
Proof.
  apply (whileQueue_invariant random (caseInv caseId events0)).
  intros st0. apply iteration_caseInv.
Qed.

(** One case: if the log holds no start event of this case yet, then
    afterwards no activity has two of them, and the other cases' counts are
    unchanged. *)
Lemma simulateCase_single_start caseId activities flows startTime events
    resourceUtil visited draws c :
  (forall a, startCount caseId a events = 0) ->
  simulateCase random caseId activities flows startTime events resourceUtil
    visited draws = Some c ->
  (forall a, startCount caseId a (CaseState.events (stateOf c)) ≤ 1) /\
  (forall c' a, c' <> caseId ->
     startCount c' a (CaseState.events (stateOf c)) = startCount c' a events).
Proof.
  intros H0. unfold simulateCase, simulateCaseFuel.
  destruct activities as [|first rest].
  - intros [= <-]. simpl. split; [intros a; rewrite H0; lia|reflexivity].
  - destruct (whileQueue _ _ _ _ _ _) as [st|] eqn:Ew; [|discriminate].
    intros [= <-]. simpl.
    eapply whileQueue_caseInv in Ew as (H1 & _ & H3).
    + split; [exact H1|exact H3].
    + repeat split; simpl; intros; try rewrite H0; try lia. 
Qed.

Lemma caseLoop_single_start caseStart n caseId activities flows run c :
  (forall c' a, startCount c' a (Run.events run) ≤ 1) ->
  (forall c' a, (caseId ≤ c')%Z -> startCount c' a (Run.events run) = 0) ->
  caseLoop random caseStart n caseId activities flows run = Some c ->
  forall c' a, startCount c' a (Run.events (stateOf c)) ≤ 1.
Proof.
  revert caseId run. induction n as [|n IH]; intros caseId run H1 H2; simpl.
  - intros [= <-]. exact H1.
  - destruct (simulateCase _ _ _ _ _ _ _ _ _) as [r|] eqn:Es; [|discriminate].
    pose proof (simulateCase_single_start _ _ _ _ _ _ _ _ _
                  (fun a => H2 caseId a (Z.le_refl _)) Es) as [Ha Hb].
    assert (forall c' a, startCount c' a (CaseState.events (stateOf r)) ≤ 1) as Hall.
    { intros c' a. destruct (Z.eq_dec c' caseId) as [->|Hne]; [apply Ha|].
      rewrite Hb by exact Hne. apply H1. }
    destruct r as [st|e st]; simpl in *.
    + apply IH; simpl; [exact Hall|].
      intros c' a Hc. rewrite Hb by lia. apply H2. lia.
    + intros [= <-]. simpl. exact Hall.
Qed.

(** C6.  For every process graph, scenario, instance count and random stream
    the run ends, and in its event log no activity id has more than one
    start event in any case, whatever the flows (several flows into one
    activity, cycles). *)
Theorem single_start_per_activity caseStart processStructure scenario numInstances draws :
  exists c,
    simulateProcess random caseStart processStructure scenario numInstances draws
    = Some c /\
    forall caseId activityId,
      startCount caseId activityId (Run.events (stateOf c)) ≤ 1.
Proof.
  destruct (simulateProcess_returns random caseStart processStructure scenario
              numInstances draws) as [c H].
  exists c. split; [exact H|]. unfold simulateProcess in H.
  eapply caseLoop_single_start; [| |exact H]; simpl; intros; unfold startCount;
    simpl; lia.
Qed.

End SingleVisit.

Lemma single_start_per_activity_witness :
  exists c,
    simulateProcess halves utcStart reviewPayCycle baseline 3 0 = Some c /\
    startCount 2 "B" (Run.events (stateOf c)) ≤ 1 /\
    startCount 3 "A" (Run.events (stateOf c)) ≤ 1.
Proof.
  destruct (single_start_per_activity halves utcStart reviewPayCycle baseline 3 0)
    as (c & Hc & Hle).
  exists c. split; [exact Hc|]. split; apply Hle.
Defined.

(** ** The condition of a flow *)

Section ConditionLabel.
Variable random : nat -> float.

Lemma enqueueFlows_sameGate l1 l2 endTime queue n :
  Forall2 sameGate l1 l2 ->
  enqueueFlows random l1 endTime queue n = enqueueFlows random l2 endTime queue n.
Proof.
  intros H. revert queue n.
  induction H as [|f g l1 l2 [(_ & Hto & Hp) Hc] _ IH]; intros queue n; simpl; [reflexivity|].
  rewrite Hc, Hto, Hp.
  destruct (negb _); [apply IH|]. destruct (PrimFloat.ltb _ _); apply IH.
Qed.

Lemma outgoing_sameGate l1 l2 activityId :
  Forall2 sameGate l1 l2 ->
  Forall2 sameGate (outgoing l1 activityId) (outgoing l2 activityId).
Proof.
  unfold outgoing.
  induction 1 as [|f g l1 l2 Hfg _ IH]; simpl; [constructor|].
  destruct Hfg as [(Hfrom & Hto & Hp) Hc]. rewrite <- Hfrom.
  destruct (String.eqb _ _); [constructor; [repeat split; assumption|exact IH]|exact IH].
Qed.

Lemma iteration_sameGate caseId activities l1 l2 st :
  Forall2 sameGate l1 l2 ->
  iteration random caseId activities l1 st = iteration random caseId activities l2 st.
Proof.
  intros H. unfold iteration.
  destruct (CaseState.queue st) as [|[activityId time] queue]; [reflexivity|].
  destruct (bool_decide _); [reflexivity|].
  destruct (findActivity _ _); [|reflexivity].
  destruct (randomBetween _ _ _ _) as [duration n1].
  now rewrite (enqueueFlows_sameGate _ _ _ _ _ (outgoing_sameGate _ _ activityId H)).
Qed.

Lemma whileQueue_sameGate fuel caseId activities l1 l2 st :
  Forall2 sameGate l1 l2 ->
  whileQueue random fuel caseId activities l1 st
  = whileQueue random fuel caseId activities l2 st.
Proof.
  intros H. revert st. induction fuel as [|fuel IH]; intros st; simpl; [reflexivity|].
  destruct (CaseState.queue st); [reflexivity|].
  now rewrite (iteration_sameGate _ _ _ _ _ H), IH.
Qed.

Lemma simulateCase_sameGate caseId activities l1 l2 startTime events ru visited draws :
  Forall2 sameGate l1 l2 ->
  simulateCase random caseId activities l1 startTime events ru visited draws
  = simulateCase random caseId activities l2 startTime events ru visited draws.
Proof.
  intros H. unfold simulateCase, simulateCaseFuel, caseFuel.
  rewrite (Forall2_length _ _ _ H).
  destruct activities; [reflexivity|].
  now rewrite (whileQueue_sameGate _ _ _ _ _ _ H).
Qed.

Lemma caseLoop_sameGate caseStart n caseId activities l1 l2 run :
  Forall2 sameGate l1 l2 ->
  caseLoop random caseStart n caseId activities l1 run
  = caseLoop random caseStart n caseId activities l2 run.
Proof.
  intros H. revert caseId run. induction n as [|n IH]; intros caseId run; simpl; [reflexivity|].
  rewrite (simulateCase_sameGate _ _ _ _ _ _ _ _ _ H).
  destruct (simulateCase _ _ _ _ _ _ _ _ _) as [[st|e st]|]; try reflexivity. apply IH.
Qed.

(** The loop over the outgoing flows decides as [followed] says. *)
Lemma enqueueFlows_followed nextFlows endTime :
  properChances nextFlows = true ->
  forall queue n,
    enqueueFlows random nextFlows endTime queue n
    = (queue ++ map (fun f => (ProcessFlow.to f, endTime))
                  (followed random nextFlows n),
       n + length (gated nextFlows)).
Proof.
  unfold properChances, gated.
  induction nextFlows as [|flow rest IH]; intros Hp queue n.
  - simpl. now rewrite app_nil_r, Nat.add_0_r.
  - cbn [enqueueFlows followed List.filter] in *.
    destruct (Js.truthy_str (ProcessFlow.condition flow)); cbn [negb].
    + cbn [forallb] in Hp. apply andb_true_iff in Hp as [Hflow Hrest].
      assert (Js.or_num (ProcessFlow.probability flow) 1
              = ProcessFlow.probability flow) as ->
        by (unfold Js.or_num; now rewrite Hflow).
      cbn [length]. destruct (random n <? ProcessFlow.probability flow)%float;
        rewrite (IH Hrest); cbn [app map]; rewrite <- ?app_assoc; f_equal; lia.
    + rewrite (IH Hp). cbn [map]. rewrite <- app_assoc. reflexivity.
Qed.

Lemma properChances_outgoing flows activityId :
  properChances flows = true -> properChances (outgoing flows activityId) = true.
Proof.
  unfold properChances, gated, outgoing. rewrite !forallb_forall.
  intros H f Hf. apply H. rewrite filter_In in *. destruct Hf as [Hf Hc].
  rewrite filter_In in Hf. tauto.
Qed.

(** C1.  Traversal depends on the condition of a flow only through its
    presence.  Two process structures that are equal except for the text of
    the conditions of their flows, with a condition (neither [null] nor
    empty) at the same flows, give the same run for the same scenario,
    instance count and random draws: the same event log, the same busy
    minutes and the same number of draws consumed.  And where the
    probabilities of the flows with a condition are numbers other than
    zero, the flows that leave an activity are decided one after the other:
    a flow without a condition is enqueued without a draw, a flow with a
    condition takes one draw and is enqueued exactly when the draw is below
    its probability. *)
Theorem condition_text_never_gates caseStart p q scenario numInstances draws :
  sameGates p q ->
  simulateProcess random caseStart p scenario numInstances draws
  = simulateProcess random caseStart q scenario numInstances draws /\
  (properChances (ProcessStructure.flows p) = true ->
   forall activityId endTime queue n,
     enqueueFlows random (outgoing (ProcessStructure.flows p) activityId)
       endTime queue n
     = (queue ++ map (fun f => (ProcessFlow.to f, endTime))
                   (followed random
                      (outgoing (ProcessStructure.flows p) activityId) n),
        n + length (gated (outgoing (ProcessStructure.flows p) activityId)))).
Proof.
  intros (_ & Ha & Hr & Hf). split.
  - unfold simulateProcess. rewrite Ha, Hr. now apply caseLoop_sameGate.
  - intros Hp activityId endTime queue n.
    apply enqueueFlows_followed. now apply properChances_outgoing.
Qed.

End ConditionLabel.

Lemma condition_text_never_gates_witness :
  sameGates (reviewThenPay (Some "approved") [clerk]) (reviewThenPay (Some "amount > 100") [clerk]) /\
  simulateProcess halves utcStart (reviewThenPay (Some "approved") [clerk]) baseline 3 0
  = simulateProcess halves utcStart (reviewThenPay (Some "amount > 100") [clerk]) baseline 3 0 /\
  enqueueFlows halves
    (outgoing (ProcessStructure.flows (reviewThenPay (Some "approved") [clerk])) "A")
    utcStart [] 0
  = ([], 1) /\
  enqueueFlows halves
    (outgoing (ProcessStructure.flows (reviewThenPay None [clerk])) "A")
    utcStart [] 0
  = ([("B", utcStart)], 0).
Proof.
  assert (sameGates (reviewThenPay (Some "approved") [clerk])
            (reviewThenPay (Some "amount > 100") [clerk])) as H.
  { repeat split; simpl; try reflexivity. constructor; [|constructor].
    repeat split; reflexivity. }
  assert (sameGates (reviewThenPay None [clerk]) (reviewThenPay None [clerk])) as H0.
  { repeat split; simpl; try reflexivity. constructor; [|constructor].
    repeat split; reflexivity. }
  destruct (condition_text_never_gates halves utcStart _ _ baseline 3 0 H)
    as [Hrun Hgate].
  destruct (condition_text_never_gates halves utcStart _ _ baseline 3 0 H0)
    as [_ Hfree].
  split; [exact H|]. split; [exact Hrun|]. split.
  - exact (Hgate eq_refl "A" utcStart [] 0).
  - exact (Hfree eq_refl "A" utcStart [] 0).
Defined.

(** C1, as stated, fails: with a probability of one quarter and draws of one
    half, the flow without a condition is followed (four events) and the
    same flow with a condition is not (two events), although the two
    process structures differ in that condition only. *)
Lemma condition_presence_gates :
  sameButConditions (reviewThenPay None [clerk]) (reviewThenPay (Some "approved") [clerk]) /\
  eventsOf (simulateProcess halves utcStart (reviewThenPay None [clerk]) baseline 1 0)
  <> eventsOf (simulateProcess halves utcStart (reviewThenPay (Some "approved") [clerk])
                 baseline 1 0) /\
  option_map (@length _)
    (eventsOf (simulateProcess halves utcStart (reviewThenPay None [clerk]) baseline 1 0))
  = Some 4 /\
  option_map (@length _)
    (eventsOf (simulateProcess halves utcStart (reviewThenPay (Some "approved") [clerk])
                 baseline 1 0))
  = Some 2.
Proof.
  split; [|split; [|split]].
  - repeat split; simpl; try reflexivity. constructor; [|constructor].
    repeat split; reflexivity.
  - vm_compute. discriminate.
  - vm_compute. reflexivity.
  - vm_compute. reflexivity.
Qed.

(** ** Busy minutes and utilization *)

Section Utilization.
Variable random : nat -> float.

Lemma busyMinutes_app role l1 l2 :
  busyMinutes role (l1 ++ l2) = busyMinutes role l1 ++ busyMinutes role l2.
Proof. unfold busyMinutes. apply flat_map_app. Qed.

Lemma sum_snoc l d : Js.sum (l ++ [d]) = (Js.sum l + d)%float.
Proof. unfold Js.sum. now rewrite fold_left_app. Qed.

Lemma iteration_usageInv roles caseId activities flows st :
  usageInv roles (CaseState.events st) (CaseState.resourceUtil st) ->
  usageInv roles
    (CaseState.events (iteration random caseId activities flows st))
    (CaseState.resourceUtil (iteration random caseId activities flows st)).
Proof.
  intros [Hdom Htot]. unfold iteration.
  destruct st as [queue visited events ru n]. simpl in *.
  destruct queue as [|[activityId time] queue]; [now split|].
  destruct (bool_decide (activityId ∈ visited)); [now split|].
  destruct (findActivity activities activityId) as [activity|]; [|now split].
  unfold randomBetween. destruct (enqueueFlows _ _ _ _ _) as [queue' n2]. simpl.
  split; [now rewrite dom_alter_L|].
  intros role u. rewrite lookup_alter, busyMinutes_app. simpl.
  destruct (decide (ProcessActivity.performer activity = role)) as [->|Hne].
  - rewrite String.eqb_refl, app_nil_r, sum_snoc.
    destruct (ru !! role) as [u0|] eqn:Eu; [|discriminate].
    intros [= <-]. simpl. now rewrite (Htot _ _ Eu).
  - apply String.eqb_neq in Hne. rewrite Hne, !app_nil_r. apply Htot.
Qed.

Lemma whileQueue_usageInv roles caseId activities flows fuel st st' :
  usageInv roles (CaseState.events st) (CaseState.resourceUtil st) ->
  whileQueue random fuel caseId activities flows st = Some st' ->
  usageInv roles (CaseState.events st') (CaseState.resourceUtil st').
Proof.
  apply (whileQueue_invariant random
           (fun s => usageInv roles (CaseState.events s) (CaseState.resourceUtil s))).
  intros st0. apply iteration_usageInv.
Qed.

Lemma simulateCase_usageInv roles caseId activities flows startTime events ru
    visited draws c :
  usageInv roles events ru ->
  simulateCase random caseId activities flows startTime events ru visited draws
  = Some c ->
  usageInv roles (CaseState.events (stateOf c)) (CaseState.resourceUtil (stateOf c)).
Proof.
  intros Hinv. unfold simulateCase, simulateCaseFuel.
  destruct activities as [|first rest]; [intros [= <-]; exact Hinv|].
  destruct (whileQueue _ _ _ _ _ _) as [st|] eqn:Ew; [|discriminate].
  intros [= <-]. simpl. eapply whileQueue_usageInv; [|exact Ew]. exact Hinv.
Qed.

Lemma caseLoop_usageInv roles caseStart n caseId activities flows run c :
  usageInv roles (Run.events run) (Run.resourceUtilization run) ->
  caseLoop random caseStart n caseId activities flows run = Some c ->
  usageInv roles (Run.events (stateOf c)) (Run.resourceUtilization (stateOf c)).
Proof.
  revert caseId run. induction n as [|n IH]; intros caseId run Hinv; simpl.
  - intros [= <-]. exact Hinv.
  - destruct (simulateCase _ _ _ _ _ _ _ _ _) as [r|] eqn:Es; [|discriminate].
    apply (simulateCase_usageInv roles) in Es; [|exact Hinv].
    destruct r as [st|e st]; simpl in *.
    + apply IH. exact Es.
    + intros [= <-]. exact Es.
Qed.

Lemma initResources_from resources (acc : gmap string ResourceUsage.t) :
  dom (fold_left
         (fun acc r =>
            if String.eqb (ProcessResource.role r) "__proto__" then acc
            else <[ProcessResource.role r := ResourceUsage.mk 0 0 []]> acc)
         resources acc)
  = ((list_to_set (map ProcessResource.role resources) : gset string)
     ∖ {["__proto__"]}) ∪ dom acc /\
  ((forall role u, acc !! role = Some u -> ResourceUsage.total u = 0%float) ->
   forall role u,
     fold_left
       (fun acc r =>
          if String.eqb (ProcessResource.role r) "__proto__" then acc
          else <[ProcessResource.role r := ResourceUsage.mk 0 0 []]> acc)
       resources acc !! role = Some u ->
     ResourceUsage.total u = 0%float).
Proof.
  revert acc. induction resources as [|r l IH]; intros acc; simpl.
  - split; [set_solver|auto].
  - destruct (String.eqb_spec (ProcessResource.role r) "__proto__") as [He|Hne].
    + destruct (IH acc) as [Hd Ht]. split; [|exact Ht].
      rewrite Hd, He. set_solver.
    + destruct (IH (<[ProcessResource.role r := ResourceUsage.mk 0 0 []]> acc))
        as [Hd Ht].
      split.
      * rewrite Hd, dom_insert_L. set_solver.
      * intros Hacc. apply Ht. intros role u. rewrite lookup_insert.
        case_decide; [intros [= <-]; reflexivity|apply Hacc].
Qed.

(** The entries of [resourceUtilization]: one for each declared role other
    than [__proto__]. *)
Lemma initResources_usageInv processStructure :
  usageInv (declaredRoles processStructure ∖ {["__proto__"]}) []
    (initResources (ProcessStructure.resources processStructure)).
Proof.
  unfold initResources, declaredRoles.
  destruct (initResources_from (ProcessStructure.resources processStructure) ∅) as [Hd Ht].
  split.
  - rewrite Hd, dom_empty_L. set_solver.
  - intros role u Hu. simpl. apply (Ht ltac:(intros ? ?; rewrite lookup_empty; discriminate) _ _ Hu).
Qed.

Lemma simulateProcess_usageInv caseStart processStructure scenario numInstances draws c :
  simulateProcess random caseStart processStructure scenario numInstances draws = Some c ->
  usageInv (declaredRoles processStructure ∖ {["__proto__"]})
    (Run.events (stateOf c)) (Run.resourceUtilization (stateOf c)).
Proof.
  unfold simulateProcess. intros H.
  eapply caseLoop_usageInv; [|exact H]. apply initResources_usageInv.
Qed.

Lemma metrics_utilization events resourceUtil processStructure role :
  PerformanceMetrics.utilization
    (fst (calculatePerformanceMetrics events resourceUtil processStructure)) !! role
  = (fun data =>
       utilizationOf (ProcessStructure.resources processStructure)
         (8 * 60 *
          Js.of_nat (PerformanceMetrics.casesCompleted
                       (fst (calculatePerformanceMetrics events resourceUtil
                               processStructure))) / 5)%float
         role data) <$> resourceUtil !! role.
Proof.
  unfold calculatePerformanceMetrics. 
  destruct (calculateWaitingTimes events) as [w e']. simpl.
  rewrite map_lookup_imap. now destruct (resourceUtil !! role).
Qed.

End Utilization.

(** A role called [__proto__] gets no entry, whatever else is declared. *)
Example proto_role_has_no_entry :
  initResources [ProcessResource.mk "__proto__" 1 20; clerk] = initResources [clerk] /\
  dom (initResources [ProcessResource.mk "__proto__" 1 20; clerk])
  = ({["clerk"]} : gset string).
Proof. split; [reflexivity|]. vm_compute. reflexivity. Qed.

(** C10.  A defect of [calculatePerformanceMetrics]: the figure of a role
    divides by [totalSimTime * capacity] without a guard.  A declared role
    whose capacity is zero, with no busy minutes and one case completed,
    has the figure NaN, where the claim says 0. *)
Lemma zero_capacity_role_is_nan :
  exists run,
    simulateProcess halves utcStart (reviewThenPay None [auditor]) baseline 1 0
    = Some (Normal run) /\
    let metrics :=
      fst (calculatePerformanceMetrics (Run.events run)
             (Run.resourceUtilization run) (reviewThenPay None [auditor])) in
    "auditor" ∈ declaredRoles (reviewThenPay None [auditor]) /\
    busyMinutes "auditor" (Run.events run) = [] /\
    PerformanceMetrics.casesCompleted metrics = 1 /\
    completedCaseCount (Run.events run) = 1 /\
    PerformanceMetrics.utilization metrics !! "auditor" = Some PrimFloat.nan.
Proof.
  eexists. split; [vm_compute; reflexivity|].
  repeat split; vm_compute; reflexivity.
Qed.

(** ** The scenario example *)

Section Example.
Variable random : nat -> float.
Hypothesis random_unit : forall n, unitInterval (random n) = true.

(** Fixed durations: the sample of [randomBetween(10, 10)] is 10, that of
    [randomBetween(5, 5)] is 5. *)
Lemma randomBetween_10 n : randomBetween random 10 10 n = (10%float, S n).
Proof.
  unfold randomBetween. f_equal. change (10 - 10)%float with 0%float.
  destruct (unit_draw_times_zero _ (random_unit n)) as [s Hs].
  apply float_eq_by_spec. rewrite FloatAxioms.add_spec, Hs. destruct s; reflexivity.
Qed.

Lemma randomBetween_5 n : randomBetween random 5 5 n = (5%float, S n).
Proof.
  unfold randomBetween. f_equal. change (5 - 5)%float with 0%float.
  destruct (unit_draw_times_zero _ (random_unit n)) as [s Hs].
  apply float_eq_by_spec. rewrite FloatAxioms.add_spec, Hs. destruct s; reflexivity.
Qed.

Lemma draw_below_one n : (random n <? 1)%float = true.
Proof.
  pose proof (random_unit n) as H. unfold unitInterval in H.
  now apply andb_true_iff in H as [_ H].
Qed.

(** A flow of probability 1 is followed, with or without a condition. *)
Lemma enqueue_exampleFlow condition endTime queue n :
  exists n',
    enqueueFlows random [exampleFlow condition] endTime queue n
    = (queue ++ [("A2", endTime)], n').
Proof.
  simpl. destruct (negb _); [eauto|].
  change (Js.or_num 1 1) with 1%float. rewrite draw_below_one. eauto.
Qed.

Lemma whileQueue_step fuel caseId activities flows st :
  CaseState.queue st <> [] ->
  whileQueue random (S fuel) caseId activities flows st
  = whileQueue random fuel caseId activities flows
      (iteration random caseId activities flows st).
Proof. simpl. destruct (CaseState.queue st); [congruence|reflexivity]. Qed.

(** A turn of the loop that finds its activity, not visited so far. *)
Lemma iteration_visit caseId activities flows activityId time queue visited
    events resourceUtil n activity duration n1 queue' n2 :
  activityId ∉ visited ->
  findActivity activities activityId = Some activity ->
  randomBetween random
    (ActivityDuration.min (ProcessActivity.duration activity))
    (ActivityDuration.max (ProcessActivity.duration activity)) n = (duration, n1) ->
  enqueueFlows random (outgoing flows activityId)
    (Js.new_Date (time + duration * 60000)) queue n1 = (queue', n2) ->
  iteration random caseId activities flows
    (CaseState.mk ((activityId, time) :: queue) visited events resourceUtil n)
  = CaseState.mk queue' ({[activityId]} ∪ visited)
      (events ++
       [SimulationEvent.mk caseId (ProcessActivity.name activity)
          (ProcessActivity.id activity) start (Js.new_Date time)
          (ProcessActivity.performer activity) 0 None;
        SimulationEvent.mk caseId (ProcessActivity.name activity)
          (ProcessActivity.id activity) complete
          (Js.new_Date (time + duration * 60000))
          (ProcessActivity.performer activity)
          (Js.or_num (ProcessActivity.cost activity) 0) (Some duration)])
      (alter (ResourceUsage.add_total duration)
         (ProcessActivity.performer activity) resourceUtil) n2.
Proof.
  intros Hv Hf Hr He. unfold iteration.
  cbn [CaseState.queue CaseState.visited CaseState.events
       CaseState.resourceUtil CaseState.draws].
  rewrite (bool_decide_eq_false_2 _ Hv), Hf, Hr, He. reflexivity.
Qed.

Section Run.
Variables (name1 name2 performer1 performer2 unit1 unit2 : string).
Variables (type1 type2 : ActivityType).
Variables (resources1 resources2 probability1 probability2 : float).
Variable condition : option string.
Variable t0 : float.
Hypothesis t0_clock : clockCheck t0 = true.

Let A1 := exampleA1 name1 type1 performer1 unit1 resources1 probability1.
Let A2 := exampleA2 name2 type2 performer2 unit2 resources2 probability2.

Lemma example_case events resourceUtil draws :
  exists resourceUtil' draws',
    simulateCase random 1 [A1; A2] [exampleFlow condition] (Js.new_Date t0)
      events resourceUtil ∅ draws
    = Some (Normal
        (CaseState.mk [] ({["A2"]} ∪ ({["A1"]} ∪ ∅))
           ((events ++
             [SimulationEvent.mk 1 name1 "A1" start t0 performer1 0 None;
              SimulationEvent.mk 1 name1 "A1" complete (t0 + 600000) performer1 5
                (Some 10%float)]) ++
            [SimulationEvent.mk 1 name2 "A2" start (t0 + 600000) performer2 0 None;
             SimulationEvent.mk 1 name2 "A2" complete (t0 + 900000) performer2 3
               (Some 5%float)])
           resourceUtil' draws')).
Proof.
  destruct (clockCheck_facts _ t0_clock) as (T0 & T1 & T2 & _).
  destruct (enqueue_exampleFlow condition (t0 + 600000)%float [] (S draws))
    as [n1 Hq].
  change ([] ++ [("A2", (t0 + 600000)%float)]) with [("A2", (t0 + 600000)%float)] in Hq.
  unfold simulateCase, simulateCaseFuel.
  change (caseFuel [A1; A2] [exampleFlow condition]) with 5.
  change (ProcessActivity.id A1) with "A1".
  rewrite whileQueue_step by discriminate.
  erewrite (iteration_visit 1 [A1; A2] _ "A1" _ [] ∅ _ _ _ A1 10%float (S draws));
    [|set_solver|reflexivity|apply randomBetween_10
     |change (10 * 60000)%float with 600000%float; unfold Js.new_Date;
      rewrite T0, T1; exact Hq].
  rewrite whileQueue_step by discriminate.
  erewrite (iteration_visit 1 [A1; A2] _ "A2" _ [] _ _ _ _ A2 5%float (S n1));
    [|set_solver|reflexivity|apply randomBetween_5|reflexivity].
  change (10 * 60000)%float with 600000%float.
  change (5 * 60000)%float with 300000%float.
  unfold Js.new_Date. rewrite !T0, !T1, T2.
  eexists _, _. reflexivity.
Qed.

End Run.

End Example.

(** The metrics of the log of the example. *)
Lemma example_metrics t0 name1 name2 performer1 performer2 resourceUtil processStructure :
  clockCheck t0 = true ->
  let metrics :=
    fst (calculatePerformanceMetrics
           [SimulationEvent.mk 1 name1 "A1" start t0 performer1 0 None;
            SimulationEvent.mk 1 name1 "A1" complete (t0 + 600000) performer1 5
              (Some 10%float);
            SimulationEvent.mk 1 name2 "A2" start (t0 + 600000) performer2 0 None;
            SimulationEvent.mk 1 name2 "A2" complete (t0 + 900000) performer2 3
              (Some 5%float)]
           resourceUtil processStructure) in
  ThroughputMetrics.avg (PerformanceMetrics.throughput metrics) = 0.25%float /\
  CostMetrics.avg (PerformanceMetrics.cost metrics) = 8%float /\
  CostMetrics.total (PerformanceMetrics.cost metrics) = 8%float /\
  PerformanceMetrics.casesCompleted metrics = 1.
Proof.
  intros Hc. destruct (clockCheck_facts _ Hc) as (_ & _ & _ & T3).
  unfold calculatePerformanceMetrics.
  destruct (calculateWaitingTimes _) as [w e']. 
  cbn [fst PerformanceMetrics.throughput PerformanceMetrics.cost
       PerformanceMetrics.casesCompleted ThroughputMetrics.avg CostMetrics.avg
       CostMetrics.total].
  change (buildCases _) with
    [(1%Z, CaseRecord.mk (Some t0) (Some (t0 + 900000)%float) 8 
             [(name1, Some 10%float); (name2, Some 5%float)])].
  cbn [completedCases JsObject.values JsObject.keys flat_map map app fst snd
       CaseRecord.start CaseRecord.end_ CaseRecord.cost length].
  rewrite T3. repeat split.
Qed.

Lemma simulateProcess_one_case random caseStart processName activities flows
    resources scenarioName description draws :
  simulateProcess random caseStart
    (ProcessStructure.mk processName activities flows resources)
    (Scenario.mk scenarioName description None) 1 draws
  = match simulateCase random 1 activities flows (Js.new_Date caseStart) []
            (initResources resources) ∅ draws with
    | None => None
    | Some (Throw e st) =>
        Some (Throw e (Run.mk (CaseState.events st) (CaseState.resourceUtil st)
                         (CaseState.draws st)))
    | Some (Normal st) =>
        Some (Normal (Run.mk (CaseState.events st) (CaseState.resourceUtil st)
                        (CaseState.draws st)))
    end.
Proof.
  unfold simulateProcess.
  change (Z.to_nat 1) with 1.
  cbn [caseLoop applyScenarioModifications Scenario.modifications
       ProcessStructure.activities ProcessStructure.flows
       ProcessStructure.resources Run.events Run.resourceUtilization Run.draws].
  destruct (simulateCase _ _ _ _ _ _ _ _ _) as [[st|e st]|]; reflexivity.
Qed.

(** C5.  The process [A1] (duration 10 to 10, cost 5) followed by [A2]
    (duration 5 to 5, cost 3) over a single flow of probability 1, run for
    one instance: whatever the draws in [0, 1), the condition of the flow,
    the names, performers and other fields, and the time zone of the host
    (which fixes [t0]), the run returns the four events A1 start at [t0], A1
    complete at [t0] + 10 minutes (cost 5, duration 10), A2 start at [t0] +
    10 minutes, A2 complete at [t0] + 15 minutes (cost 3, duration 5); the
    metrics of that log have throughput average 0.25 hours, cost average 8,
    cost total 8 and [casesCompleted] 1. *)
Theorem two_activity_example (random : nat -> float) (offset : Z) (draws : nat)
    (name1 name2 performer1 performer2 unit1 unit2 : string)
    (type1 type2 : ActivityType)
    (resources1 resources2 probability1 probability2 : float)
    (condition : option string) (processName : string)
    (resources : list ProcessResource.t)
    (scenarioName : string) (description : option string) :
  (forall n, unitInterval (random n) = true) ->
  (-1440 <= offset <= 1440)%Z ->
  let t0 := localStart offset in
  let processStructure :=
    ProcessStructure.mk processName
      [exampleA1 name1 type1 performer1 unit1 resources1 probability1;
       exampleA2 name2 type2 performer2 unit2 resources2 probability2]
      [exampleFlow condition] resources in
  exists run,
    simulateProcess random t0 processStructure
      (Scenario.mk scenarioName description None) 1 draws = Some (Normal run) /\
    Run.events run =
      [SimulationEvent.mk 1 name1 "A1" start t0 performer1 0 None;
       SimulationEvent.mk 1 name1 "A1" complete (t0 + 600000) performer1 5
         (Some 10%float);
       SimulationEvent.mk 1 name2 "A2" start (t0 + 600000) performer2 0 None;
       SimulationEvent.mk 1 name2 "A2" complete (t0 + 900000) performer2 3
         (Some 5%float)] /\
    let metrics :=
      fst (calculatePerformanceMetrics (Run.events run)
             (Run.resourceUtilization run) processStructure) in
    ThroughputMetrics.avg (PerformanceMetrics.throughput metrics) = 0.25%float /\
    CostMetrics.avg (PerformanceMetrics.cost metrics) = 8%float /\
    CostMetrics.total (PerformanceMetrics.cost metrics) = 8%float /\
    PerformanceMetrics.casesCompleted metrics = 1.
Proof.
  intros Hrandom Hoffset t0 processStructure.
  pose proof (localStart_clock offset Hoffset) as Hclock. fold t0 in Hclock.
  destruct (example_case random Hrandom name1 name2 performer1 performer2 unit1
              unit2 type1 type2 resources1 resources2 probability1 probability2
              condition t0 Hclock [] (initResources resources) draws)
    as (ru & n & Hcase).
  subst processStructure. rewrite simulateProcess_one_case, Hcase.
  cbn [CaseState.events CaseState.resourceUtil CaseState.draws app].
  eexists. split; [reflexivity|].
  cbn [Run.events Run.resourceUtilization]. split; [reflexivity|].
  apply example_metrics. exact Hclock.
Qed.

Lemma two_activity_example_witness :
  (forall n, unitInterval (halves n) = true) /\
  (-1440 <= 60 <= 1440)%Z /\
  exists run,
    simulateProcess halves (localStart 60)
      (ProcessStructure.mk "Order"
         [exampleA1 "Check" task "clerk" "minutes" 1 1;
          exampleA2 "Ship" task "packer" "minutes" 1 1]
         [exampleFlow (Some "in stock")] [clerk])
      (Scenario.mk "Baseline" None None) 1 0 = Some (Normal run) /\
    length (Run.events run) = 4 /\
    PerformanceMetrics.casesCompleted
      (fst (calculatePerformanceMetrics (Run.events run)
              (Run.resourceUtilization run)
              (ProcessStructure.mk "Order"
                 [exampleA1 "Check" task "clerk" "minutes" 1 1;
                  exampleA2 "Ship" task "packer" "minutes" 1 1]
                 [exampleFlow (Some "in stock")] [clerk]))) = 1.
Proof.
  assert (forall n, unitInterval (halves n) = true) as Hr by (intros n; reflexivity).
  assert (-1440 <= 60 <= 1440)%Z as Ho by lia.
  split; [exact Hr|]. split; [exact Ho|].
  destruct (two_activity_example halves 60 0 "Check" "Ship" "clerk" "packer"
              "minutes" "minutes" task task 1 1 1 1 (Some "in stock") "Order"
              [clerk] "Baseline" None Hr Ho) as (run & Hrun & Hev & _ & _ & _ & Hn).
  exists run. split; [exact Hrun|]. split; [now rewrite Hev|exact Hn].
Defined.

(** ** Scenario modifier *)

(** The output has the length of the input, and its activities are the
    modified input activities, in order. *)
Lemma applyScenarioModifications_length activities modifications :
  length (applyScenarioModifications activities modifications) = length activities.
Proof.
  unfold applyScenarioModifications. destruct modifications; [|reflexivity].
  apply length_map.
Qed.

(** An activity without a modification of its id passes unchanged. *)
Lemma modifyActivity_unmatched mods activity :
  findModification mods activity = None -> modifyActivity mods activity = activity.
Proof. unfold modifyActivity. now intros ->. Qed.

(** With a modification of its id, a present duration is taken, and a
    present cost or resource count is taken when it is truthy (not zero and
    not NaN); the other fields are kept. *)
Lemma modifyActivity_matched mods activity m :
  findModification mods activity = Some m ->
  let activity' := modifyActivity mods activity in
  ScenarioModification.id m = ProcessActivity.id activity /\
  ProcessActivity.id activity' = ProcessActivity.id activity /\
  ProcessActivity.name activity' = ProcessActivity.name activity /\
  ProcessActivity.performer activity' = ProcessActivity.performer activity /\
  ProcessActivity.duration activity'
  = default (ProcessActivity.duration activity) (ScenarioModification.duration m) /\
  (forall c, ScenarioModification.cost m = Some c ->
     ProcessActivity.cost activity'
     = if Js.truthy c then c else ProcessActivity.cost activity) /\
  (ScenarioModification.cost m = None ->
     ProcessActivity.cost activity' = ProcessActivity.cost activity) /\
  (forall r, ScenarioModification.resources m = Some r ->
     ProcessActivity.resources activity'
     = if Js.truthy r then r else ProcessActivity.resources activity) /\
  (ScenarioModification.resources m = None ->
     ProcessActivity.resources activity' = ProcessActivity.resources activity).
Proof.
  intros Hm. unfold modifyActivity. rewrite Hm. simpl.
  unfold findModification in Hm.
  destruct (Modifications.activities mods) as [ms|]; [|discriminate].
  apply find_some in Hm as [_ Hid]. apply String.eqb_eq in Hid.
  repeat split; try exact Hid.
  - now intros c ->.
  - now intros ->.
  - now intros r ->.
  - now intros ->.
Qed.

(** C3.  A defect of [applyScenarioModifications]: an override whose value
    is zero is not applied.  [Review] has cost 5 and 1 resource unit; the
    override with the matching id sets both to 0; the result is the
    unchanged activity, where the override's zeros are expected. *)
Theorem zero_override_is_ignored :
  applyScenarioModifications [reviewActivity] (Some automation) = [reviewActivity] /\
  ProcessActivity.cost reviewActivity = 5%float /\
  ProcessActivity.resources reviewActivity = 1%float /\
  ScenarioModification.cost freeReview = Some 0%float /\
  ScenarioModification.resources freeReview = Some 0%float.
Proof. repeat split. Qed.

(** ** Empty activity list *)

Lemma applyScenarioModifications_nil modifications :
  applyScenarioModifications [] modifications = [].
Proof. now destruct modifications. Qed.

(** C4.  With an empty activity list and at least one instance,
    [simulateProcess] throws when the first case reads [activities[0].id],
    before the loop of that case starts: the log is empty and no draw has
    been made at that point.  The error is the engine's [TypeError]; the
    code has no validation of its own. *)
Theorem empty_activity_list_throws random caseStart processStructure scenario
    numInstances draws :
  ProcessStructure.activities processStructure = [] ->
  (1 <= numInstances)%Z ->
  simulateProcess random caseStart processStructure scenario numInstances draws
  = Some (Throw undefined_id_error
            (Run.mk [] (initResources (ProcessStructure.resources processStructure))
               draws)).
Proof.
  intros Hempty Hn. unfold simulateProcess.
  rewrite Hempty, applyScenarioModifications_nil.
  destruct (Z.to_nat numInstances) as [|n] eqn:En; [lia|]. reflexivity.
Qed.

Lemma empty_activity_list_throws_witness :
  ProcessStructure.activities emptyProcess = [] /\
  (1 <= 100)%Z /\
  simulateProcess halves utcStart emptyProcess baseline 100 0
  = Some (Throw undefined_id_error (Run.mk [] ∅ 0)).
Proof.
  split; [reflexivity|]. split; [lia|].
  apply (empty_activity_list_throws halves utcStart emptyProcess baseline 100 0);
    [reflexivity|lia].
Defined.

(** C4, as stated, fails: the error thrown is a [TypeError], not a
    [ValidationError], and with zero instances nothing is thrown at all. *)
Lemma empty_process_no_ValidationError :
  simulateProcess halves utcStart emptyProcess baseline 1 0
  = Some (Throw undefined_id_error (Run.mk [] ∅ 0)) /\
  JsError.name undefined_id_error <> "ValidationError" /\
  simulateProcess halves utcStart emptyProcess baseline 0 0
  = Some (Normal (Run.mk [] ∅ 0)).
Proof. split; [reflexivity|]. split; [discriminate|reflexivity]. Qed.

(** ** The property names of [cases] *)

Lemma JsObject_get_None {V : Type} (o : list (Z * V)) k :
  JsObject.get o k = None <-> k ∉ JsObject.keys o.
Proof.
  induction o as [|[k' v] o IH]; simpl.
  - split; [intros _; apply not_elem_of_nil|reflexivity].
  - rewrite not_elem_of_cons. destruct (Z.eqb_spec k' k) as [->|Hne].
    + split; [discriminate|intros [H _]; congruence].
    + rewrite IH. split; [intros H; split; [congruence|exact H]|intros [_ H]; exact H].
Qed.

Lemma JsObject_keys_replace {V : Type} (o : list (Z * V)) k v :
  JsObject.keys (JsObject.replace o k v) = JsObject.keys o.
Proof.
  induction o as [|[k' v'] o IH]; simpl; [reflexivity|].
  destruct (Z.eqb_spec k' k) as [->|Hne]; simpl; [reflexivity|].
  f_equal. exact IH.
Qed.

Lemma JsObject_keys_insert_new {V : Type} (o : list (Z * V)) k v :
  JsObject.keys (JsObject.insert_new o k v) ≡ₚ k :: JsObject.keys o.
Proof.
  induction o as [|[k' v'] o IH]; simpl; [reflexivity|].
  destruct (_ && _); simpl; [reflexivity|].
  rewrite IH. apply Permutation_swap.
Qed.

Lemma JsObject_keys_set {V : Type} (o : list (Z * V)) k v :
  NoDup (JsObject.keys o) ->
  NoDup (JsObject.keys (JsObject.set o k v)) /\
  (list_to_set (JsObject.keys (JsObject.set o k v)) : gset Z)
  = {[k]} ∪ list_to_set (JsObject.keys o).
Proof.
  intros Hnd. unfold JsObject.set.
  destruct (JsObject.get o k) as [v0|] eqn:Eg.
  - rewrite JsObject_keys_replace. split; [exact Hnd|].
    assert (k ∈ JsObject.keys o) as Hin.
    { destruct (decide (k ∈ JsObject.keys o)) as [H|H]; [exact H|].
      apply JsObject_get_None in H. congruence. }
    apply (elem_of_list_to_set (C := gset Z)) in Hin. set_solver.
  - apply JsObject_get_None in Eg.
    rewrite (JsObject_keys_insert_new o k v). split.
    + now apply NoDup_cons.
    + reflexivity.
Qed.

Lemma buildCases_keys events acc :
  NoDup (JsObject.keys acc) ->
  NoDup (JsObject.keys (fold_left recordEvent events acc)) /\
  (list_to_set (JsObject.keys (fold_left recordEvent events acc)) : gset Z)
  = list_to_set (map SimulationEvent.caseId events) ∪ list_to_set (JsObject.keys acc).
Proof.
  revert acc. induction events as [|e events IH]; intros acc Hnd; simpl.
  - split; [exact Hnd|set_solver].
  - unfold recordEvent at 2 4.
    match goal with
    | |- context [JsObject.set acc ?k ?v] =>
        destruct (JsObject_keys_set acc k v Hnd) as [Hnd' Hk];
        destruct (IH (JsObject.set acc k v) Hnd') as [H1 H2]
    end.
    split; [exact H1|]. rewrite H2, Hk. set_solver.
Qed.

(** What the code counts: the distinct case ids of the log. *)
Lemma casesCompleted_counts_case_ids events resourceUtil processStructure :
  PerformanceMetrics.casesCompleted
    (fst (calculatePerformanceMetrics events resourceUtil processStructure))
  = caseCount events.
Proof.
  unfold calculatePerformanceMetrics, caseCount.
  destruct (calculateWaitingTimes events) as [w e']. simpl.
  destruct (buildCases_keys events [] (NoDup_nil_2)) as [Hnd Hk].
  unfold buildCases. rewrite <- (size_list_to_set (C := gset Z)) by exact Hnd.
  rewrite Hk. f_equal. simpl. set_solver.
Qed.

(** What the call leaves in the caller's array: the log sorted by time. *)
Lemma calculatePerformanceMetrics_sorts events resourceUtil processStructure :
  snd (calculatePerformanceMetrics events resourceUtil processStructure)
  = sortByTimestamp events.
Proof. reflexivity. Qed.

(** ** Metrics of degenerate logs *)

(** C2.  A defect of [calculatePerformanceMetrics]: for the empty log
    [casesCompleted] is 0, but the averages and the median divide zero by
    zero and are NaN, and the minimum and maximum of no value are
    [+Infinity] and [-Infinity]. *)
Theorem empty_log_metrics_invalid resourceUtil processStructure :
  let metrics := fst (calculatePerformanceMetrics [] resourceUtil processStructure) in
  PerformanceMetrics.casesCompleted metrics = 0 /\
  ThroughputMetrics.avg (PerformanceMetrics.throughput metrics) = PrimFloat.nan /\
  ThroughputMetrics.min (PerformanceMetrics.throughput metrics) = PrimFloat.infinity /\
  ThroughputMetrics.max (PerformanceMetrics.throughput metrics) = PrimFloat.neg_infinity /\
  ThroughputMetrics.median (PerformanceMetrics.throughput metrics) = PrimFloat.nan /\
  CostMetrics.avg (PerformanceMetrics.cost metrics) = PrimFloat.nan /\
  CostMetrics.total (PerformanceMetrics.cost metrics) = 0%float.
Proof. repeat split. Qed.

(** The same for the utilization of a declared role. *)
Lemma empty_log_utilization_invalid :
  PerformanceMetrics.utilization
    (fst (calculatePerformanceMetrics [] (initResources [clerk])
            (reviewThenPay None [clerk]))) !! "clerk"
  = Some PrimFloat.nan.
Proof. vm_compute. reflexivity. Qed.

(** C8.  A defect of [calculatePerformanceMetrics]: [casesCompleted] counts
    every case id of the log.  For a log whose only event is a start event
    of case 1 it is 1, while no case has both a start and an end. *)
Theorem started_case_is_counted :
  PerformanceMetrics.casesCompleted
    (fst (calculatePerformanceMetrics startedOnly ∅ (reviewThenPay None [clerk]))) = 1 /\
  completedCaseCount startedOnly = 0.
Proof. split; vm_compute; reflexivity. Qed.

(** C9.  A defect of [calculatePerformanceMetrics]: [calculateWaitingTimes]
    sorts the caller's array in place.  The log of two instances is emitted
    case by case; after the call the array is ordered by timestamp, with the
    events of the two cases interleaved. *)
Theorem metrics_reorder_the_log :
  exists run,
    simulateProcess halves utcStart (reviewThenPay None [clerk]) baseline 2 0
    = Some (Normal run) /\
    map SimulationEvent.caseId (Run.events run) = [1; 1; 1; 1; 2; 2; 2; 2]%Z /\
    map SimulationEvent.caseId
      (snd (calculatePerformanceMetrics (Run.events run)
              (Run.resourceUtilization run) (reviewThenPay None [clerk])))
    = [1; 2; 1; 1; 2; 2; 1; 2]%Z /\
    snd (calculatePerformanceMetrics (Run.events run)
           (Run.resourceUtilization run) (reviewThenPay None [clerk]))
    <> Run.events run.
Proof.
  eexists. split; [vm_compute; reflexivity|].
  split; [vm_compute; reflexivity|]. split; [vm_compute; reflexivity|].
  intros H. apply (f_equal (map SimulationEvent.caseId)) in H.
  vm_compute in H. discriminate H.
Qed.

(** * Further properties *)

Section Trace.
Variable random : nat -> float.

(** The flows that the loop over [nextFlows] follows: they are pushed in
    order behind the queue, one draw is taken for each flow that has a
    condition, and a flow that is followed for every draw is among them. *)
Lemma enqueueFlows_spec (sure : ProcessFlow.t -> bool) nextFlows endTime queue n :
  (forall f k, sure f = true ->
     orb (negb (conditional f))
       (random k <? Js.or_num (ProcessFlow.probability f) 1)%float = true) ->
  exists taken,
    enqueueFlows random nextFlows endTime queue n
    = (queue ++ map (itemOf endTime) taken,
       n + length (List.filter conditional nextFlows)) /\
    (forall f, In f taken -> In f nextFlows) /\
    (forall f, In f nextFlows -> sure f = true -> In f taken).
Proof.
  intros Hsure. revert queue n.
  induction nextFlows as [|flow rest IH]; intros queue n; simpl.
  - exists []. rewrite app_nil_r, Nat.add_0_r. repeat split; auto.
  - pose proof (Hsure flow n) as Hflow. unfold conditional in *.
    destruct (Js.truthy_str (ProcessFlow.condition flow)); simpl in *.
    + destruct (PrimFloat.ltb _ _).
      * destruct (IH (queue ++ [(ProcessFlow.to flow, endTime)]) (S n))
          as (taken & -> & Hin & Hall).
        exists (flow :: taken). simpl. rewrite <- app_assoc. simpl.
        split; [f_equal; lia|]. split.
        -- intros f [->|H]; auto.
        -- intros f [->|H] Hs; auto.
      * destruct (IH queue (S n)) as (taken & -> & Hin & Hall).
        exists taken. split; [f_equal; lia|]. split.
        -- intros f H; auto.
        -- intros f [->|H] Hs; [|auto]. specialize (Hflow Hs). discriminate.
    + destruct (IH (queue ++ [(ProcessFlow.to flow, endTime)]) n)
        as (taken & -> & Hin & Hall).
      exists (flow :: taken). simpl. rewrite <- app_assoc. simpl.
      split; [reflexivity|]. split.
      * intros f [->|H]; auto.
      * intros f [->|H] Hs; auto.
Qed.

(** The three ways a turn of the loop can go: an empty queue; an item that
    is dropped (visited already, or no such activity); an execution. *)
Lemma iteration_cases caseId activities flows st :
  match CaseState.queue st with
  | [] => iteration random caseId activities flows st = st
  | (activityId, time) :: queue =>
      ((activityId ∈ CaseState.visited st
        \/ findActivity activities activityId = None) /\
       iteration random caseId activities flows st
       = CaseState.mk queue (CaseState.visited st) (CaseState.events st)
           (CaseState.resourceUtil st) (CaseState.draws st))
      \/
      (exists activity,
         (activityId ∉ CaseState.visited st) /\
         findActivity activities activityId = Some activity /\
         let x :=
           Execution.mk caseId activity time
             (fst (randomBetween random
                     (ActivityDuration.min (ProcessActivity.duration activity))
                     (ActivityDuration.max (ProcessActivity.duration activity))
                     (CaseState.draws st))) in
         let pushed :=
           enqueueFlows random (outgoing flows activityId)
             (Js.new_Date (time + Execution.duration x * 60000)%float) queue
             (S (CaseState.draws st)) in
         iteration random caseId activities flows st
         = CaseState.mk (fst pushed) ({[activityId]} ∪ CaseState.visited st)
             (CaseState.events st ++ eventsOfExecution x)
             (alter (ResourceUsage.add_total (Execution.duration x))
                (ProcessActivity.performer activity) (CaseState.resourceUtil st))
             (snd pushed))
  end.
Proof.
  unfold iteration. destruct st as [queue visited events ru n]. simpl.
  destruct queue as [|[activityId time] queue]; [reflexivity|].
  destruct (bool_decide (activityId ∈ visited)) eqn:Ev.
  - left. apply bool_decide_eq_true in Ev. auto.
  - apply bool_decide_eq_false in Ev.
    destruct (findActivity activities activityId) as [activity|] eqn:Ef.
    + right. exists activity. split; [exact Ev|]. split; [reflexivity|].
      unfold randomBetween. simpl.
      destruct (enqueueFlows _ _ _ _ _) as [queue' n2]. reflexivity.
    + left. auto.
Qed.

End Trace.

Section CaseTrace.
Variable random : nat -> float.
Variable sure : ProcessFlow.t -> bool.
Hypothesis sure_followed :
  forall f k, sure f = true ->
    orb (negb (conditional f))
      (random k <? Js.or_num (ProcessFlow.probability f) 1)%float = true.

Lemma logOf_app xs ys : logOf (xs ++ ys) = logOf xs ++ logOf ys.
Proof. unfold logOf. apply flat_map_app. Qed.

Lemma drawsOf_app flows xs ys :
  drawsOf flows (xs ++ ys) = drawsOf flows xs + drawsOf flows ys.
Proof. unfold drawsOf. rewrite map_app. induction (map _ xs); simpl; lia. Qed.

Lemma findActivity_first first rest :
  findActivity (first :: rest) (ProcessActivity.id first) = Some first.
Proof. unfold findActivity. simpl. now rewrite String.eqb_refl. Qed.

Lemma outgoing_In flows activityId f :
  In f (outgoing flows activityId) <-> In f flows /\ ProcessFlow.from f = activityId.
Proof.
  unfold outgoing. rewrite filter_In. split.
  - intros [H1 H2]. apply String.eqb_eq in H2. auto.
  - intros [H1 H2]. split; [exact H1|]. now apply String.eqb_eq.
Qed.

Lemma iteration_traceInv first rest flows startTime caseId events0 draws0 st :
  traceInv random sure (first :: rest) flows startTime first caseId events0 draws0 st ->
  traceInv random sure (first :: rest) flows startTime first caseId events0 draws0
    (iteration random caseId (first :: rest) flows st).
Proof.
  intros (xs & HE & HF & HV & HN & HD & HH & HR & HQ & HS).
  pose proof (iteration_cases random caseId (first :: rest) flows st) as Hit.
  destruct (CaseState.queue st) as [|[activityId time] queue] eqn:Eq.
  { rewrite Hit. exists xs. rewrite Eq. repeat split; auto; apply HV. }
  destruct Hit as [[Hdrop ->] | (activity & Hnv & Hfind & Hit)].
  - (* the item is dropped *)
    assert (xs <> []) as Hxs.
    { intros ->. injection HH as Ha Ht Hq. subst activityId.
      destruct Hdrop as [Hv | Hm].
      - apply HV in Hv. destruct Hv.
      - rewrite findActivity_first in Hm. discriminate. }
    exists xs. simpl.
    split; [exact HE|]. split; [exact HF|]. split; [exact HV|].
    split; [exact HN|]. split; [exact HD|].
    split; [destruct xs; [congruence|exact HH]|].
    split; [exact HR|].
    split; [intros a t Hin; apply (HQ a t); now right|].
    intros f Hf Hs Hfrom.
    destruct (HS f Hf Hs Hfrom) as [H | [[t [Hhd | Htl]] | H]]; eauto.
    injection Hhd as Ha _. subst activityId.
    destruct Hdrop as [Hv | Hm]; [left; now apply HV|auto].
  - (* the activity is executed *)
    cbv zeta in Hit. rewrite Hit. clear Hit.
    apply findActivity_Some in Hfind as Hact. destruct Hact as [Hin Hid].
    set (x := Execution.mk caseId activity time
                (fst (randomBetween random
                        (ActivityDuration.min (ProcessActivity.duration activity))
                        (ActivityDuration.max (ProcessActivity.duration activity))
                        (CaseState.draws st)))) in *.
    destruct (enqueueFlows_spec random sure (outgoing flows activityId)
                (Js.new_Date (time + Execution.duration x * 60000)%float) queue
                (S (CaseState.draws st)) sure_followed)
      as (taken & Hpush & Htaken & Hsure).
    rewrite Hpush. simpl fst. simpl snd.
    assert (executedId x = activityId) as Hx by exact Hid.
    assert (~ In activityId (map executedId xs)) as Hfresh
      by (intros H; apply Hnv, HV, H).
    exists (xs ++ [x]). cbn [CaseState.events CaseState.visited CaseState.draws
                              CaseState.queue].
    rewrite map_app, logOf_app, drawsOf_app. simpl map. rewrite Hx.
    split; [rewrite HE, <- app_assoc; reflexivity|].
    split.
    { apply Forall_app. split; [exact HF|]. constructor; [|constructor].
      split; [reflexivity|]. split; [exact Hin|]. eexists. reflexivity. }
    split.
    { intros a. rewrite in_app_iff, elem_of_union, elem_of_singleton, HV. simpl.
      split; [intros [->|H]; auto|intros [H|[->|[]]]; auto]. }
    split.
    { apply NoDup_app. split; [exact HN|]. split.
      - intros a Ha Hin'. apply list_elem_of_In in Ha.
        apply list_elem_of_In in Hin'. destruct Hin' as [<-|[]]. contradiction.
      - apply NoDup_singleton. }
    split.
    { assert (drawsOf flows [x]
              = S (length (List.filter conditional (outgoing flows activityId))))
        as Hdx by (unfold drawsOf, drawsOfExecution; simpl; rewrite Hid; lia).
      rewrite HD, Hdx. lia. }
    split.
    { destruct xs as [|x0 xs']; simpl.
      - injection HH as Ha Ht Hq. subst activityId time.
        rewrite findActivity_first in Hfind. injection Hfind as <-. auto.
      - exact HH. }
    assert (reachable flows (ProcessActivity.id first) activityId) as Hreach
      by (apply (HQ activityId time); now left).
    split.
    { intros a. rewrite in_app_iff. simpl. intros [H|[<-|[]]]; auto. }
    split.
    { intros a t. rewrite in_app_iff, in_map_iff.
      intros [H | (f & Hf & Hfin)].
      - apply (HQ a t). now right.
      - injection Hf as <- _. apply Htaken, outgoing_In in Hfin as [Hfl Hfrom].
        apply reachable_step; [now rewrite Hfrom|exact Hfl]. }
    intros f Hf Hs. rewrite !in_app_iff. simpl. intros [Hfrom | [Hfrom|[]]].
    + destruct (HS f Hf Hs Hfrom) as [H | [[t Ht] | H]]; auto.
      destruct Ht as [Hhd | Htl].
      * injection Hhd as Ha _. left. right. left. now symmetry.
      * right. left. exists t. apply in_app_iff. now left.
    + right. left. exists (Js.new_Date (time + Execution.duration x * 60000)%float).
      apply in_app_iff. right. apply in_map_iff. exists f. split; [reflexivity|].
      apply Hsure; [|exact Hs]. apply outgoing_In. split; [exact Hf|now symmetry].
Qed.

(** One case, started with a fresh [visited] set on a non-empty list: the
    call returns, and what it appends to the log is the log of a trace of
    the case. *)
Lemma simulateCase_trace first rest flows startTime caseId events resourceUtil draws :
  exists st xs,
    simulateCase random caseId (first :: rest) flows startTime events resourceUtil
      ∅ draws = Some (Normal st) /\
    CaseState.events st = events ++ logOf xs /\
    CaseState.draws st = draws + drawsOf flows xs /\
    caseTrace random sure (first :: rest) flows startTime first caseId xs.
Proof.
  destruct (simulateCase_returns random caseId (first :: rest) flows startTime
              events resourceUtil ∅ draws) as [c Hc].
  pose proof Hc as Hrun. unfold simulateCase, simulateCaseFuel in Hrun.
  destruct (whileQueue _ _ _ _ _ _) as [st|] eqn:Ew; [|discriminate].
  injection Hrun as <-.
  pose proof (whileQueue_empty random _ _ _ _ _ _ Ew) as Hq.
  apply (whileQueue_invariant random
           (traceInv random sure (first :: rest) flows startTime first caseId
              events draws)) in Ew.
  - destruct Ew as (xs & HE & HF & HV & HN & HD & HH & HR & _ & HS).
    exists st, xs. split; [exact Hc|]. split; [exact HE|]. split; [exact HD|].
    split; [exact HF|]. split; [exact HN|]. split.
    { destruct xs as [|x xs']; [rewrite Hq in HH; discriminate|].
      destruct HH. eauto. }
    split; [exact HR|].
    intros f Hf Hs Hfrom Hex.
    destruct (HS f Hf Hs Hfrom) as [H | [[t Ht] | H]]; [exact H| |contradiction].
    rewrite Hq in Ht. destruct Ht.
  - intros st0. apply iteration_traceInv.
  - exists []. simpl. rewrite app_nil_r. unfold drawsOf. simpl.
    split; [reflexivity|]. split; [constructor|]. split.
    { intros a. split; [intros H; now apply not_elem_of_empty in H|intros []]. }
    split; [constructor|]. split; [lia|]. split; [reflexivity|].
    split; [intros a []|]. split.
    { intros a t [H|[]]. injection H as <- _. constructor. }
    intros f _ _ [].
Qed.

Lemma caseLoop_trace caseStart first rest flows n caseId run :
  exists run' xss,
    caseLoop random caseStart n caseId (first :: rest) flows run
    = Some (Normal run') /\
    Run.events run' = Run.events run ++ logOf (concat xss) /\
    Run.draws run' = Run.draws run + drawsOf flows (concat xss) /\
    Forall2 (caseTrace random sure (first :: rest) flows (Js.new_Date caseStart) first)
      (seqZ caseId (Z.of_nat n)) xss.
Proof.
  revert caseId run. induction n as [|n IH]; intros caseId run.
  - exists run, []. simpl. rewrite app_nil_r. unfold drawsOf. simpl.
    split; [reflexivity|]. split; [reflexivity|]. split; [lia|]. constructor.
  - destruct (simulateCase_trace first rest flows (Js.new_Date caseStart) caseId
                (Run.events run) (Run.resourceUtilization run) (Run.draws run))
      as (st & xs & Hs & HE & HD & HT).
    destruct (IH (caseId + 1)%Z
                (Run.mk (CaseState.events st) (CaseState.resourceUtil st)
                   (CaseState.draws st)))
      as (run' & xss & Hl & HE' & HD' & HT').
    exists run', (xs :: xss). cbn [caseLoop]. rewrite Hs.
    split; [exact Hl|]. simpl in HE', HD'. simpl concat.
    rewrite logOf_app, drawsOf_app.
    split; [rewrite HE', HE; now rewrite app_assoc|].
    split; [rewrite HD', HD; lia|].
    rewrite seqZ_cons by lia. constructor; [exact HT|].
    replace (Z.pred (Z.of_nat (S n))) with (Z.of_nat n) by lia.
    replace (Z.succ caseId) with (caseId + 1)%Z by lia. exact HT'.
Qed.

End CaseTrace.

(** ** The shape of a run *)

Lemma modifyActivity_id mods activity :
  ProcessActivity.id (modifyActivity mods activity) = ProcessActivity.id activity.
Proof. unfold modifyActivity. now destruct (findModification mods activity). Qed.

Lemma applyScenarioModifications_ids activities modifications :
  map ProcessActivity.id (applyScenarioModifications activities modifications)
  = map ProcessActivity.id activities.
Proof.
  unfold applyScenarioModifications. destruct modifications as [mods|]; [|reflexivity].
  rewrite map_map. apply map_ext. intros a. apply modifyActivity_id.
Qed.


Lemma In_logOf e xs :
  In e (logOf xs) <->
  exists x, In x xs /\ (e = startEventOf x \/ e = completeEventOf x).
Proof.
  unfold logOf. rewrite in_flat_map. split.
  - intros (x & Hx & [H | [H | [] ] ]); eauto.
  - intros (x & Hx & [H|H]); exists x; simpl; auto.
Qed.

Lemma startCount_pos caseId activityId events :
  1 ≤ startCount caseId activityId events <->
  exists e, In e events /\ isStartOf caseId activityId e = true.
Proof.
  unfold startCount. induction events as [|e l IH]; simpl.
  - split; [lia|intros (e & [] & _)].
  - destruct (isStartOf caseId activityId e) eqn:E; simpl.
    + split; [eauto|lia].
    + rewrite IH. split.
      * intros (e' & H1 & H2). eauto.
      * intros (e' & [->|H1] & H2); [congruence|eauto].
Qed.

Lemma isStartOf_true caseId activityId e :
  isStartOf caseId activityId e = true <->
  SimulationEvent.event e = start /\ SimulationEvent.caseId e = caseId /\
  SimulationEvent.activityId e = activityId.
Proof.
  unfold isStartOf. rewrite !andb_true_iff, Z.eqb_eq, String.eqb_eq.
  destruct (SimulationEvent.event e); simpl; intuition congruence.
Qed.

(** A start event of the log of executions is the start of one of them. *)
Lemma started_in_logOf caseId activityId xs :
  1 ≤ startCount caseId activityId (logOf xs) <->
  exists x, In x xs /\ Execution.caseId x = caseId /\ executedId x = activityId.
Proof.
  rewrite startCount_pos. split.
  - intros (e & He & Hs). apply In_logOf in He as (x & Hx & [-> | ->]);
      apply isStartOf_true in Hs as (Hk & Hc & Ha); [eauto|discriminate].
  - intros (x & Hx & Hc & Ha). exists (startEventOf x). split.
    + apply In_logOf. eauto.
    + apply isStartOf_true. auto.
Qed.

Lemma Forall2_In_r {A B : Type} (P : A -> B -> Prop) l1 l2 y :
  Forall2 P l1 l2 -> In y l2 -> exists x, In x l1 /\ P x y.
Proof.
  induction 1 as [|a b l1 l2 Hab _ IH]; simpl; [intros []|].
  intros [->|H]; [eauto|]. destruct (IH H) as (x & Hx & HP). eauto.
Qed.

Lemma Forall2_In_l {A B : Type} (P : A -> B -> Prop) l1 l2 x :
  Forall2 P l1 l2 -> In x l1 -> exists y, In y l2 /\ P x y.
Proof.
  induction 1 as [|a b l1 l2 Hab _ IH]; simpl; [intros []|].
  intros [->|H]; [eauto|]. destruct (IH H) as (y & Hy & HP). eauto.
Qed.

Section Runs.
Variable random : nat -> float.
Variable sure : ProcessFlow.t -> bool.
Hypothesis sure_followed :
  forall f k, sure f = true ->
    orb (negb (conditional f))
      (random k <? Js.or_num (ProcessFlow.probability f) 1)%float = true.

(** A run on a non-empty activity list returns, and its log is the log of
    the traces of the cases 1, 2, ... in this order. *)
Lemma simulateProcess_trace caseStart processStructure scenario numInstances
    draws first rest :
  scenarioActivities processStructure scenario = first :: rest ->
  exists run xss,
    simulateProcess random caseStart processStructure scenario numInstances draws
    = Some (Normal run) /\
    Run.events run = logOf (concat xss) /\
    Run.draws run
    = draws + drawsOf (ProcessStructure.flows processStructure) (concat xss) /\
    Forall2
      (caseTrace random sure (first :: rest)
         (ProcessStructure.flows processStructure) (Js.new_Date caseStart) first)
      (seqZ 1 (Z.of_nat (Z.to_nat numInstances))) xss.
Proof.
  intros Hact. unfold simulateProcess. unfold scenarioActivities in Hact.
  rewrite Hact.
  destruct (caseLoop_trace random sure sure_followed caseStart first rest
              (ProcessStructure.flows processStructure) (Z.to_nat numInstances) 1
              (Run.mk [] (initResources (ProcessStructure.resources processStructure))
                 draws))
    as (run & xss & Hrun & HE & HD & HT).
  exists run, xss. auto.
Qed.

(** The executions of a run belong to its cases. *)
Lemma trace_member activities flows startTime first n xss x :
  Forall2 (caseTrace random sure activities flows startTime first)
    (seqZ 1 (Z.of_nat n)) xss ->
  In x (concat xss) ->
  exists xs,
    In x xs /\ In xs xss /\
    (1 <= Execution.caseId x <= Z.of_nat n)%Z /\
    caseTrace random sure activities flows startTime first (Execution.caseId x) xs.
Proof.
  intros HT Hx. apply in_concat in Hx as (xs & Hxs & Hx).
  destruct (Forall2_In_r _ _ _ _ HT Hxs) as (k & Hk & Htr).
  exists xs. split; [exact Hx|]. split; [exact Hxs|].
  pose proof Htr as (HF & _).
  rewrite List.Forall_forall in HF. destruct (HF x Hx) as (Hc & _).
  apply list_elem_of_In, elem_of_seqZ in Hk.
  rewrite Hc. split; [lia|exact Htr].
Qed.

End Runs.

Section RunProperties.
Variable random : nat -> float.

Lemma never_sure f (k : nat) :
  (fun _ : ProcessFlow.t => false) f = true ->
  orb (negb (conditional f))
    (random k <? Js.or_num (ProcessFlow.probability f) 1)%float = true.
Proof. discriminate. Qed.

(** Without activities a run leaves the log empty and takes no draw. *)
Lemma simulateProcess_no_activities caseStart processStructure scenario
    numInstances draws :
  scenarioActivities processStructure scenario = [] ->
  exists c,
    simulateProcess random caseStart processStructure scenario numInstances draws
    = Some c /\
    Run.events (stateOf c) = [] /\ Run.draws (stateOf c) = draws.
Proof.
  intros Hact. unfold simulateProcess. unfold scenarioActivities in Hact.
  rewrite Hact. destruct (Z.to_nat numInstances); eexists; simpl; eauto.
Qed.

(** The log of a run is the log of a sequence of executions, and the draws
    taken are theirs. *)
Lemma simulateProcess_log caseStart processStructure scenario numInstances draws :
  exists c xs,
    simulateProcess random caseStart processStructure scenario numInstances draws
    = Some c /\
    Run.events (stateOf c) = logOf xs /\
    Run.draws (stateOf c)
    = draws + drawsOf (ProcessStructure.flows processStructure) xs.
Proof.
  destruct (scenarioActivities processStructure scenario) as [|first rest] eqn:Hact.
  - destruct (simulateProcess_no_activities caseStart processStructure scenario
                numInstances draws Hact) as (c & Hc & HE & HD).
    exists c, []. rewrite HE, HD. unfold drawsOf. simpl. auto.
  - destruct (simulateProcess_trace random _ never_sure caseStart processStructure
                scenario numInstances draws first rest Hact)
      as (run & xss & Hrun & HE & HD & _).
    exists (Normal run), (concat xss). auto.
Qed.

(** X1.  The event log of a run is made of executions: it is the log of a
    sequence of executions, a start event followed by a complete event for
    each; every execution belongs to a case between 1 and [numInstances], is
    of an activity of the scenario's list, and has a duration sampled from
    the range of that activity.  This holds whether the run returns or
    throws. *)
Theorem run_log_is_executions caseStart processStructure scenario numInstances draws :
  exists c xs,
    simulateProcess random caseStart processStructure scenario numInstances draws
    = Some c /\
    Run.events (stateOf c) = logOf xs /\
    Forall (fun x =>
              (1 <= Execution.caseId x <= numInstances)%Z /\
              executionOf random (Execution.caseId x)
                (scenarioActivities processStructure scenario) x) xs.
Proof.
  destruct (scenarioActivities processStructure scenario) as [|first rest] eqn:Hact.
  - destruct (simulateProcess_no_activities caseStart processStructure scenario
                numInstances draws Hact) as (c & Hc & HE & _).
    exists c, []. rewrite HE. repeat split; auto.
  - destruct (simulateProcess_trace random _ never_sure caseStart processStructure
                scenario numInstances draws first rest Hact)
      as (run & xss & Hrun & HE & _ & HT).
    exists (Normal run), (concat xss). split; [exact Hrun|]. split; [exact HE|].
    apply List.Forall_forall. intros x Hx.
    destruct (trace_member random _ _ _ _ _ _ _ _ HT Hx)
      as (xs & Hxs & _ & Hk & (HF & _)).
    split; [lia|]. rewrite List.Forall_forall in HF. now apply HF.
Qed.


Lemma counts_logOf caseId activityId xs :
  completeCount caseId activityId (logOf xs)
  = startCount caseId activityId (logOf xs) /\
  length (logOf xs)
  = 2 * length (List.filter
                  (fun e => EventKind_eqb (SimulationEvent.event e) start)
                  (logOf xs)).
Proof.
  unfold completeCount, startCount.
  induction xs as [|x xs [IH1 IH2]]; [split; reflexivity|].
  change (logOf (x :: xs)) with (startEventOf x :: completeEventOf x :: logOf xs).
  cbn [List.filter].
  change (isCompleteOf caseId activityId (startEventOf x)) with false.
  change (isStartOf caseId activityId (completeEventOf x)) with false.
  change (EventKind_eqb (SimulationEvent.event (startEventOf x)) start) with true.
  change (EventKind_eqb (SimulationEvent.event (completeEventOf x)) start) with false.
  change (isCompleteOf caseId activityId (completeEventOf x))
    with (isStartOf caseId activityId (startEventOf x)).
  cbv iota. split.
  - destruct (isStartOf caseId activityId (startEventOf x)); simpl; lia.
  - simpl length. lia.
Qed.

(** X2.  In the log of a run every start event is matched: in each case
    each activity has as many complete events as start events, and the log
    holds twice as many events as start events. *)
Theorem started_activities_complete caseStart processStructure scenario
    numInstances draws :
  exists c,
    simulateProcess random caseStart processStructure scenario numInstances draws
    = Some c /\
    (forall caseId activityId,
       completeCount caseId activityId (Run.events (stateOf c))
       = startCount caseId activityId (Run.events (stateOf c))) /\
    length (Run.events (stateOf c))
    = 2 * length (List.filter
                    (fun e => EventKind_eqb (SimulationEvent.event e) start)
                    (Run.events (stateOf c))).
Proof.
  destruct (simulateProcess_log caseStart processStructure scenario
              numInstances draws) as (c & xs & Hc & HE & _).
  exists c. split; [exact Hc|]. rewrite HE. split.
  - intros caseId activityId. apply (counts_logOf caseId activityId xs).
  - apply (counts_logOf 0%Z "" xs).
Qed.

Lemma scenarioActivities_head processStructure scenario first :
  head (ProcessStructure.activities processStructure) = Some first ->
  exists first' rest',
    scenarioActivities processStructure scenario = first' :: rest' /\
    ProcessActivity.id first' = ProcessActivity.id first.
Proof.
  unfold scenarioActivities, applyScenarioModifications.
  destruct (ProcessStructure.activities processStructure) as [|a l]; [discriminate|].
  intros [= ->]. destruct (Scenario.modifications scenario) as [mods|]; simpl.
  - eexists _, _. split; [reflexivity|apply modifyActivity_id].
  - eauto.
Qed.

Lemma filter_all {A : Type} (f : A -> bool) l :
  (forall x, In x l -> f x = true) -> List.filter f l = l.
Proof.
  induction l as [|a l IH]; simpl; [reflexivity|]. intros H.
  rewrite (H a) by now left. f_equal. apply IH. intros x Hx. apply H. now right.
Qed.

(** The case ids of the log of the traces of the cases 1 to [n]. *)
Lemma trace_case_ids sure activities flows startTime first n xss k :
  Forall2 (caseTrace random sure activities flows startTime first)
    (seqZ 1 (Z.of_nat n)) xss ->
  In k (map SimulationEvent.caseId (logOf (concat xss))) <->
  (1 <= k <= Z.of_nat n)%Z.
Proof.
  intros HT. rewrite in_map_iff. split.
  - intros (e & <- & He). apply In_logOf in He as (x & Hx & He).
    destruct (trace_member random _ _ _ _ _ _ _ _ HT Hx) as (_ & _ & _ & Hk & _).
    destruct He as [-> | ->]; exact Hk.
  - intros Hk.
    assert (In k (seqZ 1 (Z.of_nat n))) as Hin
      by (apply list_elem_of_In, elem_of_seqZ; lia).
    destruct (Forall2_In_l _ _ _ _ HT Hin)
      as (xs & Hxs & HF & _ & (x & rest & -> & _) & _).
    apply List.Forall_inv in HF. destruct HF as (Hc & _).
    exists (startEventOf x). split; [exact Hc|].
    apply In_logOf. exists x. split; [|now left].
    apply in_concat. exists (x :: rest). split; [exact Hxs|now left].
Qed.

(** Every case of the traces is in the log, with a start and a complete
    event. *)
Lemma trace_case_counts sure activities flows startTime first n xss :
  Forall2 (caseTrace random sure activities flows startTime first)
    (seqZ 1 (Z.of_nat n)) xss ->
  caseCount (logOf (concat xss)) = n /\
  completedCaseCount (logOf (concat xss)) = n.
Proof.
  intros HT.
  assert (caseCount (logOf (concat xss)) = n) as Hcount.
  { unfold caseCount.
    replace (list_to_set (map SimulationEvent.caseId (logOf (concat xss))) : gset Z)
      with (list_to_set (seqZ 1 (Z.of_nat n)) : gset Z).
    - rewrite size_list_to_set by apply NoDup_seqZ. rewrite length_seqZ. lia.
    - apply set_eq. intros k. rewrite !elem_of_list_to_set, elem_of_seqZ.
      rewrite list_elem_of_In, (trace_case_ids _ _ _ _ _ _ _ k HT). lia. }
  split; [exact Hcount|].
  unfold completedCaseCount, caseCount in *. rewrite filter_all; [exact Hcount|].
  intros k Hk. apply in_map_iff in Hk as (e & <- & He).
  apply In_logOf in He as (x & Hx & He).
  assert (SimulationEvent.caseId e = Execution.caseId x) as ->
    by (destruct He as [-> | ->]; reflexivity).
  unfold hasEvent. rewrite andb_true_iff, !existsb_exists. split.
  - exists (startEventOf x). split; [apply In_logOf; eauto|].
    simpl. now rewrite Z.eqb_refl.
  - exists (completeEventOf x). split; [apply In_logOf; eauto|].
    simpl. now rewrite Z.eqb_refl.
Qed.

Lemma ForallOrdPairs_app {A : Type} (R : A -> A -> Prop) l1 l2 :
  ForallOrdPairs R l1 -> ForallOrdPairs R l2 ->
  (forall x y, In x l1 -> In y l2 -> R x y) ->
  ForallOrdPairs R (l1 ++ l2).
Proof.
  induction 1 as [|a l1 Ha _ IH]; intros H2 H12; simpl; [exact H2|].
  constructor.
  - apply Forall_app. split; [exact Ha|].
    apply List.Forall_forall. intros y Hy. apply H12; [now left|exact Hy].
  - apply IH; [exact H2|]. intros x y Hx Hy. apply H12; [now right|exact Hy].
Qed.

Lemma ordered_traces sure activities flows startTime first a n xss :
  Forall2 (caseTrace random sure activities flows startTime first)
    (seqZ a (Z.of_nat n)) xss ->
  ForallOrdPairs
    (fun e1 e2 => (SimulationEvent.caseId e1 <= SimulationEvent.caseId e2)%Z)
    (logOf (concat xss)) /\
  Forall (fun e => (a <= SimulationEvent.caseId e)%Z) (logOf (concat xss)).
Proof.
  revert a xss. induction n as [|n IH]; intros a xss HT.
  - inversion HT; subst. split; constructor.
  - rewrite seqZ_cons in HT by lia. inversion HT as [|k xs ks xss' Hk HT' E1 E2]; subst.
    replace (Z.pred (Z.of_nat (S n))) with (Z.of_nat n) in HT' by lia.
    destruct (IH _ _ HT') as [Hord Hlow].
    assert (Forall (fun e => SimulationEvent.caseId e = a) (logOf xs)) as Hxs.
    { destruct Hk as (HF & _). rewrite List.Forall_forall in HF |- *.
      intros e He. apply In_logOf in He as (x & Hx & He).
      destruct (HF x Hx) as (Hc & _). destruct He as [-> | ->]; exact Hc. }
    rewrite List.Forall_forall in Hxs, Hlow.
    simpl concat. rewrite logOf_app. split.
    + apply ForallOrdPairs_app; [|exact Hord|].
      * clear -Hxs. induction (logOf xs) as [|e l IHl]; constructor.
        -- apply List.Forall_forall. intros e' He'.
           rewrite (Hxs e) by now left. rewrite (Hxs e') by now right. lia.
        -- apply IHl. intros e' He'. apply Hxs. now right.
      * intros e1 e2 H1 H2. rewrite (Hxs e1 H1). specialize (Hlow e2 H2). lia.
    + apply Forall_app. split; apply List.Forall_forall; intros e He.
      * rewrite (Hxs e He). lia.
      * specialize (Hlow e He). lia.
Qed.

(** X4.  The log of a run is written case by case: the case ids never
    decrease along the log, and all lie between 1 and [numInstances]. *)
Theorem case_ids_ascend caseStart processStructure scenario numInstances draws :
  exists c,
    simulateProcess random caseStart processStructure scenario numInstances draws
    = Some c /\
    ForallOrdPairs
      (fun e1 e2 => (SimulationEvent.caseId e1 <= SimulationEvent.caseId e2)%Z)
      (Run.events (stateOf c)) /\
    Forall (fun e => (1 <= SimulationEvent.caseId e <= numInstances)%Z)
      (Run.events (stateOf c)).
Proof.
  destruct (scenarioActivities processStructure scenario) as [|first rest] eqn:Hact.
  - destruct (simulateProcess_no_activities caseStart processStructure scenario
                numInstances draws Hact) as (c & Hc & HE & _).
    exists c. rewrite HE. split; [exact Hc|]. split; constructor.
  - destruct (simulateProcess_trace random _ never_sure caseStart processStructure
                scenario numInstances draws first rest Hact)
      as (run & xss & Hrun & HE & _ & HT).
    exists (Normal run). split; [exact Hrun|]. simpl. rewrite HE.
    split; [apply (ordered_traces _ _ _ _ _ _ _ _ HT)|].
    apply List.Forall_forall. intros e He.
    assert (In (SimulationEvent.caseId e)
              (map SimulationEvent.caseId (logOf (concat xss)))) as Hin
      by (apply in_map; exact He).
    apply (trace_case_ids _ _ _ _ _ _ _ _ HT) in Hin. lia.
Qed.




(** X7.  A run starts only activities of the process, and only those
    whose id can be reached from the first activity of the list along
    flows. *)
Theorem only_reachable_activities_run caseStart processStructure scenario
    numInstances draws :
  exists c,
    simulateProcess random caseStart processStructure scenario numInstances draws
    = Some c /\
    forall caseId activityId,
      1 ≤ startCount caseId activityId (Run.events (stateOf c)) ->
      In activityId
        (map ProcessActivity.id (ProcessStructure.activities processStructure)) /\
      exists first,
        head (ProcessStructure.activities processStructure) = Some first /\
        reachable (ProcessStructure.flows processStructure)
          (ProcessActivity.id first) activityId.
Proof.
  destruct (scenarioActivities processStructure scenario) as [|first rest] eqn:Hact.
  - destruct (simulateProcess_no_activities caseStart processStructure scenario
                numInstances draws Hact) as (c & Hc & HE & _).
    exists c. split; [exact Hc|]. rewrite HE. unfold startCount. simpl. lia.
  - destruct (simulateProcess_trace random _ never_sure caseStart processStructure
                scenario numInstances draws first rest Hact)
      as (run & xss & Hrun & HE & _ & HT).
    exists (Normal run). split; [exact Hrun|]. simpl. rewrite HE.
    intros caseId a Ha.
    apply started_in_logOf in Ha as (x & Hx & Hc & Hid).
    destruct (trace_member random _ _ _ _ _ _ _ _ HT Hx)
      as (xs & Hxs & _ & _ & (HF & _ & _ & Hreach & _)).
    pose proof (applyScenarioModifications_ids
                  (ProcessStructure.activities processStructure)
                  (Scenario.modifications scenario)) as Hids.
    fold (scenarioActivities processStructure scenario) in Hids.
    rewrite Hact in Hids. split.
    + rewrite <- Hids, <- Hid. unfold executedId. apply in_map.
      rewrite List.Forall_forall in HF. now destruct (HF x Hxs) as (_ & Hin & _).
    + destruct (ProcessStructure.activities processStructure) as [|first0 rest0];
        [discriminate|].
      injection Hids as Hfirst _. exists first0. split; [reflexivity|].
      rewrite <- Hfirst. apply Hreach. rewrite <- Hid. now apply in_map.
Qed.



End RunProperties.


Section FixedDurations.
Variable random : nat -> float.

(** A range whose bounds are the same number gives this number. *)
Lemma randomBetween_fixed d n :
  plainNumber d = true -> unitInterval (random n) = true ->
  fst (randomBetween random d d n) = d.
Proof.
  unfold plainNumber, unitInterval, randomBetween. cbn [fst].
  rewrite andb_true_iff, FloatAxioms.leb_spec, FloatAxioms.ltb_spec.
  intros Hd [H0 H1]. apply float_eq_by_spec.
  rewrite FloatAxioms.add_spec, FloatAxioms.mul_spec, FloatAxioms.sub_spec.
  destruct (Prim2SF d) as [s|s| |s m e]; try discriminate.
  - destruct s; [discriminate|].
    destruct (Prim2SF (random n)) as [s'|s'| |s' m' e'];
      try discriminate; try (destruct s'; discriminate); destruct s'; reflexivity.
  - assert (SF64sub (S754_finite s m e) (S754_finite s m e) = S754_zero false) as ->.
    { unfold SF64sub, SFsub. rewrite Z.min_id. unfold shl_align.
      rewrite !Z.sub_diag. reflexivity. }
    destruct (Prim2SF (random n)) as [s'|s'| |s' m' e'];
      try discriminate; try (destruct s'; discriminate); reflexivity.
Qed.

(** X9.  With draws in [0, 1), an activity whose duration range has equal
    bounds, a finite number other than -0, always lasts exactly that long:
    every complete event of the log is the event of an activity of the
    scenario, with its id and its name, and carries the bound as its
    duration when the range of that activity is such. *)
Theorem fixed_durations_are_exact caseStart processStructure scenario
    numInstances draws :
  (forall n, unitInterval (random n) = true) ->
  exists c,
    simulateProcess random caseStart processStructure scenario numInstances draws
    = Some c /\
    Forall (fun e =>
              SimulationEvent.event e = complete ->
              exists a,
                In a (scenarioActivities processStructure scenario) /\
                SimulationEvent.activityId e = ProcessActivity.id a /\
                SimulationEvent.activity e = ProcessActivity.name a /\
                (ActivityDuration.min (ProcessActivity.duration a)
                 = ActivityDuration.max (ProcessActivity.duration a) ->
                 plainNumber (ActivityDuration.min (ProcessActivity.duration a)) = true ->
                 SimulationEvent.duration e
                 = Some (ActivityDuration.min (ProcessActivity.duration a))))
      (Run.events (stateOf c)).
Proof.
  intros Hunit.
  destruct (scenarioActivities processStructure scenario) as [|first rest] eqn:Hact.
  - destruct (simulateProcess_no_activities random caseStart processStructure
                scenario numInstances draws Hact) as (c & Hc & HE & _).
    exists c. rewrite HE. split; [exact Hc|constructor].
  - destruct (simulateProcess_trace random _ (never_sure random) caseStart
                processStructure scenario numInstances draws first rest Hact)
      as (run & xss & Hrun & HE & _ & HT).
    exists (Normal run). split; [exact Hrun|]. simpl. rewrite HE.
    apply List.Forall_forall. intros e He Hkind.
    apply In_logOf in He as (x & Hx & He).
    destruct He as [-> | ->]; [discriminate|].
    destruct (trace_member random _ _ _ _ _ _ _ _ HT Hx)
      as (xs & Hxs & _ & _ & (HF & _)).
    rewrite List.Forall_forall in HF. destruct (HF x Hxs) as (_ & Hin & n & Hn).
    exists (Execution.activity x). split; [exact Hin|].
    split; [reflexivity|]. split; [reflexivity|].
    intros Hsame Hplain. cbn [completeEventOf SimulationEvent.duration]. f_equal.
    rewrite Hn, <- Hsame. now apply randomBetween_fixed.
Qed.

End FixedDurations.

Lemma fixed_durations_are_exact_witness :
  exists c,
    simulateProcess halves utcStart (reviewThenPay None [clerk]) baseline 2 0
    = Some c /\
    Forall (fun e =>
              SimulationEvent.event e = complete ->
              SimulationEvent.duration e = Some 10%float
              \/ SimulationEvent.duration e = Some 5%float)
      (Run.events (stateOf c)).
Proof.
  destruct (fixed_durations_are_exact halves utcStart (reviewThenPay None [clerk])
              baseline 2 0 (fun _ => eq_refl)) as (c & Hc & Hall).
  exists c. split; [exact Hc|].
  eapply List.Forall_impl; [|exact Hall]. cbv beta.
  intros e He Hkind. destruct (He Hkind) as (a & Hin & _ & _ & Hd).
  destruct Hin as [<- | [<- | []]]; [left|right]; apply Hd; reflexivity.
Defined.

(** ** Scenarios *)

Lemma findModification_overrides scenario mods activity :
  Scenario.modifications scenario = Some mods ->
  findModification mods activity
  = find (fun m => String.eqb (ScenarioModification.id m)
                             (ProcessActivity.id activity)) (overrides scenario).
Proof.
  intros H. unfold findModification, overrides. rewrite H.
  now destruct (Modifications.activities mods).
Qed.

(** The activities of a scenario are computed from its activity overrides
    alone. *)
Lemma scenarioActivities_overrides processStructure scenario :
  scenarioActivities processStructure scenario
  = map (modifyActivity (Modifications.mk (Some (overrides scenario)) None))
      (ProcessStructure.activities processStructure).
Proof.
  unfold scenarioActivities, applyScenarioModifications.
  destruct (Scenario.modifications scenario) as [mods|] eqn:Hm.
  - apply map_ext. intros a. unfold modifyActivity.
    now rewrite (findModification_overrides scenario mods a Hm).
  - unfold overrides. rewrite Hm. symmetry. etransitivity; [|apply map_id].
    apply map_ext. intros a. reflexivity.
Qed.

(** X10.  A scenario acts on a run through its activity overrides alone:
    two scenarios with the same activity overrides give the same run,
    whatever their names, descriptions and resource modifications. *)
Theorem only_activity_overrides_matter random caseStart processStructure
    scenario1 scenario2 numInstances draws :
  overrides scenario1 = overrides scenario2 ->
  simulateProcess random caseStart processStructure scenario1 numInstances draws
  = simulateProcess random caseStart processStructure scenario2 numInstances draws.
Proof.
  intros H. unfold simulateProcess.
  fold (scenarioActivities processStructure scenario1).
  fold (scenarioActivities processStructure scenario2).
  now rewrite !scenarioActivities_overrides, H.
Qed.

(** X11.  The modifications of a scenario keep the activities position by
    position, and never change the id, name, type, performer or probability
    of an activity. *)
Theorem modifications_keep_identity activities modifications :
  Forall2 sameButOverridden activities
    (applyScenarioModifications activities modifications).
Proof.
  unfold applyScenarioModifications. destruct modifications as [mods|].
  - induction activities as [|a l IH]; simpl; constructor; [|exact IH].
    unfold modifyActivity, sameButOverridden.
    destruct (findModification mods a); simpl; auto.
  - induction activities as [|a l IH]; constructor; [|exact IH].
    unfold sameButOverridden. auto.
Qed.

Lemma or_num_twice c x : Js.or_num c (Js.or_num c x) = Js.or_num c x.
Proof. unfold Js.or_num. now destruct (Js.truthy c). Qed.

Lemma findModification_modifyActivity mods mods' activity :
  findModification mods (modifyActivity mods' activity) = findModification mods activity.
Proof. unfold findModification. now rewrite modifyActivity_id. Qed.

(** X12.  Applying the modifications of a scenario twice gives the same
    activities as applying them once. *)
Theorem modifications_apply_once activities modifications :
  applyScenarioModifications
    (applyScenarioModifications activities modifications) modifications
  = applyScenarioModifications activities modifications.
Proof.
  unfold applyScenarioModifications. destruct modifications as [mods|]; [|reflexivity].
  rewrite map_map. apply map_ext. intros a.
  unfold modifyActivity at 1. rewrite findModification_modifyActivity.
  unfold modifyActivity. destruct (findModification mods a) as [m|]; [|reflexivity].
  simpl. f_equal.
  - now destruct (ScenarioModification.duration m).
  - destruct (ScenarioModification.cost m); [apply or_num_twice|reflexivity].
  - destruct (ScenarioModification.resources m); [apply or_num_twice|reflexivity].
Qed.

Lemma find_known activities ms a :
  In a activities ->
  find (fun m => String.eqb (ScenarioModification.id m) (ProcessActivity.id a))
    (List.filter (knownId activities) ms)
  = find (fun m => String.eqb (ScenarioModification.id m) (ProcessActivity.id a)) ms.
Proof.
  intros Ha. induction ms as [|m ms IH]; simpl; [reflexivity|].
  destruct (String.eqb (ScenarioModification.id m) (ProcessActivity.id a)) eqn:E.
  - assert (knownId activities m = true) as ->.
    { unfold knownId. apply existsb_exists. eauto. }
    simpl. now rewrite E.
  - destruct (knownId activities m); simpl; [now rewrite E|exact IH].
Qed.

(** X13.  Overrides whose id is not the id of an activity are never used:
    removing them changes nothing. *)
Theorem unknown_ids_are_unused activities ms resources :
  applyScenarioModifications activities (Some (Modifications.mk (Some ms) resources))
  = applyScenarioModifications activities
      (Some (Modifications.mk (Some (List.filter (knownId activities) ms)) resources)).
Proof.
  unfold applyScenarioModifications. apply map_ext_in. intros a Ha.
  unfold modifyActivity, findModification. simpl.
  now rewrite (find_known activities ms a Ha).
Qed.

Lemma find_first_wins (m : ScenarioModification.t) ms key :
  find (fun m' => String.eqb (ScenarioModification.id m') key)
    (m :: List.filter
            (fun m' => negb (String.eqb (ScenarioModification.id m')
                                        (ScenarioModification.id m))) ms)
  = find (fun m' => String.eqb (ScenarioModification.id m') key) (m :: ms).
Proof.
  simpl. destruct (String.eqb_spec (ScenarioModification.id m) key) as [He|Hne];
    [reflexivity|].
  induction ms as [|m' ms IH]; simpl; [reflexivity|].
  destruct (String.eqb_spec (ScenarioModification.id m') (ScenarioModification.id m))
    as [He'|Hne']; simpl.
  - rewrite IH. destruct (String.eqb_spec (ScenarioModification.id m') key);
      [congruence|reflexivity].
  - now rewrite IH.
Qed.

(** X14.  Of several overrides with the same id only the first is used:
    removing the later overrides that share the id of the first one changes
    nothing. *)
Theorem first_modification_wins activities m ms resources :
  applyScenarioModifications activities
    (Some (Modifications.mk (Some (m :: ms)) resources))
  = applyScenarioModifications activities
      (Some (Modifications.mk
               (Some (m :: List.filter
                             (fun m' => negb (String.eqb (ScenarioModification.id m')
                                                         (ScenarioModification.id m)))
                             ms)) resources)).
Proof.
  unfold applyScenarioModifications. apply map_ext. intros a.
  unfold modifyActivity, findModification.
  cbn [Modifications.activities]. now rewrite find_first_wins.
Qed.

Lemma only_activity_overrides_matter_witness :
  simulateProcess halves utcStart (reviewThenPay None [clerk]) baseline 2 0
  = simulateProcess halves utcStart (reviewThenPay None [clerk]) moreStaff 2 0.
Proof.
  apply (only_activity_overrides_matter halves utcStart (reviewThenPay None [clerk])
           baseline moreStaff 2 0).
  reflexivity.
Defined.

(** ** The log after the metrics *)

Lemma insert_sorted_Permutation {A : Type} (after : A -> A -> bool) x l :
  Js.insert_sorted after x l ≡ₚ x :: l.
Proof.
  induction l as [|y l IH]; simpl; [reflexivity|].
  destruct (after x y); [|reflexivity].
  rewrite IH. apply Permutation_swap.
Qed.

Lemma sort_Permutation {A : Type} (after : A -> A -> bool) l :
  Js.sort after l ≡ₚ l.
Proof.
  induction l as [|x l IH]; simpl; [reflexivity|].
  now rewrite insert_sorted_Permutation, IH.
Qed.

Lemma sort_ordered {A : Type} (after : A -> A -> bool) l :
  ForallOrdPairs (fun a b => after a b = false) l -> Js.sort after l = l.
Proof.
  induction 1 as [|x l Hx _ IH]; simpl; [reflexivity|].
  rewrite IH. destruct l as [|y l]; simpl; [reflexivity|].
  now rewrite (Forall_inv Hx).
Qed.

(** X15.  After [calculatePerformanceMetrics] the caller's array holds the
    events it held before, possibly in another order: it is a permutation
    of the log, of the same length. *)
Theorem metrics_keep_the_events events resourceUtil processStructure :
  snd (calculatePerformanceMetrics events resourceUtil processStructure) ≡ₚ events /\
  length (snd (calculatePerformanceMetrics events resourceUtil processStructure))
  = length events.
Proof.
  rewrite calculatePerformanceMetrics_sorts. unfold sortByTimestamp.
  pose proof (sort_Permutation
                (fun a b => (0 <? SimulationEvent.timestamp a
                                  - SimulationEvent.timestamp b)%float) events) as H.
  split; [exact H|]. now apply Permutation_length.
Qed.

(** X16.  A log in which no event is later than an event that follows it
    is left as it is by [calculatePerformanceMetrics]. *)
Theorem ordered_log_is_unchanged events resourceUtil processStructure :
  timeOrdered events ->
  snd (calculatePerformanceMetrics events resourceUtil processStructure) = events.
Proof.
  intros H. rewrite calculatePerformanceMetrics_sorts. unfold sortByTimestamp.
  now apply (sort_ordered
               (fun a b => (0 <? SimulationEvent.timestamp a
                                 - SimulationEvent.timestamp b)%float)).
Qed.

Lemma ordered_log_is_unchanged_witness :
  timeOrdered reviewedThenPaid /\
  snd (calculatePerformanceMetrics reviewedThenPaid ∅ (reviewThenPay None [clerk]))
  = reviewedThenPaid.
Proof.
  assert (timeOrdered reviewedThenPaid) as Hordered
    by (unfold timeOrdered, reviewedThenPaid; repeat constructor).
  split; [exact Hordered|].
  exact (ordered_log_is_unchanged reviewedThenPaid ∅ (reviewThenPay None [clerk])
           Hordered).
Defined.

(** ** The metrics call *)

Lemma plainLog_In events e :
  plainLog events = true -> In e events ->
  Js.inherited (SimulationEvent.activity e) = false.
Proof.
  unfold plainLog. rewrite forallb_forall. intros H He.
  apply negb_true_iff. now apply H.
Qed.

Lemma plainLog_sort events :
  plainLog events = true -> plainLog (sortByTimestamp events) = true.
Proof.
  unfold plainLog. rewrite !forallb_forall. intros H e He. apply H.
  apply list_elem_of_In. apply list_elem_of_In in He.
  unfold sortByTimestamp in He. now rewrite sort_Permutation in He.
Qed.

(** On a plain log the loop of [calculateWaitingTimes] does not throw. *)
Lemma Call_waitingStep_plain l :
  plainLog l = true ->
  forall st, fold_left Call.waitingStep l (inr st) = inr (fold_left waitingStep l st).
Proof.
  induction l as [|e l IH]; intros Hl st; [reflexivity|].
  cbn [plainLog forallb] in Hl. apply andb_true_iff in Hl as [He Hl].
  apply negb_true_iff in He. cbn [fold_left].
  assert (Call.waitingStep (inr st) e = inr (waitingStep st e)) as ->.
  { destruct st as [waiting lastEnd]. unfold Call.waitingStep, waitingStep.
    rewrite He.
    destruct (SimulationEvent.event e);
      destruct (lastEnd !! SimulationEvent.caseId e); reflexivity. }
  now apply IH.
Qed.

(** It throws at a start event of an inherited name that follows a complete
    event of its case. *)
Lemma Call_waitingStep_throws waiting lastEnd e last :
  SimulationEvent.event e = start ->
  lastEnd !! SimulationEvent.caseId e = Some last ->
  Js.inherited (SimulationEvent.activity e) = true ->
  Call.waitingStep (inr (waiting, lastEnd)) e = inl push_error.
Proof. intros Hs Hl Hi. unfold Call.waitingStep. now rewrite Hs, Hl, Hi. Qed.

(** On a plain log the call returns, with the metrics and the array of the
    computation in which [push] succeeds. *)
Lemma Call_metrics_plain events resourceUtil processStructure :
  plainLog events = true ->
  Call.calculatePerformanceMetrics events resourceUtil processStructure
  = (inr (fst (calculatePerformanceMetrics events resourceUtil processStructure)),
     snd (calculatePerformanceMetrics events resourceUtil processStructure)).
Proof.
  intros Hplain.
  unfold Call.calculatePerformanceMetrics, Call.calculateWaitingTimes,
    calculatePerformanceMetrics, calculateWaitingTimes.
  rewrite (Call_waitingStep_plain _ (plainLog_sort _ Hplain)).
  destruct (fold_left waitingStep (sortByTimestamp events) (∅, ∅)) as [w l].
  reflexivity.
Qed.

(** A process whose second activity is called [toString]: the run returns,
    the metrics call throws, and so does the exported function. *)
Example metrics_call_throws :
  exists run,
    simulateProcess halves utcStart reviewThenToString baseline 1 0
    = Some (Normal run) /\
    length (Run.events run) = 4 /\
    fst (Call.calculatePerformanceMetrics (Run.events run)
           (Run.resourceUtilization run) reviewThenToString)
    = inl push_error /\
    Api.simulateProcess halves utcStart reviewThenToString [baseline] 1 0
    = Some (Throw push_error ([], 2)).
Proof.
  eexists. split; [vm_compute; reflexivity|].
  repeat split; vm_compute; reflexivity.
Qed.

Lemma modifyActivity_name mods activity :
  ProcessActivity.name (modifyActivity mods activity) = ProcessActivity.name activity.
Proof. unfold modifyActivity. now destruct (findModification mods activity). Qed.

Lemma scenarioActivities_names processStructure scenario a :
  In a (scenarioActivities processStructure scenario) ->
  In (ProcessActivity.name a)
    (map ProcessActivity.name (ProcessStructure.activities processStructure)).
Proof.
  unfold scenarioActivities, applyScenarioModifications.
  destruct (Scenario.modifications scenario) as [mods|]; [|apply in_map].
  rewrite in_map_iff. intros (a0 & <- & Ha0).
  rewrite modifyActivity_name. now apply in_map.
Qed.

Lemma plainNames_activity processStructure a :
  plainNames processStructure = true ->
  In (ProcessActivity.name a)
    (map ProcessActivity.name (ProcessStructure.activities processStructure)) ->
  Js.inherited (ProcessActivity.name a) = false.
Proof.
  unfold plainNames. rewrite andb_true_iff, !forallb_forall.
  intros [Hact _] Hin. apply in_map_iff in Hin as (a0 & Hname & Ha0).
  rewrite <- Hname. apply negb_true_iff. now apply Hact.
Qed.

Lemma plainNames_roles processStructure :
  plainNames processStructure = true ->
  declaredRoles processStructure ∖ {["__proto__"]} = declaredRoles processStructure.
Proof.
  unfold plainNames, declaredRoles. rewrite andb_true_iff, !forallb_forall.
  intros [_ Hroles]. apply set_eq. intros role.
  rewrite elem_of_difference, elem_of_singleton, elem_of_list_to_set.
  split; [tauto|]. intros Hin. split; [exact Hin|]. intros ->.
  apply list_elem_of_In, in_map_iff in Hin as (r & Hr & Hin).
  specialize (Hroles r Hin). rewrite Hr in Hroles. discriminate.
Qed.

Section PlainRuns.
Variable random : nat -> float.

(** The log of a run of a process with plain names is plain. *)
Lemma run_log_plain caseStart processStructure scenario numInstances draws c :
  plainNames processStructure = true ->
  simulateProcess random caseStart processStructure scenario numInstances draws
  = Some c ->
  plainLog (Run.events (stateOf c)) = true.
Proof.
  intros Hplain Hc.
  destruct (scenarioActivities processStructure scenario) as [|first rest] eqn:Hact.
  - destruct (simulateProcess_no_activities random caseStart processStructure
                scenario numInstances draws Hact) as (c' & Hc' & HE & _).
    rewrite Hc in Hc'. injection Hc' as <-. now rewrite HE.
  - destruct (simulateProcess_trace random _ (never_sure random) caseStart
                processStructure scenario numInstances draws first rest Hact)
      as (run & xss & Hrun & HE & _ & HT).
    rewrite Hc in Hrun. injection Hrun as ->. cbn [stateOf]. rewrite HE.
    unfold plainLog. apply forallb_forall. intros e He.
    apply In_logOf in He as (x & Hx & He).
    destruct (trace_member random _ _ _ _ _ _ _ _ HT Hx)
      as (xs & Hxs & _ & _ & (HF & _)).
    rewrite List.Forall_forall in HF. destruct (HF x Hxs) as (_ & Hin & _).
    rewrite <- Hact in Hin. apply scenarioActivities_names in Hin.
    apply (plainNames_activity _ _ Hplain) in Hin. apply negb_true_iff.
    destruct He as [-> | ->]; exact Hin.
Qed.

(** For a run of a process with plain names the metrics call returns. *)
Lemma run_metrics_return caseStart processStructure scenario numInstances draws c :
  plainNames processStructure = true ->
  simulateProcess random caseStart processStructure scenario numInstances draws
  = Some c ->
  Call.calculatePerformanceMetrics (Run.events (stateOf c))
    (Run.resourceUtilization (stateOf c)) processStructure
  = (inr (fst (calculatePerformanceMetrics (Run.events (stateOf c))
                 (Run.resourceUtilization (stateOf c)) processStructure)),
     snd (calculatePerformanceMetrics (Run.events (stateOf c))
            (Run.resourceUtilization (stateOf c)) processStructure)).
Proof.
  intros Hplain Hc. apply Call_metrics_plain.
  exact (run_log_plain _ _ _ _ _ _ Hplain Hc).
Qed.

End PlainRuns.

(** ** The figures of the cases *)

Lemma JsObject_get_insert_new {V : Type} (o : list (Z * V)) k v k' :
  JsObject.get o k = None ->
  JsObject.get (JsObject.insert_new o k v) k'
  = if (k =? k')%Z then Some v else JsObject.get o k'.
Proof.
  induction o as [|[k0 v0] o IH]; simpl; [reflexivity|].
  destruct (Z.eqb_spec k0 k) as [->|Hne]; [discriminate|]. intros Hget.
  destruct (_ && _); simpl; [reflexivity|].
  rewrite (IH Hget).
  destruct (Z.eqb_spec k0 k') as [->|Hne']; [|reflexivity].
  destruct (Z.eqb_spec k k'); [congruence|reflexivity].
Qed.

Lemma JsObject_get_replace {V : Type} (o : list (Z * V)) k v k' :
  JsObject.get o k <> None ->
  JsObject.get (JsObject.replace o k v) k'
  = if (k =? k')%Z then Some v else JsObject.get o k'.
Proof.
  induction o as [|[k0 v0] o IH]; simpl; [congruence|].
  destruct (Z.eqb_spec k0 k) as [->|Hne]; simpl.
  - intros _. destruct (Z.eqb_spec k k'); reflexivity.
  - intros Hget. rewrite (IH Hget).
    destruct (Z.eqb_spec k0 k') as [->|Hne']; [|reflexivity].
    destruct (Z.eqb_spec k k'); [congruence|reflexivity].
Qed.

Lemma JsObject_get_set {V : Type} (o : list (Z * V)) k v k' :
  JsObject.get (JsObject.set o k v) k'
  = if (k =? k')%Z then Some v else JsObject.get o k'.
Proof.
  unfold JsObject.set. destruct (JsObject.get o k) eqn:Hget.
  - apply JsObject_get_replace. congruence.
  - now apply JsObject_get_insert_new.
Qed.

Lemma caseEvents_app kind k l1 l2 :
  caseEvents kind k (l1 ++ l2) = caseEvents kind k l1 ++ caseEvents kind k l2.
Proof. apply List.filter_app. Qed.

(** One more event changes the entry of its case as the loop body does. *)
Lemma recordOf_snoc k events e :
  recordOf k (events ++ [e])
  = if (SimulationEvent.caseId e =? k)%Z
    then
      match SimulationEvent.event e with
      | start =>
          CaseRecord.mk
            (match firstStart k events with
             | Some s => Some s
             | None => Some (SimulationEvent.timestamp e)
             end)
            (lastComplete k events) (caseCost k events)
            (CaseRecord.activities (recordOf k events))
      | complete =>
          CaseRecord.mk (firstStart k events)
            (Some (SimulationEvent.timestamp e))
            (caseCost k events + SimulationEvent.cost e)%float
            (CaseRecord.activities (recordOf k events)
             ++ [(SimulationEvent.activity e, SimulationEvent.duration e)])
      end
    else recordOf k events.
Proof.
  unfold recordOf, firstStart, lastComplete, caseCost.
  rewrite !caseEvents_app. unfold caseEvents at 2 4 6 8. cbn [List.filter].
  destruct (Z.eqb_spec (SimulationEvent.caseId e) k) as [Hk|Hk];
    destruct (SimulationEvent.event e); cbn [EventKind_eqb andb app];
    rewrite ?app_nil_r; try reflexivity.
  - cbn [CaseRecord.activities]. f_equal.
    rewrite map_app. cbn [map].
    destruct (map SimulationEvent.timestamp (caseEvents start k events));
      reflexivity.
  - cbn [CaseRecord.activities]. rewrite !map_app. cbn [map].
    rewrite last_snoc, sum_snoc. reflexivity.
Qed.

Lemma recordOf_absent k events :
  existsb (fun e => (SimulationEvent.caseId e =? k)%Z) events = false ->
  firstStart k events = None /\ lastComplete k events = None /\
  caseCost k events = 0%float /\
  caseEvents complete k events = [].
Proof.
  intros Hex.
  assert (forall kind, caseEvents kind k events = []) as Hnone.
  { intros kind. unfold caseEvents. induction events as [|a l IHl]; [reflexivity|].
    simpl in Hex |- *. apply orb_false_iff in Hex as [-> Hl].
    rewrite andb_false_r. now apply IHl. }
  unfold firstStart, lastComplete, caseCost. rewrite !Hnone. auto.
Qed.

(** The entry of a case in [cases] is the one read off the log. *)
Lemma buildCases_get events k :
  JsObject.get (buildCases events) k
  = if existsb (fun e => (SimulationEvent.caseId e =? k)%Z) events
    then Some (recordOf k events) else None.
Proof.
  induction events as [|e events IH] using rev_ind; [reflexivity|].
  unfold buildCases in *. rewrite fold_left_app. cbn [fold_left].
  unfold recordEvent at 1. cbv zeta. rewrite JsObject_get_set.
  rewrite existsb_app. cbn [existsb]. rewrite recordOf_snoc.
  destruct (Z.eqb_spec (SimulationEvent.caseId e) k) as [Hk|Hk].
  - rewrite orb_true_r. f_equal. subst k. rewrite IH.
    destruct (existsb _ events) eqn:Hex.
    + unfold recordOf.
      destruct (SimulationEvent.event e); cbn;
        destruct (firstStart (SimulationEvent.caseId e) events); reflexivity.
    + destruct (recordOf_absent _ _ Hex) as (-> & -> & -> & Hnone).
      unfold recordOf. rewrite Hnone.
      destruct (SimulationEvent.event e); reflexivity.
  - rewrite !orb_false_r. exact IH.
Qed.

Lemma flat_map_ext_In {A B : Type} (f g : A -> list B) l :
  (forall a, In a l -> f a = g a) -> flat_map f l = flat_map g l.
Proof.
  induction l as [|a l IH]; [reflexivity|]. intros H. cbn [flat_map].
  rewrite (H a) by now left. f_equal. apply IH. intros b Hb. apply H. now right.
Qed.

Lemma JsObject_values_by_keys {V A : Type} (g : V -> list A) (o : list (Z * V)) :
  NoDup (JsObject.keys o) ->
  flat_map g (JsObject.values o)
  = flat_map (fun k => match JsObject.get o k with Some c => g c | None => [] end)
      (JsObject.keys o).
Proof.
  induction o as [|[k v] o IH]; [reflexivity|].
  cbn [JsObject.keys JsObject.values map flat_map fst snd JsObject.get].
  rewrite Z.eqb_refl. intros Hnd. apply NoDup_cons in Hnd as [Hk Hnd].
  f_equal. fold (JsObject.values o). fold (JsObject.keys o). rewrite (IH Hnd).
  apply flat_map_ext_In. intros k' Hk'.
  destruct (Z.eqb_spec k k') as [->|Hne]; [|reflexivity].
  exfalso. apply Hk. now apply list_elem_of_In.
Qed.

Lemma buildCases_names events :
  NoDup (JsObject.keys (buildCases events)) /\
  forall k, In k (JsObject.keys (buildCases events))
            <-> In k (map SimulationEvent.caseId events).
Proof.
  destruct (buildCases_keys events [] (NoDup_nil_2)) as [Hnd Hk].
  split; [exact Hnd|]. intros k. fold (buildCases events) in Hk.
  rewrite <- !list_elem_of_In.
  rewrite <- (elem_of_list_to_set (C := gset Z)), Hk. set_solver.
Qed.

(** The pairs that enter the statistics are the figures of the cases, in
    the order of the property names of [cases]. *)
Lemma completedCases_figures events :
  completedCases (buildCases events)
  = flat_map (caseFigures events) (JsObject.keys (buildCases events)).
Proof.
  destruct (buildCases_names events) as [Hnd Hk].
  unfold completedCases. rewrite (JsObject_values_by_keys _ _ Hnd).
  apply flat_map_ext_In. intros k Hin. rewrite buildCases_get.
  apply Hk in Hin. apply in_map_iff in Hin as (e & He & Hin).
  assert (existsb (fun e => (SimulationEvent.caseId e =? k)%Z) events = true) as ->.
  { apply existsb_exists. exists e. split; [exact Hin|]. now apply Z.eqb_eq. }
  reflexivity.
Qed.

Lemma hasEvent_caseEvents kind k events :
  hasEvent kind k events
  = match caseEvents kind k events with [] => false | _ => true end.
Proof.
  unfold hasEvent, caseEvents. induction events as [|e l IH]; [reflexivity|].
  cbn [existsb List.filter]. destruct (_ && _); [reflexivity|exact IH].
Qed.

Lemma caseFigures_length events k :
  length (caseFigures events k)
  = if hasEvent start k events && hasEvent complete k events then 1 else 0.
Proof.
  unfold caseFigures, firstStart, lastComplete. rewrite !hasEvent_caseEvents.
  destruct (caseEvents start k events) as [|s ss]; [reflexivity|].
  destruct (caseEvents complete k events) as [|c cs]; [reflexivity|].
  cbn [map head andb].
  destruct (last (SimulationEvent.timestamp c :: map SimulationEvent.timestamp cs))
    eqn:Hlast; [reflexivity|].
  apply last_None in Hlast. discriminate.
Qed.

Lemma figures_count events ids :
  length (flat_map (caseFigures events) ids)
  = length (List.filter
              (fun c => hasEvent start c events && hasEvent complete c events) ids).
Proof.
  induction ids as [|k ids IH]; [reflexivity|].
  cbn [flat_map List.filter]. rewrite length_app, caseFigures_length, IH.
  destruct (_ && _); reflexivity.
Qed.

(** As many pairs enter the statistics as there are cases with a start and
    a complete event. *)
Lemma completedCases_count events ids :
  NoDup ids ->
  (forall k, In k ids <-> In k (map SimulationEvent.caseId events)) ->
  length (flat_map (caseFigures events) ids) = completedCaseCount events.
Proof.
  intros Hnd Hk. rewrite figures_count. unfold completedCaseCount.
  rewrite <- (size_list_to_set (C := gset Z)).
  - f_equal. apply set_eq. intros k.
    rewrite !elem_of_list_to_set, !list_elem_of_In, !filter_In, Hk. tauto.
  - apply NoDup_ListNoDup, List.NoDup_filter, NoDup_ListNoDup, Hnd.
Qed.

(** X18.  For a log in which no activity has a name inherited from
    [Object.prototype], the metrics call returns, and its throughput and
    cost statistics range over the cases that have a start event and a
    complete event: each enters with the time from its first start event to
    its last complete event, in hours, and with the sum of the costs of its
    complete events; the averages divide by the number of these cases. *)
Theorem statistics_are_of_completed_cases events resourceUtil processStructure :
  plainLog events = true ->
  exists metrics ids,
    fst (Call.calculatePerformanceMetrics events resourceUtil processStructure)
    = inr metrics /\
    NoDup ids /\
    (forall k, In k ids <-> In k (map SimulationEvent.caseId events)) /\
    let figures := flat_map (caseFigures events) ids in
    length figures = completedCaseCount events /\
    ThroughputMetrics.avg (PerformanceMetrics.throughput metrics)
    = (Js.sum (map fst figures) / Js.of_nat (completedCaseCount events))%float /\
    ThroughputMetrics.min (PerformanceMetrics.throughput metrics)
    = Js.Math_min (map fst figures) /\
    ThroughputMetrics.max (PerformanceMetrics.throughput metrics)
    = Js.Math_max (map fst figures) /\
    PerformanceMetrics.cost metrics
    = CostMetrics.mk
        (Js.sum (map snd figures) / Js.of_nat (completedCaseCount events))
        (Js.sum (map snd figures)).
Proof.
  intros Hplain.
  destruct (buildCases_names events) as [Hnd Hk].
  exists (fst (calculatePerformanceMetrics events resourceUtil processStructure)),
    (JsObject.keys (buildCases events)).
  split; [now rewrite Call_metrics_plain|].
  split; [exact Hnd|]. split; [exact Hk|]. cbv zeta.
  pose proof (completedCases_count events _ Hnd Hk) as Hlen.
  split; [exact Hlen|].
  unfold calculatePerformanceMetrics.
  destruct (calculateWaitingTimes events) as [w e'].
  cbn [fst PerformanceMetrics.throughput PerformanceMetrics.cost
       ThroughputMetrics.avg ThroughputMetrics.min ThroughputMetrics.max].
  rewrite !length_map, completedCases_figures, Hlen. repeat split.
Qed.

Lemma statistics_are_of_completed_cases_witness :
  exists metrics ids,
    fst (Call.calculatePerformanceMetrics reviewedThenPaid ∅
           (reviewThenPay None [clerk])) = inr metrics /\
    length (flat_map (caseFigures reviewedThenPaid) ids)
    = completedCaseCount reviewedThenPaid /\
    completedCaseCount reviewedThenPaid = 1 /\
    ThroughputMetrics.max (PerformanceMetrics.throughput metrics)
    = Js.Math_max (map fst (flat_map (caseFigures reviewedThenPaid) ids)).
Proof.
  destruct (statistics_are_of_completed_cases reviewedThenPaid ∅
              (reviewThenPay None [clerk]) eq_refl)
    as (metrics & ids & Hm & _ & _ & Hlen & _ & _ & Hmax & _).
  exists metrics, ids. split; [exact Hm|]. split; [exact Hlen|].
  split; [vm_compute; reflexivity|exact Hmax].
Defined.

(** ** Waiting times *)

(** The entry of [waiting] for a list of waits: none for no wait. *)
Lemma waitingStep_waits events : forall prefix waiting lastEnd (acc : string -> list float),
  (forall k, lastEnd !! k = lastComplete k prefix) ->
  (forall name,
     waiting !! name = match acc name with [] => None | ws => Some ws end) ->
  forall name,
    fst (fold_left waitingStep events (waiting, lastEnd)) !! name
    = match acc name ++ waitsOf name prefix events with
      | [] => None
      | ws => Some ws
      end.
Proof.
  induction events as [|e rest IH]; intros prefix waiting lastEnd acc Hlast Hacc name.
  - cbn [fold_left fst waitsOf]. rewrite app_nil_r. apply Hacc.
  - cbn [fold_left waitsOf].
    set (extra := fun n : string =>
           match SimulationEvent.event e,
                 lastComplete (SimulationEvent.caseId e) prefix with
           | start, Some last =>
               if String.eqb (SimulationEvent.activity e) n
               then [((SimulationEvent.timestamp e - last) / (1000 * 60))%float]
               else []
           | _, _ => []
           end).
    change (match SimulationEvent.event e,
                  lastComplete (SimulationEvent.caseId e) prefix with
            | start, Some last =>
                if String.eqb (SimulationEvent.activity e) name
                then [((SimulationEvent.timestamp e - last) / (1000 * 60))%float]
                else []
            | _, _ => []
            end) with (extra name).
    rewrite app_assoc.
    destruct (waitingStep (waiting, lastEnd) e) as [waiting' lastEnd'] eqn:Hstep.
    apply (IH (prefix ++ [e]) waiting' lastEnd' (fun n => acc n ++ extra n)).
    + intros k. unfold waitingStep in Hstep. injection Hstep as _ <-.
      unfold lastComplete. rewrite caseEvents_app, map_app.
      unfold caseEvents at 2. cbn [List.filter].
      destruct (SimulationEvent.event e); cbn [EventKind_eqb andb].
      * cbn [map]. rewrite app_nil_r. apply Hlast.
      * rewrite lookup_insert. case_decide as Hk.
        -- subst k. rewrite Z.eqb_refl. cbn [map]. now rewrite last_snoc.
        -- apply Z.eqb_neq in Hk. rewrite Hk. cbn [map]. rewrite app_nil_r.
           apply Hlast.
    + intros n. unfold waitingStep in Hstep. injection Hstep as <- _.
      subst extra. cbv beta. rewrite <- Hlast.
      destruct (SimulationEvent.event e);
        [|rewrite app_nil_r; apply Hacc].
      destruct (lastEnd !! SimulationEvent.caseId e) as [last|];
        [|rewrite app_nil_r; apply Hacc].
      rewrite lookup_insert. case_decide as Hn.
      * subst n. rewrite String.eqb_refl, Hacc.
        destruct (acc (SimulationEvent.activity e)); reflexivity.
      * apply String.eqb_neq in Hn. rewrite Hn, app_nil_r. apply Hacc.
Qed.

(** X17.  For a log in which no activity has a name inherited from
    [Object.prototype], the metrics call returns, and [waitingTime] has an
    entry exactly for the activities that have a wait: the average of the
    waits of the activity, read off the array in the order in which the
    call leaves it.  No entry is the average of no wait. *)
Theorem waiting_times_average_the_waits events resourceUtil processStructure :
  plainLog events = true ->
  exists metrics,
    fst (Call.calculatePerformanceMetrics events resourceUtil processStructure)
    = inr metrics /\
    forall name,
      PerformanceMetrics.waitingTime metrics !! name
      = averageWait
          (waitsOf name []
             (snd (Call.calculatePerformanceMetrics events resourceUtil
                     processStructure))).
Proof.
  intros Hplain. rewrite (Call_metrics_plain _ _ _ Hplain).
  eexists. split; [reflexivity|]. intros name. cbn [snd].
  unfold calculatePerformanceMetrics, calculateWaitingTimes.
  cbn [fst snd PerformanceMetrics.waitingTime]. rewrite lookup_fmap.
  rewrite (waitingStep_waits (sortByTimestamp events) [] ∅ ∅ (fun _ => []) ).
  - cbn [app]. unfold averageWait.
    now destruct (waitsOf name [] (sortByTimestamp events)).
  - intros k. now rewrite lookup_empty.
  - intros n. now rewrite lookup_empty.
Qed.

Lemma waiting_times_average_the_waits_witness :
  exists metrics,
    fst (Call.calculatePerformanceMetrics reviewedThenPaid ∅
           (reviewThenPay None [clerk])) = inr metrics /\
    PerformanceMetrics.waitingTime metrics !! "Pay" = Some 5%float /\
    PerformanceMetrics.waitingTime metrics !! "Review" = None.
Proof.
  destruct (waiting_times_average_the_waits reviewedThenPaid ∅
              (reviewThenPay None [clerk]) eq_refl) as (metrics & Hm & Hw).
  exists metrics. split; [exact Hm|]. split.
  - rewrite (Hw "Pay"). vm_compute. reflexivity.
  - rewrite (Hw "Review"). vm_compute. reflexivity.
Defined.

(** ** The figures of the cases of a run *)

Lemma JsObject_insert_new_last {V : Type} (o : list (Z * V)) k v :
  Forall (fun k0 => 0 <= k0 < k)%Z (JsObject.keys o) ->
  JsObject.insert_new o k v = o ++ [(k, v)].
Proof.
  induction o as [|[k0 v0] o IH]; [reflexivity|].
  cbn [JsObject.keys map fst]. intros H. apply List.Forall_cons_iff in H as [Hk0 H].
  cbn [JsObject.insert_new app].
  assert (JsObject.is_index k && (negb (JsObject.is_index k0) || (k <? k0))%Z
          = false) as ->.
  { unfold JsObject.is_index.
    destruct (0 <=? k)%Z eqn:E1, (k <? 2 ^ 32 - 1)%Z eqn:E2,
             (0 <=? k0)%Z eqn:E3, (k0 <? 2 ^ 32 - 1)%Z eqn:E4,
             (k <? k0)%Z eqn:E5; try reflexivity; lia. }
  f_equal. now apply IH.
Qed.

(** A property name that is not below the others keeps its place or is
    the last one. *)
Lemma JsObject_keys_set_last {V : Type} (o : list (Z * V)) k v :
  Forall (fun k0 => 0 <= k0 <= k)%Z (JsObject.keys o) ->
  JsObject.keys (JsObject.set o k v) = JsObject.keys o
  \/ (JsObject.keys (JsObject.set o k v) = JsObject.keys o ++ [k]
      /\ forall k0, In k0 (JsObject.keys o) -> (k0 < k)%Z).
Proof.
  intros Hle. rewrite List.Forall_forall in Hle.
  unfold JsObject.set. destruct (JsObject.get o k) eqn:Hget.
  - left. apply JsObject_keys_replace.
  - right. apply JsObject_get_None in Hget.
    assert (forall k0, In k0 (JsObject.keys o) -> (k0 < k)%Z) as Hlt.
    { intros k0 Hk0. specialize (Hle k0 Hk0).
      destruct (Z.eq_dec k0 k) as [->|Hne]; [|lia].
      exfalso. apply Hget. now apply list_elem_of_In. }
    split; [|exact Hlt]. rewrite JsObject_insert_new_last.
    + unfold JsObject.keys. now rewrite map_app.
    + apply List.Forall_forall. intros k0 Hk0.
      specialize (Hle k0 Hk0). specialize (Hlt k0 Hk0). lia.
Qed.

(** Where the case ids of the log never decrease, and none is negative, the
    property names of [cases] ascend. *)
Lemma buildCases_ascend events acc :
  ForallOrdPairs
    (fun e1 e2 => (SimulationEvent.caseId e1 <= SimulationEvent.caseId e2)%Z)
    events ->
  Forall (fun e => (0 <= SimulationEvent.caseId e)%Z) events ->
  ForallOrdPairs Z.lt (JsObject.keys acc) ->
  Forall (fun k0 => 0 <= k0)%Z (JsObject.keys acc) ->
  (forall k0 e, In k0 (JsObject.keys acc) -> In e events ->
     (k0 <= SimulationEvent.caseId e)%Z) ->
  ForallOrdPairs Z.lt (JsObject.keys (fold_left recordEvent events acc)).
Proof.
  revert acc. induction events as [|e events IH]; intros acc Hord Hpos Hacc Hnn Hle;
    [exact Hacc|].
  cbn [fold_left]. inversion Hord as [|e' l' Hhead Htail]; subst.
  apply List.Forall_cons_iff in Hpos as [Hpe Hpos].
  rewrite List.Forall_forall in Hhead, Hnn.
  unfold recordEvent at 2.
  match goal with
  | |- context [JsObject.set acc ?k ?v] =>
      destruct (JsObject_keys_set_last acc k v) as [Hkeys | [Hkeys Hlt]]
  end.
  { apply List.Forall_forall. intros k0 Hk0. split; [now apply Hnn|].
    apply Hle; [exact Hk0|now left]. }
  - apply IH; [exact Htail|exact Hpos| | |]; rewrite Hkeys.
    + exact Hacc.
    + now apply List.Forall_forall.
    + intros k0 e2 Hk0 He2. apply Hle; [exact Hk0|now right].
  - apply IH; [exact Htail|exact Hpos| | |]; rewrite Hkeys.
    + apply ForallOrdPairs_app; [exact Hacc|repeat constructor|].
      intros x y Hx [<- | []]. now apply Hlt.
    + apply List.Forall_forall. intros k0 Hk0.
      apply in_app_iff in Hk0 as [Hk0 | [<- | []]]; [now apply Hnn|exact Hpe].
    + intros k0 e2 Hk0 He2.
      apply in_app_iff in Hk0 as [Hk0 | [<- | []]].
      * apply Hle; [exact Hk0|now right].
      * now apply Hhead.
Qed.

(** The ascending list of the integers of a range is unique. *)
Lemma ascending_range l : forall a n,
  ForallOrdPairs Z.lt l ->
  (forall k, In k l <-> (a <= k < a + n)%Z) ->
  l = seqZ a n.
Proof.
  induction l as [|h t IH]; intros a n Hord Hin.
  - rewrite seqZ_nil; [reflexivity|].
    destruct (Z_le_gt_dec n 0) as [Hn|Hn]; [exact Hn|].
    exfalso. apply (proj2 (Hin a)). lia.
  - inversion Hord as [|h' t' Hh Ht]; subst. rewrite List.Forall_forall in Hh.
    assert (a <= h < a + n)%Z as Hrange by (apply Hin; now left).
    assert (h = a) as ->.
    { assert (In a (h :: t)) as [Ha|Ha] by (apply Hin; lia); [exact Ha|].
      specialize (Hh a Ha). lia. }
    rewrite seqZ_cons by lia. f_equal. apply IH; [exact Ht|].
    intros k. split.
    + intros Hk. specialize (Hh k Hk).
      assert (a <= k < a + n)%Z by (apply Hin; now right). lia.
    + intros Hk. assert (In k (a :: t)) as [Hka|Hkt] by (apply Hin; lia);
        [lia|exact Hkt].
Qed.

Section RunFigures.
Variable random : nat -> float.

(** The property names of [cases] for the log of a run: the cases 1, 2,
    ..., in this order. *)
Lemma run_case_names caseStart processStructure scenario numInstances draws
    first rest :
  scenarioActivities processStructure scenario = first :: rest ->
  exists run,
    simulateProcess random caseStart processStructure scenario numInstances draws
    = Some (Normal run) /\
    JsObject.keys (buildCases (Run.events run)) = seqZ 1 numInstances /\
    caseCount (Run.events run) = Z.to_nat numInstances /\
    completedCaseCount (Run.events run) = Z.to_nat numInstances.
Proof.
  intros Hact.
  destruct (simulateProcess_trace random _ (never_sure random) caseStart
              processStructure scenario numInstances draws first rest Hact)
    as (run & xss & Hrun & HE & _ & HT).
  exists run. split; [exact Hrun|].
  destruct (trace_case_counts random _ _ _ _ _ _ _ HT) as [Hcount Hcompleted].
  destruct (ordered_traces random _ _ _ _ _ _ _ _ HT) as [Hord Hlow].
  rewrite <- HE in Hcount, Hcompleted, Hord, Hlow.
  split; [|split; [exact Hcount|exact Hcompleted]].
  destruct (buildCases_names (Run.events run)) as [Hnd Hk].
  replace (seqZ 1 numInstances)
    with (seqZ 1 (Z.of_nat (Z.to_nat numInstances))).
  - apply ascending_range.
    + apply buildCases_ascend; [exact Hord| |constructor|constructor|intros ? ? []].
      eapply List.Forall_impl; [|exact Hlow]. simpl. intros; lia.
    + intros k. rewrite Hk, HE.
      rewrite (trace_case_ids random _ _ _ _ _ _ _ k HT). lia.
  - destruct (Z_le_gt_dec numInstances 0) as [Hn|Hn].
    + rewrite !seqZ_nil by lia. reflexivity.
    + f_equal. lia.
Qed.

(** X19.  For a run of a process that has a first activity and plain
    names, the metrics call returns, and its throughput and cost statistics
    range over the cases 1, 2, ... up to [numInstances], in this order, each
    with its figures; the averages divide by [numInstances]. *)
Theorem run_statistics_by_case caseStart processStructure scenario numInstances
    draws first :
  head (ProcessStructure.activities processStructure) = Some first ->
  plainNames processStructure = true ->
  exists run metrics,
    simulateProcess random caseStart processStructure scenario numInstances draws
    = Some (Normal run) /\
    fst (Call.calculatePerformanceMetrics (Run.events run)
           (Run.resourceUtilization run) processStructure)
    = inr metrics /\
    let figures :=
      flat_map (caseFigures (Run.events run)) (seqZ 1 numInstances) in
    length figures = Z.to_nat numInstances /\
    ThroughputMetrics.avg (PerformanceMetrics.throughput metrics)
    = (Js.sum (map fst figures) / Js.of_nat (Z.to_nat numInstances))%float /\
    ThroughputMetrics.min (PerformanceMetrics.throughput metrics)
    = Js.Math_min (map fst figures) /\
    ThroughputMetrics.max (PerformanceMetrics.throughput metrics)
    = Js.Math_max (map fst figures) /\
    PerformanceMetrics.cost metrics
    = CostMetrics.mk
        (Js.sum (map snd figures) / Js.of_nat (Z.to_nat numInstances))
        (Js.sum (map snd figures)).
Proof.
  intros Hhead Hplain.
  destruct (scenarioActivities_head processStructure scenario first Hhead)
    as (first' & rest' & Hact & _).
  destruct (run_case_names caseStart processStructure scenario numInstances
              draws first' rest' Hact) as (run & Hrun & Hkeys & _ & Hcompleted).
  exists run,
    (fst (calculatePerformanceMetrics (Run.events run)
            (Run.resourceUtilization run) processStructure)).
  split; [exact Hrun|].
  split; [now rewrite (Call_metrics_plain _ _ _
             (run_log_plain random _ _ _ _ _ _ Hplain Hrun))|].
  cbv zeta.
  destruct (buildCases_names (Run.events run)) as [Hnd Hk].
  pose proof (completedCases_count (Run.events run) _ Hnd Hk) as Hlen.
  rewrite Hkeys, Hcompleted in Hlen.
  split; [exact Hlen|].
  unfold calculatePerformanceMetrics.
  destruct (calculateWaitingTimes (Run.events run)) as [w e'].
  cbn [fst PerformanceMetrics.throughput PerformanceMetrics.cost
       ThroughputMetrics.avg ThroughputMetrics.min ThroughputMetrics.max].
  rewrite !length_map, completedCases_figures, Hkeys, Hlen. repeat split.
Qed.

(** X3.  When the process has a first activity and plain names, the run
    returns normally; each case from 1 to [numInstances] starts the first
    activity exactly once; the log holds exactly [numInstances] cases (none
    when the number is negative), each with a start and a complete event;
    the metrics call returns, and [casesCompleted] is that number. *)
Theorem every_case_runs_the_entry caseStart processStructure scenario
    numInstances draws first :
  head (ProcessStructure.activities processStructure) = Some first ->
  plainNames processStructure = true ->
  exists run metrics,
    simulateProcess random caseStart processStructure scenario numInstances draws
    = Some (Normal run) /\
    (forall caseId, (1 <= caseId <= numInstances)%Z ->
       startCount caseId (ProcessActivity.id first) (Run.events run) = 1) /\
    caseCount (Run.events run) = Z.to_nat numInstances /\
    completedCaseCount (Run.events run) = Z.to_nat numInstances /\
    fst (Call.calculatePerformanceMetrics (Run.events run)
           (Run.resourceUtilization run) processStructure)
    = inr metrics /\
    PerformanceMetrics.casesCompleted metrics = Z.to_nat numInstances.
Proof.
  intros Hhead Hplain.
  destruct (scenarioActivities_head processStructure scenario first Hhead)
    as (first' & rest' & Hact & Hid).
  destruct (simulateProcess_trace random _ (never_sure random) caseStart
              processStructure scenario numInstances draws first' rest' Hact)
    as (run & xss & Hrun & HE & _ & HT).
  exists run,
    (fst (calculatePerformanceMetrics (Run.events run)
            (Run.resourceUtilization run) processStructure)).
  split; [exact Hrun|].
  destruct (trace_case_counts random _ _ _ _ _ _ _ HT) as [Hcount Hcompleted].
  rewrite <- HE in Hcount, Hcompleted.
  split; [|split; [exact Hcount|split; [exact Hcompleted|split]]].
  - intros caseId Hrange. apply Nat.le_antisymm.
    + unfold simulateProcess in Hrun.
      refine (caseLoop_single_start random caseStart _ _ _ _ _ (Normal run)
                _ _ Hrun caseId _);
        simpl; intros; unfold startCount; simpl; lia.
    + rewrite HE. apply started_in_logOf.
      assert (In caseId (seqZ 1 (Z.of_nat (Z.to_nat numInstances)))) as Hin
        by (apply list_elem_of_In, elem_of_seqZ; lia).
      destruct (Forall2_In_l _ _ _ _ HT Hin)
        as (xs & Hxs & HF & _ & (x & rest & -> & Hx & _) & _).
      apply List.Forall_inv in HF. destruct HF as (Hc & _).
      exists x. split; [|split; [exact Hc|]].
      * apply in_concat. exists (x :: rest). split; [exact Hxs|now left].
      * unfold executedId. now rewrite Hx.
  - now rewrite (Call_metrics_plain _ _ _
                   (run_log_plain random _ _ _ _ _ _ Hplain Hrun)).
  - rewrite casesCompleted_counts_case_ids. exact Hcount.
Qed.

(** X28.  For a run of a process with plain names: the metrics call
    returns; the keys of [resourceUtilization] and of the utilization map
    are exactly the declared roles; the figure of a declared role is
    computed from the durations of the completed activities whose performer
    is that role, and from nothing else (an activity with another
    performer, declared or not, adds nothing to it); and a declared role
    without busy minutes has the figure zero whenever the denominator
    [8 * 60 * cases / 5 * capacity] is a number other than zero. *)
Theorem utilization_by_declared_role caseStart processStructure scenario
    numInstances draws :
  plainNames processStructure = true ->
  exists c metrics,
    simulateProcess random caseStart processStructure scenario numInstances draws
    = Some c /\
    let run := stateOf c in
    fst (Call.calculatePerformanceMetrics (Run.events run)
           (Run.resourceUtilization run) processStructure)
    = inr metrics /\
    dom (Run.resourceUtilization run) = declaredRoles processStructure /\
    dom (PerformanceMetrics.utilization metrics) = declaredRoles processStructure /\
    forall role, role ∈ declaredRoles processStructure ->
      let busy := Js.sum (busyMinutes role (Run.events run)) in
      let denominator :=
        (8 * 60 * Js.of_nat (PerformanceMetrics.casesCompleted metrics) / 5
         * capacityOf (ProcessStructure.resources processStructure) role)%float in
      PerformanceMetrics.utilization metrics !! role
      = Some (busy / denominator * 100)%float /\
      (busyMinutes role (Run.events run) = [] ->
       PrimFloat.is_nan denominator = false ->
       PrimFloat.is_zero denominator = false ->
       PrimFloat.is_zero (busy / denominator * 100)%float = true).
Proof.
  intros Hplain.
  destruct (simulateProcess_returns random caseStart processStructure scenario
              numInstances draws) as [c H].
  exists c,
    (fst (calculatePerformanceMetrics (Run.events (stateOf c))
            (Run.resourceUtilization (stateOf c)) processStructure)).
  split; [exact H|]. cbv zeta.
  split; [now rewrite (run_metrics_return random _ _ _ _ _ _ Hplain H)|].
  apply simulateProcess_usageInv in H as [Hdom Htot].
  rewrite (plainNames_roles _ Hplain) in Hdom.
  split; [exact Hdom|]. split.
  - rewrite <- Hdom. apply dom_imap_L. intros role.
    rewrite elem_of_dom. split.
    + intros [u Hu]. exists u. split; [exact Hu|]. eauto.
    + intros (u & Hu & _). eauto.
  - intros role Hrole. split.
    + rewrite metrics_utilization.
      rewrite <- Hdom in Hrole. apply elem_of_dom in Hrole as [u Hu].
      rewrite Hu. simpl. unfold utilizationOf. rewrite (Htot _ _ Hu). reflexivity.
    + intros Hnone. rewrite Hnone. apply zero_share.
Qed.

End RunFigures.

Lemma run_statistics_by_case_witness :
  exists run metrics,
    simulateProcess halves utcStart (reviewThenPay None [clerk]) baseline 2 0
    = Some (Normal run) /\
    fst (Call.calculatePerformanceMetrics (Run.events run)
           (Run.resourceUtilization run) (reviewThenPay None [clerk]))
    = inr metrics /\
    length (flat_map (caseFigures (Run.events run)) [1; 2]%Z) = 2 /\
    CostMetrics.total (PerformanceMetrics.cost metrics)
    = Js.sum (map snd (flat_map (caseFigures (Run.events run)) [1; 2]%Z)).
Proof.
  destruct (run_statistics_by_case halves utcStart (reviewThenPay None [clerk])
              baseline 2 0 reviewActivity eq_refl eq_refl)
    as (run & metrics & Hrun & Hm & Hlen & _ & _ & _ & Hcost).
  exists run, metrics. split; [exact Hrun|]. split; [exact Hm|].
  split; [exact Hlen|]. rewrite Hcost. reflexivity.
Defined.

Lemma every_case_runs_the_entry_witness :
  exists run metrics,
    simulateProcess halves utcStart reviewPayCycle baseline 3 0 = Some (Normal run) /\
    startCount 2 "A" (Run.events run) = 1 /\
    completedCaseCount (Run.events run) = 3 /\
    fst (Call.calculatePerformanceMetrics (Run.events run)
           (Run.resourceUtilization run) reviewPayCycle)
    = inr metrics /\
    PerformanceMetrics.casesCompleted metrics = 3.
Proof.
  destruct (every_case_runs_the_entry halves utcStart reviewPayCycle baseline 3 0
              reviewActivity eq_refl eq_refl)
    as (run & metrics & Hrun & Hstart & _ & Hdone & Hm & Hn).
  exists run, metrics. split; [exact Hrun|]. split; [apply Hstart; lia|].
  split; [exact Hdone|]. split; [exact Hm|exact Hn].
Defined.

Lemma utilization_by_declared_role_witness :
  exists c metrics,
    simulateProcess halves utcStart (reviewThenPay None [clerk; manager]) baseline 2 0
    = Some c /\
    fst (Call.calculatePerformanceMetrics (Run.events (stateOf c))
           (Run.resourceUtilization (stateOf c))
           (reviewThenPay None [clerk; manager]))
    = inr metrics /\
    dom (Run.resourceUtilization (stateOf c))
    = declaredRoles (reviewThenPay None [clerk; manager]) /\
    exists v,
      PerformanceMetrics.utilization metrics !! "manager" = Some v /\
      PrimFloat.is_zero v = true.
Proof.
  destruct (utilization_by_declared_role halves utcStart
              (reviewThenPay None [clerk; manager]) baseline 2 0 eq_refl)
    as (c & metrics & Hc & Hm & Hd & _ & Hr).
  exists c, metrics. split; [exact Hc|]. split; [exact Hm|]. split; [exact Hd|].
  destruct (Hr "manager") as [Hu Hz]; [vm_compute; reflexivity|].
  eexists. split; [exact Hu|].
  pose proof Hc as Hc'. vm_compute in Hc'. injection Hc' as <-.
  vm_compute in Hm. injection Hm as <-.
  apply Hz; vm_compute; reflexivity.
Defined.

(** ** Retry *)

Section Retrying.
Context {T : Type}.
Variable fn : nat -> Attempt T.

(** The loop from a state in which [calls] calls have failed: it goes on
    failing until call [k] resolves. *)
Lemma retryLoop_resolves maxRetries v k :
  fn k = Resolved v ->
  forall turns attempt lastError calls sleeps,
    (forall j, calls ≤ j < k -> exists t, fn j = Rejected t) ->
    calls ≤ k -> k - calls < turns ->
    attempt = Z.of_nat (S calls) ->
    (Z.of_nat turns + attempt = maxRetries + 1)%Z ->
    retryLoop fn maxRetries turns attempt lastError calls sleeps
    = Retry.mk (Returned v) (S k)
        (sleeps ++ map retryDelay (seqZ attempt (Z.of_nat (k - calls)))).
Proof.
  intros Hk turns. induction turns as [|turns IH];
    intros attempt lastError calls sleeps Hfail Hle Hlt Ha Hm; [lia|].
  simpl. destruct (Nat.eq_dec calls k) as [->|Hne].
  - rewrite Hk, Nat.sub_diag. simpl. now rewrite app_nil_r.
  - destruct (Hfail calls) as [t Ht]; [lia|]. rewrite Ht.
    assert ((attempt <? maxRetries)%Z = true) as -> by (apply Z.ltb_lt; lia).
    rewrite (IH (attempt + 1)%Z _ (S calls)); try lia.
    + f_equal. rewrite <- app_assoc. f_equal.
      replace (k - calls) with (S (k - S calls)) by lia.
      rewrite (seqZ_cons attempt) by lia. simpl. do 3 f_equal; lia.
    + intros j Hj. apply Hfail. lia.
Qed.

(** The loop when every remaining call fails. *)
Lemma retryLoop_exhausts maxRetries :
  forall turns attempt lastError calls sleeps,
    (forall j, calls ≤ j < calls + turns -> exists t, fn j = Rejected t) ->
    attempt = Z.of_nat (S calls) ->
    (Z.of_nat turns + attempt = maxRetries + 1)%Z ->
    retryLoop fn maxRetries turns attempt lastError calls sleeps
    = Retry.mk
        (Threw (match turns with
                | O => lastError
                | S _ =>
                    match fn (calls + turns - 1) with
                    | Rejected t => Some (asError t)
                    | Resolved _ => lastError
                    end
                end))
        (calls + turns)
        (sleeps ++ map retryDelay (seqZ attempt (Z.of_nat (turns - 1)))).
Proof.
  intros turns. induction turns as [|turns IH];
    intros attempt lastError calls sleeps Hfail Ha Hm.
  - simpl. now rewrite Nat.add_0_r, app_nil_r.
  - simpl. destruct (Hfail calls) as [t Ht]; [lia|]. rewrite Ht.
    destruct turns as [|turns'].
    + assert ((attempt <? maxRetries)%Z = false) as -> by (apply Z.ltb_ge; lia).
      simpl. replace (calls + 1 - 1) with calls by lia. rewrite Ht, app_nil_r.
      do 2 f_equal. lia.
    + assert ((attempt <? maxRetries)%Z = true) as -> by (apply Z.ltb_lt; lia).
      rewrite (IH (attempt + 1)%Z _ (S calls)); try lia.
      * replace (S calls + S turns' - 1) with (calls + S (S turns') - 1) by lia.
        destruct (Hfail (calls + S (S turns') - 1)) as [t0 ->]; [lia|].
        replace (S calls + S turns') with (calls + S (S turns')) by lia.
        rewrite <- app_assoc. do 2 f_equal.
        replace (S (S turns') - 1) with (S (S turns' - 1)) by lia.
        rewrite (seqZ_cons attempt) by lia. simpl. do 3 f_equal; lia.
      * intros j Hj. apply Hfail. lia.
Qed.

(** X20.  If the calls of [fn] fail [k] times and the next one resolves
    with [v], where [k] is below [maxRetries], then [withRetry] returns [v]
    after [k + 1] calls, having slept 1000, 2000, ... milliseconds: the
    delay doubles after every failure. *)
Theorem withRetry_first_success maxRetries k v :
  (Z.of_nat k < maxRetries)%Z ->
  (forall j, j < k -> exists t, fn j = Rejected t) ->
  fn k = Resolved v ->
  withRetry fn maxRetries
  = Retry.mk (Returned v) (S k) (map retryDelay (seqZ 1 (Z.of_nat k))).
Proof.
  intros Hk Hfail Hv. unfold withRetry.
  rewrite (retryLoop_resolves maxRetries v k Hv); try lia.
  - simpl. now rewrite Nat.sub_0_r.
  - intros j Hj. apply Hfail. lia.
Qed.

(** X21.  If the first [maxRetries] calls of [fn] all fail, [withRetry]
    throws the error of the last call (wrapped in an [Error] when it is not
    one) after exactly [maxRetries] calls and [maxRetries - 1] sleeps: it
    does not sleep after the last failure. *)
Theorem withRetry_gives_up maxRetries t :
  (1 <= maxRetries)%Z ->
  (forall j, j < Z.to_nat maxRetries -> exists t', fn j = Rejected t') ->
  fn (Z.to_nat maxRetries - 1) = Rejected t ->
  withRetry fn maxRetries
  = Retry.mk (Threw (Some (asError t))) (Z.to_nat maxRetries)
      (map retryDelay (seqZ 1 (maxRetries - 1))).
Proof.
  intros Hm Hfail Hlast. unfold withRetry.
  rewrite (retryLoop_exhausts maxRetries); try lia.
  - cbn [Nat.add app]. rewrite Hlast.
    replace (Z.of_nat (Z.to_nat maxRetries - 1)) with (maxRetries - 1)%Z by lia.
    now destruct (Z.to_nat maxRetries) as [|n] eqn:En; [lia|].
  - intros j Hj. apply Hfail. lia.
Qed.

(** X22.  With [maxRetries] at most 0, [withRetry] never calls [fn] and
    throws [lastError] while it is still [null]. *)
Theorem withRetry_without_attempts maxRetries :
  (maxRetries <= 0)%Z ->
  withRetry fn maxRetries = Retry.mk (Threw None) 0 [].
Proof.
  intros H. unfold withRetry.
  replace (Z.to_nat maxRetries) with 0 by lia. reflexivity.
Qed.

Lemma retryLoop_bounds maxRetries :
  forall turns attempt lastError calls sleeps,
    attempt = Z.of_nat (S calls) ->
    (Z.of_nat turns + attempt = maxRetries + 1)%Z ->
    let r := retryLoop fn maxRetries turns attempt lastError calls sleeps in
    calls ≤ Retry.calls r ≤ calls + turns /\
    (0 < turns -> calls < Retry.calls r) /\
    Retry.sleeps r
    = sleeps ++ map retryDelay
                  (seqZ attempt (Z.of_nat (Retry.calls r) - Z.of_nat calls - 1)).
Proof.
  intros turns. induction turns as [|turns IH];
    intros attempt lastError calls sleeps Ha Hm; simpl.
  - split; [lia|]. split; [lia|].
    rewrite seqZ_nil by lia. simpl. now rewrite app_nil_r.
  - destruct (fn calls) as [v|t]; simpl.
    + split; [lia|]. split; [lia|].
      rewrite seqZ_nil by lia. simpl. now rewrite app_nil_r.
    + destruct (attempt <? maxRetries)%Z eqn:Hlt.
      * apply Z.ltb_lt in Hlt.
        destruct (IH (attempt + 1)%Z (Some (asError t)) (S calls)
                    (sleeps ++ [retryDelay attempt])) as (Hc & Hpos & Hs); try lia.
        specialize (Hpos ltac:(lia)).
        split; [lia|]. split; [lia|]. rewrite Hs, <- app_assoc. f_equal.
        rewrite (seqZ_cons attempt) by lia. simpl. do 3 f_equal; lia.
      * apply Z.ltb_ge in Hlt. assert (turns = 0) as -> by lia. simpl.
        split; [lia|]. split; [lia|].
        rewrite seqZ_nil by lia. simpl. now rewrite app_nil_r.
Qed.

(** X23.  Whatever [fn] does, [withRetry] calls it at most [maxRetries]
    times, and sleeps once between two calls: the delays are those of the
    attempts 1, 2, ... up to one less than the number of calls. *)
Theorem withRetry_is_bounded maxRetries :
  Retry.calls (withRetry fn maxRetries) ≤ Z.to_nat maxRetries /\
  Retry.sleeps (withRetry fn maxRetries)
  = map retryDelay (seqZ 1 (Z.of_nat (Retry.calls (withRetry fn maxRetries)) - 1)).
Proof.
  unfold withRetry. destruct (Z_le_gt_dec maxRetries 0) as [Hle|Hgt].
  - replace (Z.to_nat maxRetries) with 0 by lia. simpl. split; [lia|reflexivity].
  - destruct (retryLoop_bounds maxRetries (Z.to_nat maxRetries) 1 None 0 [])
      as (Hc & _ & Hs); try lia.
    split; [lia|]. rewrite Hs. simpl. do 2 f_equal. lia.
Qed.

End Retrying.

(** ** Provider dispatch *)

Example retryDelay_samples :
  map retryDelay (seqZ 1 4) = [1000; 2000; 4000; 8000]%float.
Proof. reflexivity. Qed.

(** X24.  An unsupported model name is not rejected at once: the callback
    of [generateContent] throws [Unsupported AI model: ...] in each of the
    five attempts, 1, 2, 4 and 8 seconds are slept in between, and the
    error is thrown at the end, whatever the providers would do. *)
Theorem unsupported_model_is_retried (DEFAULT_GEMINI_KEY : string)
    (GenerationOptions : Type)
    (provider : Provider -> string -> string -> GenerationOptions -> nat -> Attempt string)
    config prompt options :
  AIProviderConfig.model config <> "gemini" ->
  AIProviderConfig.model config <> "openai" ->
  AIProviderConfig.model config <> "claude" ->
  generateContent DEFAULT_GEMINI_KEY GenerationOptions provider config prompt options
  = Retry.mk
      (Threw (Some (JsError.mk "Error"
                      ("Unsupported AI model: " ++ AIProviderConfig.model config)%string)))
      5 [1000; 2000; 4000; 8000]%float.
Proof.
  intros Hg Ho Hc. unfold generateContent.
  assert (forall k,
            dispatch DEFAULT_GEMINI_KEY GenerationOptions provider config prompt
              options k
            = Rejected (ThrownError
                          (JsError.mk "Error"
                             ("Unsupported AI model: "
                              ++ AIProviderConfig.model config)%string))) as Hd.
  { intros k. unfold dispatch.
    apply String.eqb_neq in Hg, Ho, Hc. now rewrite Hg, Ho, Hc. }
  unfold withRetry.
  rewrite (retryLoop_exhausts _ MAX_RETRIES (Z.to_nat MAX_RETRIES) 1 None 0 []);
    [|intros j _; eauto|reflexivity|reflexivity].
  cbn [Z.to_nat MAX_RETRIES Pos.to_nat Pos.iter_op Nat.add Nat.sub].
  rewrite Hd. reflexivity.
Qed.

Lemma withRetry_first_success_witness :
  withRetry flaky 5 = Retry.mk (Returned "ok") 3 [1000; 2000]%float.
Proof.
  apply (withRetry_first_success flaky 5 2 "ok").
  - lia.
  - intros j Hj. exists (ThrownValue "timeout").
    destruct j as [|[|j]]; [reflexivity|reflexivity|lia].
  - reflexivity.
Defined.

Lemma withRetry_gives_up_witness :
  withRetry failing 3
  = Retry.mk (Threw (Some (JsError.mk "Error" "503"))) 3 [1000; 2000]%float.
Proof.
  apply (withRetry_gives_up failing 3 (ThrownValue "503")).
  - lia.
  - intros j _. exists (ThrownValue "503"). reflexivity.
  - reflexivity.
Defined.

Lemma withRetry_without_attempts_witness :
  withRetry flaky 0 = Retry.mk (Threw None) 0 [].
Proof. apply (withRetry_without_attempts flaky 0). lia. Defined.

Lemma unsupported_model_is_retried_witness :
  generateContent "default-key" unit echo (AIProviderConfig.mk "mistral" "key")
    "Summarise the process" tt
  = Retry.mk (Threw (Some (JsError.mk "Error" "Unsupported AI model: mistral")))
      5 [1000; 2000; 4000; 8000]%float.
Proof.
  apply (unsupported_model_is_retried "default-key" unit echo
           (AIProviderConfig.mk "mistral" "key") "Summarise the process" tt);
    discriminate.
Defined.

(** ** Percentages *)

Example parsePercentage_samples :
  parsePercentage "-50%" 10 = 5%float /\
  parsePercentage "+25 %" 200 = 250%float /\
  parsePercentage "reduce by 25%" 8 = 10%float /\
  parsePercentage "50.5%" 100 = 150%float /\
  parsePercentage "25-10%" 100 = 125%float /\
  parsePercentage "n/a" 7 = 7%float.
Proof. repeat split. Qed.

(** X25.  [parsePercentage] returns the base value unchanged for a string
    without a digit. *)
Theorem parsePercentage_without_digits percentStr baseValue :
  allChars (fun c => negb (isDigit c)) percentStr = true ->
  parsePercentage percentStr baseValue = baseValue.
Proof.
  intros H. unfold parsePercentage.
  assert (firstInteger percentStr = None) as ->; [|reflexivity].
  induction percentStr as [|c rest IH]; [reflexivity|].
  cbn [allChars] in H. apply andb_true_iff in H as [Hc Hrest].
  apply negb_true_iff in Hc. cbn [firstInteger]. rewrite Hc.
  assert (startsWithDigit rest = false) as ->.
  { destruct rest as [|c' rest']; [reflexivity|]. cbn in Hrest |- *.
    apply andb_true_iff in Hrest as [H1 _]. now apply negb_true_iff. }
  rewrite andb_false_r. now apply IH.
Qed.

Lemma takeDigits_app digits rest :
  allChars isDigit digits = true -> startsWithDigit rest = false ->
  takeDigits (digits ++ rest) = digits.
Proof.
  intros Hd Hr. induction digits as [|c digits IH]; simpl in *.
  - destruct rest as [|c rest]; [reflexivity|]. simpl in *. now rewrite Hr.
  - apply andb_true_iff in Hd as [-> Hd]. f_equal. now apply IH.
Qed.

Lemma firstInteger_app prefix digits rest :
  allChars (fun c => negb (isDigit c)) prefix = true ->
  digits <> EmptyString ->
  allChars isDigit digits = true ->
  startsWithDigit rest = false ->
  firstInteger (prefix ++ digits ++ rest) = Some (endsWithMinus prefix, digits).
Proof.
  intros Hp Hne Hd Hr.
  assert (startsWithDigit (digits ++ rest) = true) as Hstart.
  { destruct digits as [|c digits]; [congruence|]. simpl in *.
    now apply andb_true_iff in Hd as [-> _]. }
  induction prefix as [|c prefix IH].
  - simpl. destruct digits as [|d digits]; [congruence|].
    simpl in *. apply andb_true_iff in Hd as [Hd1 Hd2]. rewrite Hd1.
    f_equal. f_equal. f_equal. now apply takeDigits_app.
  - simpl in Hp. apply andb_true_iff in Hp as [Hc Hp]. apply negb_true_iff in Hc.
    change (firstInteger ((String c prefix) ++ digits ++ rest))
      with (if isDigit c then Some (false, takeDigits (String c (prefix ++ digits ++ rest)))
            else if isMinus c && startsWithDigit (prefix ++ digits ++ rest)
                 then Some (true, takeDigits (prefix ++ digits ++ rest))
                 else firstInteger (prefix ++ digits ++ rest)).
    rewrite Hc. destruct prefix as [|c' prefix'].
    + change ("" +:+ digits +:+ rest) with (digits +:+ rest) in *.
      rewrite Hstart, andb_true_r. cbn [endsWithMinus].
      destruct (isMinus c).
      * f_equal. f_equal. now apply takeDigits_app.
      * now rewrite (IH Hp).
    + simpl in Hp. apply andb_true_iff in Hp as [Hc' Hp'].
      apply negb_true_iff in Hc'.
      change (startsWithDigit (String c' prefix' ++ digits ++ rest)) with (isDigit c').
      rewrite Hc', andb_false_r.
      rewrite IH by (simpl; now rewrite Hc', Hp'). reflexivity.
Qed.

(** X26.  [parsePercentage] reads the first run of digits of the string,
    negated when a minus sign stands directly before it, as the percentage
    [p], and returns [baseValue * (1 + p / 100)]; what follows the digits (a
    fraction, a second number) is ignored. *)
Theorem parsePercentage_reads_first_integer prefix digits rest baseValue :
  allChars (fun c => negb (isDigit c)) prefix = true ->
  digits <> EmptyString ->
  allChars isDigit digits = true ->
  startsWithDigit rest = false ->
  parsePercentage (prefix ++ digits ++ rest) baseValue
  = (baseValue * (1 + parseIntOf (endsWithMinus prefix) digits / 100))%float.
Proof.
  intros Hp Hne Hd Hr. unfold parsePercentage.
  now rewrite (firstInteger_app prefix digits rest Hp Hne Hd Hr).
Qed.

Lemma parsePercentage_without_digits_witness :
  parsePercentage "n/a" 7 = 7%float.
Proof. apply (parsePercentage_without_digits "n/a" 7). reflexivity. Defined.

Lemma parsePercentage_reads_first_integer_witness :
  parsePercentage "reduce by -25.5%" 8 = 6%float.
Proof.
  apply (parsePercentage_reads_first_integer "reduce by -" "25" ".5%" 8).
  - reflexivity.
  - discriminate.
  - reflexivity.
  - reflexivity.
Defined.

(** ** The exported simulation entry point *)

Section ApiProperties.
Variable random : nat -> float.

(** A run on a non-empty activity list with plain names returns, and so
    does the metrics call, with as many cases as instances. *)
Lemma simulateProcess_cases caseStart processStructure scenario numInstances
    draws :
  ProcessStructure.activities processStructure <> [] ->
  plainNames processStructure = true ->
  exists run metrics,
    simulateProcess random caseStart processStructure scenario numInstances draws
    = Some (Normal run) /\
    fst (Call.calculatePerformanceMetrics (Run.events run)
           (Run.resourceUtilization run) processStructure)
    = inr metrics /\
    PerformanceMetrics.casesCompleted metrics = Z.to_nat numInstances.
Proof.
  intros Hne Hplain.
  destruct (ProcessStructure.activities processStructure) as [|first0 rest0] eqn:Ha;
    [congruence|].
  destruct (scenarioActivities_head processStructure scenario first0)
    as (first & rest & Hact & _); [now rewrite Ha|].
  destruct (simulateProcess_trace random _ (never_sure random) caseStart
              processStructure scenario numInstances draws first rest Hact)
    as (run & xss & Hrun & HE & _ & HT).
  exists run,
    (fst (calculatePerformanceMetrics (Run.events run)
            (Run.resourceUtilization run) processStructure)).
  split; [exact Hrun|].
  split; [now rewrite (Call_metrics_plain _ _ _
             (run_log_plain random _ _ _ _ _ _ Hplain Hrun))|].
  rewrite casesCompleted_counts_case_ids, HE.
  apply (trace_case_counts random _ _ _ _ _ _ _ HT).
Qed.

Lemma scenarioLoop_results caseStart processStructure numInstances scenarios :
  ProcessStructure.activities processStructure <> [] ->
  plainNames processStructure = true ->
  forall results draws,
  exists results' draws',
    Api.scenarioLoop random caseStart processStructure scenarios numInstances
      results draws
    = Some (Normal (results ++ results', draws')) /\
    map SimulationResult.scenario results' = map Scenario.scenarioName scenarios /\
    Forall (fun r =>
              SimulationResult.events r = [] /\
              PerformanceMetrics.casesCompleted (SimulationResult.metrics r)
              = Z.to_nat numInstances) results'.
Proof.
  intros Hne Hplain. induction scenarios as [|scenario rest IH]; intros results draws.
  - exists [], draws. simpl. rewrite app_nil_r. repeat split; constructor.
  - destruct (simulateProcess_cases caseStart processStructure scenario
                numInstances draws Hne Hplain) as (run & metrics & Hrun & Hm & Hn).
    cbn [Api.scenarioLoop]. rewrite Hrun, Hm.
    destruct (IH (results
                  ++ [SimulationResult.mk (Scenario.scenarioName scenario)
                        metrics []]) (Run.draws run))
      as (results' & draws' & -> & Hnames & Hall).
    eexists (_ :: results'), draws'. rewrite <- app_assoc. simpl.
    split; [reflexivity|]. split; [now rewrite Hnames|].
    constructor; [|exact Hall]. simpl. auto.
Qed.

(** X27.  For a process with at least one activity and plain names the
    exported [simulateProcess] returns one result for each scenario, in the
    order of the scenarios and under their names; every result has an empty
    event list, and metrics whose [casesCompleted] is [numInstances]. *)
Theorem api_results_follow_scenarios caseStart processStructure scenarios
    numInstances draws :
  ProcessStructure.activities processStructure <> [] ->
  plainNames processStructure = true ->
  exists results draws',
    Api.simulateProcess random caseStart processStructure scenarios numInstances
      draws = Some (Normal (results, draws')) /\
    map SimulationResult.scenario results = map Scenario.scenarioName scenarios /\
    Forall (fun r =>
              SimulationResult.events r = [] /\
              PerformanceMetrics.casesCompleted (SimulationResult.metrics r)
              = Z.to_nat numInstances) results.
Proof.
  intros Hne Hplain. unfold Api.simulateProcess.
  destruct (scenarioLoop_results caseStart processStructure numInstances
              scenarios Hne Hplain [] draws) as (results & draws' & H & Hn & Ha).
  exists results, draws'. auto.
Qed.

End ApiProperties.

Lemma api_results_follow_scenarios_witness :
  exists results draws',
    Api.simulateProcess halves utcStart (reviewThenPay None [clerk])
      [baseline; automated] 2 0 = Some (Normal (results, draws')) /\
    map SimulationResult.scenario results = ["Baseline"; "Automation"] /\
    Forall (fun r =>
              SimulationResult.events r = [] /\
              PerformanceMetrics.casesCompleted (SimulationResult.metrics r) = 2)
      results.
Proof.
  apply (api_results_follow_scenarios halves utcStart (reviewThenPay None [clerk])
           [baseline; automated] 2 0).
  - discriminate.
  - reflexivity.
Defined.
